(** * Deal convergence core of the radar runner (radar/runner.py)

    A shallow embedding of the URL normaliser, the identity resolver, the
    dedup/upsert engine with its status lifecycle, the DB-side reactivation
    pass, the health checker and the job that chains them, followed by the
    properties the specification states about them.  The search results,
    the radar items and the weekly report are embedded after them, with
    further properties of all these parts.

    Conventions.
    - A Python [str] is a Rocq [string].  The embedding is exact on ASCII
      text; the only non-ASCII characters it knows are the ones the source
      names itself (en and em dash, the CJK punctuation of
      [generate_one_liner]), written as their UTF-8 bytes.
    - The library functions the runner calls ([str] methods,
      [urllib.parse], the three regular expressions of
      [clean_canonical_name], [hashlib.sha1], [datetime]) are embedded from
      the behaviour of CPython 3.11.
    - Three things are left to the platform and are parameters: the
      validation of a bracketed host in [urlsplit], the parser
      [datetime.fromisoformat], and the offset of the local time zone.
    - A timestamp is an instant, in microseconds since the Unix epoch.  The
      table holds instants and the client reads them back as ISO-8601
      text.
    - The MD5 digest of [get_url_hash] is a parameter too, and what the
      search request and the query of the weekly report answer is an
      argument of the functions that read it.
    - An exception is a value: fallible code returns a [result], and a
      store call raises when the store's list of [faults] says so.
    - Line numbers refer to radar/runner.py. *)

From Stdlib Require Import ZArith List String Ascii Bool Lia.
From stdpp Require Import gmap strings list fin_maps.

Local Open Scope string_scope.
Local Open Scope Z_scope.

(** ** Exceptions *)

Inductive exn : Type :=
| AssertionError
| TypeError
| ValueError
| StoreError.

Inductive result (A : Type) : Type :=
| Ok (a : A)
| Raise (e : exn).

Arguments Ok {A} a.
Arguments Raise {A} e.

(** ** Python [str] primitives *)

Module Py.

Definition code (c : ascii) : N := N_of_ascii c.

(** [str.isspace] on the ASCII range: TAB..CR, FS..US and the space. *)
Definition is_space (c : ascii) : bool :=
  let n := code c in
  ((9 <=? n) && (n <=? 13) || (28 <=? n) && (n <=? 32))%N.

Definition is_upper (c : ascii) : bool :=
  let n := code c in ((65 <=? n) && (n <=? 90))%N.

Definition is_lower (c : ascii) : bool :=
  let n := code c in ((97 <=? n) && (n <=? 122))%N.

Definition is_digit (c : ascii) : bool :=
  let n := code c in ((48 <=? n) && (n <=? 57))%N.

Definition is_alpha (c : ascii) : bool := is_upper c || is_lower c.

Definition lower_char (c : ascii) : ascii :=
  if is_upper c then ascii_of_N (code c + 32) else c.

(** [s.lower()] *)
Fixpoint lower (s : string) : string :=
  match s with
  | EmptyString => EmptyString
  | String c r => String (lower_char c) (lower r)
  end.

(** truthiness of a [str] *)
Definition truthy (s : string) : bool :=
  match s with
  | EmptyString => false
  | String _ _ => true
  end.

(** [x or y] on strings *)
Definition or_else (x y : string) : string := if truthy x then x else y.

Fixpoint lstrip_by (p : ascii -> bool) (s : string) : string :=
  match s with
  | EmptyString => EmptyString
  | String c r => if p c then lstrip_by p r else s
  end.

Fixpoint rstrip_by (p : ascii -> bool) (s : string) : string :=
  match s with
  | EmptyString => EmptyString
  | String c r =>
      let r' := rstrip_by p r in
      if p c && negb (truthy r') then EmptyString else String c r'
  end.

(** [s.strip()] *)
Definition strip (s : string) : string := rstrip_by is_space (lstrip_by is_space s).

(** [s.startswith(p)] and [s.endswith(p)] *)
Definition startswith (s p : string) : bool := String.prefix p s.

Definition endswith (s p : string) : bool :=
  let n := String.length s in
  let m := String.length p in
  (m <=? n)%nat && String.eqb (String.substring (n - m) m s) p.

(** [s[:n]] and [s[n:]] for [n >= 0] *)
Definition take (n : nat) (s : string) : string := String.substring 0 n s.

Definition drop (n : nat) (s : string) : string :=
  String.substring n (String.length s - n) s.

(** [c in s] for a one-character [c] *)
Fixpoint contains (c : ascii) (s : string) : bool :=
  match s with
  | EmptyString => false
  | String d r => Ascii.eqb c d || contains c r
  end.

(** [s.find(c)] for a one-character [c]: [None] is Python's [-1]. *)
Fixpoint find (c : ascii) (s : string) : option nat :=
  match s with
  | EmptyString => None
  | String d r =>
      if Ascii.eqb c d then Some O
      else match find c r with
           | Some i => Some (S i)
           | None => None
           end
  end.

(** [s.find(c, start)] *)
Definition find_from (c : ascii) (start : nat) (s : string) : option nat :=
  match find c (drop start s) with
  | Some i => Some (start + i)%nat
  | None => None
  end.

(** [s.rfind(p)] for a non-empty pattern [p] *)
Fixpoint rfind (p s : string) : option nat :=
  match s with
  | EmptyString => None
  | String _ r =>
      match rfind p r with
      | Some i => Some (S i)
      | None => if String.prefix p s then Some O else None
      end
  end.

(** [s.split(c, 1)]: the text before the first [c] and, when there is
    one, the text after it. *)
Fixpoint split_once (c : ascii) (s : string) : string * option string :=
  match s with
  | EmptyString => (EmptyString, None)
  | String d r =>
      if Ascii.eqb c d then (EmptyString, Some r)
      else let '(a, b) := split_once c r in (String d a, b)
  end.

(** [re.split] on a class of single characters: always at least one
    piece. *)
Fixpoint split_by (sep : ascii -> bool) (s : string) : list string :=
  match s with
  | EmptyString => [EmptyString]
  | String d r =>
      if sep d then EmptyString :: split_by sep r
      else match split_by sep r with
           | p :: ps => String d p :: ps
           | [] => [String d EmptyString]
           end
  end.

(** [s.split(c)] *)
Definition split (c : ascii) (s : string) : list string :=
  split_by (Ascii.eqb c) s.

(** [s.split()]: the maximal runs of non-whitespace. *)
Fixpoint split_ws_aux (cur : string) (s : string) : list string :=
  match s with
  | EmptyString => if truthy cur then [cur] else []
  | String d r =>
      if is_space d
      then (if truthy cur then cur :: split_ws_aux EmptyString r
            else split_ws_aux EmptyString r)
      else split_ws_aux (cur +:+ String d EmptyString) r
  end.

Definition split_ws (s : string) : list string := split_ws_aux EmptyString s.

(** [sep.join(l)] *)
Fixpoint join (sep : string) (l : list string) : string :=
  match l with
  | [] => EmptyString
  | [x] => x
  | x :: xs => x +:+ sep +:+ join sep xs
  end.

(** [s.replace(c, t)] for a one-character [c] *)
Fixpoint replace (c : ascii) (t : string) (s : string) : string :=
  match s with
  | EmptyString => EmptyString
  | String d r =>
      if Ascii.eqb c d then t +:+ replace c t r else String d (replace c t r)
  end.

(** [a < b] and [a <= b] on strings: lexicographic on code points. *)
Fixpoint ltb (a b : string) : bool :=
  match a, b with
  | _, EmptyString => false
  | EmptyString, String _ _ => true
  | String x a', String y b' =>
      if (code x <? code y)%N then true
      else if (code y <? code x)%N then false
      else ltb a' b'
  end.

Definition leb (a b : string) : bool := negb (ltb b a).

(** [x in l] for a list of strings *)
Definition mem (x : string) (l : list string) : bool :=
  existsb (String.eqb x) l.

(** [d[k] = v] on a [dict] kept as the list of its items, in insertion
    order *)
Fixpoint dict_set {V : Type} (k : string) (v : V) (d : list (string * V))
  : list (string * V) :=
  match d with
  | [] => [(k, v)]
  | (k', v') :: d' =>
      if String.eqb k' k then (k', v) :: d' else (k', v') :: dict_set k v d'
  end.

(** [a <= b] on pairs of strings *)
Definition pair_leb (a b : string * string) : bool :=
  ltb (fst a) (fst b) || (String.eqb (fst a) (fst b) && leb (snd a) (snd b)).

Fixpoint insert_sorted (x : string * string) (l : list (string * string))
  : list (string * string) :=
  match l with
  | [] => [x]
  | y :: l' => if pair_leb x y then x :: l else y :: insert_sorted x l'
  end.

(** [sorted(l)] on a list of pairs of strings *)
Definition sorted (l : list (string * string)) : list (string * string) :=
  fold_right insert_sorted [] l.

End Py.

(** ** [urllib.parse] *)

Module Urllib.
Import Py.

Record SplitResult : Type := mkSplit {
  s_scheme : string;
  s_netloc : string;
  s_path : string;
  s_query : string;
  s_fragment : string
}.

Record ParseResult : Type := mkParse {
  scheme : string;
  netloc : string;
  path : string;
  params : string;
  query : string;
  fragment : string
}.

Definition uses_netloc : list string :=
  [""; "ftp"; "http"; "gopher"; "nntp"; "telnet"; "imap"; "wais"; "file";
   "mms"; "https"; "shttp"; "snews"; "prospero"; "rtsp"; "rtspu"; "rsync";
   "svn"; "svn+ssh"; "sftp"; "nfs"; "git"; "git+ssh"; "ws"; "wss"].

Definition uses_params : list string :=
  [""; "ftp"; "hdl"; "prospero"; "http"; "imap"; "https"; "shttp"; "rtsp";
   "rtspu"; "sip"; "sips"; "mms"; "sftp"; "tel"].

Definition scheme_char (c : ascii) : bool :=
  is_alpha c || is_digit c || contains c "+-.".

(** [_WHATWG_C0_CONTROL_OR_SPACE] *)
Definition c0_control_or_space (c : ascii) : bool := (code c <=? 32)%N.

(** [_UNSAFE_URL_BYTES_TO_REMOVE]: TAB, CR and LF are deleted. *)
Definition remove_unsafe (s : string) : string :=
  replace "010" "" (replace "013" "" (replace "009" "" s)).

Fixpoint all_chars (p : ascii -> bool) (s : string) : bool :=
  match s with
  | EmptyString => true
  | String c r => p c && all_chars p r
  end.

(** [_splitnetloc(url, 2)] *)
Definition splitnetloc (url : string) : string * string :=
  let upd (c : ascii) (delim : nat) :=
    match find_from c 2 url with
    | Some w => Nat.min delim w
    | None => delim
    end in
  let delim := upd "#"%char (upd "?"%char (upd "/"%char (String.length url))) in
  (String.substring 2 (delim - 2) url, drop delim url).

Section Split.
(** [_check_bracketed_netloc], which calls into [ipaddress]: [true]
    when the bracketed host is accepted.  Interpreters that predate the
    check accept every netloc. *)
Variable bracketed_netloc_ok : string -> bool.

Definition urlsplit (url0 : string) : result SplitResult :=
  let url := remove_unsafe (lstrip_by c0_control_or_space url0) in
  let '(sch, url) :=
    match find ":" url, url with
    | Some (S i), String c0 _ =>
        if is_alpha c0 && all_chars scheme_char (take (S i) url)
        then (lower (take (S i) url), drop (S (S i)) url)
        else (EmptyString, url)
    | _, _ => (EmptyString, url)
    end in
  let after_netloc (nl rest : string) : result SplitResult :=
    let '(rest, frag) :=
      if contains "#" rest
      then (let '(a, b) := split_once "#" rest in (a, default "" b))
      else (rest, "") in
    let '(rest, qs) :=
      if contains "?" rest
      then (let '(a, b) := split_once "?" rest in (a, default "" b))
      else (rest, "") in
    Ok (mkSplit sch nl rest qs frag) in
  if String.eqb (take 2 url) "//" then
    let '(nl, rest) := splitnetloc url in
    let o := contains "[" nl in
    let c := contains "]" nl in
    if (o && negb c) || (c && negb o) then Raise ValueError
    else if o && c && negb (bracketed_netloc_ok nl) then Raise ValueError
    else after_netloc nl rest
  else after_netloc "" url.

(** [_splitparams] *)
Definition splitparams (url : string) : string * string :=
  let cut (i : nat) := (take i url, drop (S i) url) in
  if contains "/" url then
    match rfind "/" url with
    | Some j =>
        match find_from ";" j url with
        | Some i => cut i
        | None => (url, "")
        end
    | None => (url, "")
    end
  else
    match find ";" url with
    | Some i => cut i
    | None => (url, "")
    end.

Definition urlparse (url : string) : result ParseResult :=
  match urlsplit url with
  | Raise e => Raise e
  | Ok r =>
      let '(p, prm) :=
        if mem (s_scheme r) uses_params && contains ";" (s_path r)
        then splitparams (s_path r)
        else (s_path r, "") in
      Ok (mkParse (s_scheme r) (s_netloc r) p prm (s_query r) (s_fragment r))
  end.
End Split.

Definition urlunsplit (sch nl url qs frag : string) : string :=
  let url :=
    if truthy nl
       || (truthy sch && mem sch uses_netloc && negb (String.eqb (take 2 url) "//"))
    then
      let url := if truthy url && negb (String.eqb (take 1 url) "/")
                 then "/" +:+ url else url in
      "//" +:+ nl +:+ url
    else url in
  let url := if truthy sch then sch +:+ ":" +:+ url else url in
  let url := if truthy qs then url +:+ "?" +:+ qs else url in
  if truthy frag then url +:+ "#" +:+ frag else url.

Definition urlunparse (sch nl url prm qs frag : string) : string :=
  let url := if truthy prm then url +:+ ";" +:+ prm else url in
  urlunsplit sch nl url qs frag.

(** *** Percent-encoding *)

Definition hex_val (c : ascii) : option N :=
  let n := code c in
  if is_digit c then Some (n - 48)%N
  else if ((97 <=? n) && (n <=? 102))%N then Some (n - 87)%N
  else if ((65 <=? n) && (n <=? 70))%N then Some (n - 55)%N
  else None.

(** [unquote]: every [%XY] with two hexadecimal digits becomes the byte
    [0xXY]; any other [%] stays. *)
Fixpoint unquote (s : string) : string :=
  match s with
  | EmptyString => EmptyString
  | String c t =>
      let keep := String c (unquote t) in
      if Ascii.eqb c "%" then
        match t with
        | String a (String b r) =>
            match hex_val a, hex_val b with
            | Some x, Some y => String (ascii_of_N (16 * x + y)) (unquote r)
            | _, _ => keep
            end
        | _ => keep
        end
      else keep
  end.

Definition hex_digit (n : N) : ascii :=
  if (n <? 10)%N then ascii_of_N (48 + n) else ascii_of_N (55 + n).

(** [_ALWAYS_SAFE] *)
Definition always_safe (c : ascii) : bool :=
  is_alpha c || is_digit c || contains c "_.-~".

(** [quote(s, safe)] *)
Fixpoint quote (safe : string) (s : string) : string :=
  match s with
  | EmptyString => EmptyString
  | String c r =>
      if always_safe c || contains c safe then String c (quote safe r)
      else String "%" (String (hex_digit (code c / 16))
             (String (hex_digit (code c mod 16)) (quote safe r)))
  end.

(** [quote_plus(s)] *)
Definition quote_plus (s : string) : string :=
  if contains " " s then replace " " "+" (quote " " s) else quote "" s.

(** [urlencode] of a list of pairs of strings *)
Definition urlencode (l : list (string * string)) : string :=
  join "&" (map (fun kv => quote_plus (fst kv) +:+ "=" +:+ quote_plus (snd kv)) l).

(** [parse_qsl(qs)] with [keep_blank_values=False] *)
Definition parse_qsl (qs : string) : list (string * string) :=
  let query_args := if truthy qs then split "&" qs else [] in
  flat_map
    (fun name_value =>
       if negb (truthy name_value) then []
       else match split_once "=" name_value with
            | (_, None) => []
            | (n, Some v) =>
                if truthy v
                then [(unquote (replace "+" " " n), unquote (replace "+" " " v))]
                else []
            end)
    query_args.

(** A [dict] from names to lists of values, in insertion order. *)
Fixpoint dict_append (name value : string) (d : list (string * list string))
  : list (string * list string) :=
  match d with
  | [] => [(name, [value])]
  | (k, vs) :: d' =>
      if String.eqb k name then (k, (vs ++ [value])%list) :: d'
      else (k, vs) :: dict_append name value d'
  end.

(** [parse_qs(qs, keep_blank_values=False)] *)
Definition parse_qs (qs : string) : list (string * list string) :=
  fold_left (fun d nv => dict_append (fst nv) (snd nv) d) (parse_qsl qs) [].

End Urllib.

(** ** [hashlib.sha1] *)

Module Sha1.

Definition mask32 (x : Z) : Z := Z.land x 0xffffffff.

Definition rotl (n x : Z) : Z :=
  mask32 (Z.lor (Z.shiftl x n) (Z.shiftr x (32 - n))).

Definition bytes_of (s : string) : list Z :=
  map (fun c => Z.of_N (N_of_ascii c)) (list_ascii_of_string s).

(** big-endian bytes of [x], [n] of them *)
Fixpoint be_bytes (n : nat) (x : Z) : list Z :=
  match n with
  | O => []
  | S n' => (be_bytes n' (Z.shiftr x 8) ++ [Z.land x 255])%list
  end.

(** The message, a [0x80] byte, zeros up to 56 modulo 64, and the bit
    length on eight bytes. *)
Definition pad (msg : list Z) : list Z :=
  let len := Z.of_nat (length msg) in
  let zeros := Z.to_nat ((55 - len) mod 64) in
  (msg ++ [128] ++ repeat 0 zeros ++ be_bytes 8 (8 * len))%list.

Fixpoint words (bs : list Z) : list Z :=
  match bs with
  | a :: b :: c :: d :: r =>
      (Z.shiftl a 24 + Z.shiftl b 16 + Z.shiftl c 8 + d) :: words r
  | _ => []
  end.

(** The message schedule, newest word first. *)
Fixpoint extend (n : nat) (rw : list Z) : list Z :=
  match n with
  | O => rw
  | S n' =>
      let w := rotl 1 (Z.lxor (Z.lxor (nth 2 rw 0) (nth 7 rw 0))
                              (Z.lxor (nth 13 rw 0) (nth 15 rw 0))) in
      extend n' (w :: rw)
  end.

Definition schedule (block : list Z) : list Z :=
  rev (extend 64 (rev block)).

Record state : Type := mkState { ha : Z; hb : Z; hc : Z; hd : Z; he : Z }.

Definition init : state :=
  mkState 0x67452301 0xefcdab89 0x98badcfe 0x10325476 0xc3d2e1f0.

Definition round (i : Z) (w : Z) (s : state) : state :=
  let '(mkState a b c d e) := s in
  let '(f, k) :=
    if i <? 20 then
      (Z.lor (Z.land b c) (Z.land (Z.lxor b 0xffffffff) d), 0x5a827999)
    else if i <? 40 then (Z.lxor (Z.lxor b c) d, 0x6ed9eba1)
    else if i <? 60 then
      (Z.lor (Z.lor (Z.land b c) (Z.land b d)) (Z.land c d), 0x8f1bbcdc)
    else (Z.lxor (Z.lxor b c) d, 0xca62c1d6) in
  mkState (mask32 (rotl 5 a + f + e + k + w)) a (rotl 30 b) c d.

Fixpoint rounds (i : Z) (ws : list Z) (s : state) : state :=
  match ws with
  | [] => s
  | w :: ws' => rounds (i + 1) ws' (round i w s)
  end.

Definition compress (h : state) (block : list Z) : state :=
  let s := rounds 0 (schedule block) h in
  mkState (mask32 (ha h + ha s)) (mask32 (hb h + hb s)) (mask32 (hc h + hc s))
          (mask32 (hd h + hd s)) (mask32 (he h + he s)).

Fixpoint blocks (fuel : nat) (ws : list Z) (h : state) : state :=
  match fuel, ws with
  | S fuel', _ :: _ => blocks fuel' (skipn 16 ws) (compress h (firstn 16 ws))
  | _, _ => h
  end.

Definition hex_char (x : Z) : ascii :=
  if x <? 10 then ascii_of_N (Z.to_N (48 + x)) else ascii_of_N (Z.to_N (87 + x)).

Fixpoint hex (n : nat) (x : Z) : string :=
  match n with
  | O => EmptyString
  | S n' => hex n' (Z.shiftr x 4) +:+ String (hex_char (Z.land x 15)) EmptyString
  end.

(** [hashlib.sha1(s.encode()).hexdigest()] *)
Definition hexdigest (s : string) : string :=
  let ws := words (pad (bytes_of s)) in
  let h := blocks (length ws) ws init in
  hex 8 (ha h) +:+ hex 8 (hb h) +:+ hex 8 (hc h) +:+ hex 8 (hd h) +:+ hex 8 (he h).

End Sha1.

(** ** [datetime] *)

Module Datetime.
Import Py.

(** A [datetime]: the reading of its own clock face, in microseconds
    since 1970-01-01T00:00:00 on that face, and its [tzinfo], the offset
    from UTC in microseconds; [None] makes it naive. *)
Record datetime : Type := mkDatetime {
  wall : Z;
  tzinfo : option Z
}.

Definition second_us : Z := 1000000.
Definition day_us : Z := 86400 * second_us.

(** [timedelta(days=n)] and [timedelta(minutes=n)], in microseconds *)
Definition timedelta_days (n : Z) : Z := n * day_us.
Definition timedelta_minutes (n : Z) : Z := n * 60 * second_us.

(** [datetime.now(timezone.utc)] when the clock reads instant [t] *)
Definition now_utc (t : Z) : datetime := mkDatetime t (Some 0).

(** [a - b]: two naive or two aware operands give a [timedelta]; a naive
    and an aware one raise [TypeError]. *)
Definition sub (a b : datetime) : result Z :=
  match tzinfo a, tzinfo b with
  | None, None => Ok (wall a - wall b)
  | Some oa, Some ob => Ok ((wall a - oa) - (wall b - ob))
  | _, _ => Raise TypeError
  end.

(** [d.replace(tzinfo=None)] *)
Definition replace_tzinfo_none (d : datetime) : datetime :=
  mkDatetime (wall d) None.

Section Local.
(** The offset of the system's local time zone at a UTC instant. *)
Variable local_utcoffset : Z -> Z.

(** [d.astimezone(tz=None)]: the same instant on the local clock face;
    a naive [d] is taken to be local time already. *)
Definition astimezone_local (d : datetime) : datetime :=
  match tzinfo d with
  | Some o =>
      let u := wall d - o in
      mkDatetime (u + local_utcoffset u) (Some (local_utcoffset u))
  | None => mkDatetime (wall d) (Some (local_utcoffset (wall d)))
  end.
End Local.

(** *** The proleptic Gregorian calendar *)

(** year, month and day of the day numbered [z] from 1970-01-01 *)
Definition civil_from_days (z : Z) : Z * Z * Z :=
  let z := z + 719468 in
  let era := z / 146097 in
  let doe := z - era * 146097 in
  let yoe := (doe - doe / 1460 + doe / 36524 - doe / 146096) / 365 in
  let doy := doe - (365 * yoe + yoe / 4 - yoe / 100) in
  let mp := (5 * doy + 2) / 153 in
  let d := doy - (153 * mp + 2) / 5 + 1 in
  let m := if mp <? 10 then mp + 3 else mp - 9 in
  let y := yoe + era * 400 in
  (if m <=? 2 then y + 1 else y, m, d).

Definition days_from_civil (y m d : Z) : Z :=
  let y := if m <=? 2 then y - 1 else y in
  let era := y / 400 in
  let yoe := y - era * 400 in
  let doy := (153 * (if 2 <? m then m - 3 else m + 9) + 2) / 5 + d - 1 in
  let doe := yoe * 365 + yoe / 4 - yoe / 100 + doy in
  era * 146097 + doe - 719468.

Definition is_leap (y : Z) : bool :=
  (y mod 4 =? 0) && (negb (y mod 100 =? 0) || (y mod 400 =? 0)).

Definition days_in_month (y m : Z) : Z :=
  if m =? 2 then (if is_leap y then 29 else 28)
  else if (m =? 4) || (m =? 6) || (m =? 9) || (m =? 11) then 30 else 31.

(** *** ISO-8601 text *)

Definition digit_char (x : Z) : ascii := ascii_of_N (Z.to_N (48 + x mod 10)).

(** [x] in decimal on [n] digits, zero-padded *)
Fixpoint dec (n : nat) (x : Z) : string :=
  match n with
  | O => EmptyString
  | S n' => dec n' (x / 10) +:+ String (digit_char x) EmptyString
  end.

Definition offset_text (o : Z) : string :=
  let a := Z.abs o / second_us in
  (if o <? 0 then "-" else "+") +:+ dec 2 (a / 3600) +:+ ":" +:+ dec 2 (a / 60 mod 60)
    +:+ (if a mod 60 =? 0 then "" else ":" +:+ dec 2 (a mod 60)).

(** [d.isoformat()] *)
Definition isoformat (d : datetime) : string :=
  let days := wall d / day_us in
  let r := wall d mod day_us in
  let '(y, m, dd) := civil_from_days days in
  let s := r / second_us in
  let us := r mod second_us in
  dec 4 y +:+ "-" +:+ dec 2 m +:+ "-" +:+ dec 2 dd +:+ "T"
    +:+ dec 2 (s / 3600) +:+ ":" +:+ dec 2 (s / 60 mod 60) +:+ ":" +:+ dec 2 (s mod 60)
    +:+ (if us =? 0 then "" else "." +:+ dec 6 us)
    +:+ match tzinfo d with
        | Some o => offset_text o
        | None => ""
        end.

(** The text the client reads for a [timestamptz] column holding the
    instant [t]. *)
Definition render_ts (t : Z) : string := isoformat (now_utc t).

(** [n] decimal digits at the head of [s] *)
Fixpoint digits (n : nat) (acc : Z) (s : string) : option (Z * string) :=
  match n with
  | O => Some (acc, s)
  | S n' =>
      match s with
      | String c r =>
          if is_digit c then digits n' (10 * acc + (Z.of_N (code c) - 48)) r
          else None
      | EmptyString => None
      end
  end.

Definition expect (c : ascii) (s : string) : option string :=
  match s with
  | String d r => if Ascii.eqb c d then Some r else None
  | EmptyString => None
  end.

(** the UTC offset at the end of a time: nothing, or [+HH:MM], [-HH:MM] *)
Definition parse_offset (s : string) : option (option Z) :=
  match s with
  | EmptyString => Some None
  | String sg r =>
      if Ascii.eqb sg "+" || Ascii.eqb sg "-" then
        match digits 2 0 r with
        | Some (h, r1) =>
            match expect ":" r1 with
            | Some r2 =>
                match digits 2 0 r2 with
                | Some (mi, EmptyString) =>
                    if (h <? 24) && (mi <? 60) then
                      let o := (h * 3600 + mi * 60) * second_us in
                      Some (Some (if Ascii.eqb sg "-" then - o else o))
                    else None
                | _ => None
                end
            | None => None
            end
        | None => None
        end
      else None
  end.

(** A parser for [YYYY-MM-DD], optionally followed by one separator
    character, [HH:MM:SS], a fraction of six digits and a UTC offset: the
    texts [isoformat] writes.  [None] stands for [ValueError]. *)
Definition fromisoformat_basic (s : string) : option datetime :=
  match digits 4 0 s with
  | Some (y, r) =>
    match expect "-" r with
    | Some r =>
      match digits 2 0 r with
      | Some (m, r) =>
        match expect "-" r with
        | Some r =>
          match digits 2 0 r with
          | Some (d, r) =>
            if (1 <=? y) && (1 <=? m) && (m <=? 12) && (1 <=? d)
               && (d <=? days_in_month y m) then
              let date := days_from_civil y m d * day_us in
              match r with
              | EmptyString => Some (mkDatetime date None)
              | String _ r =>
                match digits 2 0 r with
                | Some (hh, r) =>
                  match expect ":" r with
                  | Some r =>
                    match digits 2 0 r with
                    | Some (mi, r) =>
                      match expect ":" r with
                      | Some r =>
                        match digits 2 0 r with
                        | Some (ss, r) =>
                          let '(us, r) :=
                            match expect "." r with
                            | Some r' =>
                                match digits 6 0 r' with
                                | Some (f, r'') => (f, r'')
                                | None => (0, r)
                                end
                            | None => (0, r)
                            end in
                          if (hh <? 24) && (mi <? 60) && (ss <? 60) then
                            match parse_offset r with
                            | Some tz =>
                                Some (mkDatetime
                                  (date + (hh * 3600 + mi * 60 + ss) * second_us + us) tz)
                            | None => None
                            end
                          else None
                        | None => None
                        end
                      | None => None
                      end
                    | None => None
                    end
                  | None => None
                  end
                | None => None
                end
              end
            else None
          | None => None
          end
        | None => None
        end
      | None => None
      end
    | None => None
    end
  | None => None
  end.

End Datetime.

(** ** The runner: URL normaliser and identity resolver *)

Import Py.

(** A raw record, the [dict] a search result is: the keys the runner
    reads.  A string field that is absent reads as the empty string, which
    is what [item.get(key, "")] gives. *)
Inductive url_field : Type :=
| UAbsent
| UList (l : list string)
| UStr (s : string).

Record item : Type := mkItem {
  i_link : string;
  i_title : string;
  i_snippet : string;
  i_company : string;
  i_product : string;
  i_name : string;
  i_canonical_name : string;
  i_one_liner : string;
  i_summary : string;
  i_excerpt : string;
  i_sources : url_field;
  i_links : url_field;
  i_evidence_urls : url_field;
  i_related_urls : url_field;
  i_score : option Z
}.

Definition tracking_params : list string :=
  ["ref"; "ref_src"; "fbclid"; "gclid"; "igshid";
   "mc_cid"; "mc_eid"; "spm"; "source"; "mkt_tok"].

Definition EVIDENCE_URLS_MAX : nat := 20.

(** [re.sub(pattern, '', s)] for a pattern that can only match up to the
    end of [s]: [s] is cut at the leftmost position where [m] accepts the
    rest. *)
Fixpoint re_sub_tail (m : string -> bool) (s : string) : string :=
  if m s then EmptyString
  else match s with
       | EmptyString => EmptyString
       | String c r => String c (re_sub_tail m r)
       end.

(** the text after a leading [-], en dash or em dash *)
Definition after_dash (s : string) : option string :=
  if String.prefix "-" s then Some (drop 1 s)
  else if String.prefix "–" s then Some (drop 3 s)
  else if String.prefix "—" s then Some (drop 3 s)
  else None.

(** [\s*[-–—]\s*[^|]+$] anchored at the head of [s] *)
Definition dash_suffix (s : string) : bool :=
  match after_dash (lstrip_by is_space s) with
  | Some r => truthy r && negb (contains "|" r)
  | None => false
  end.

(** [\s*\|\s*[^|]+$] anchored at the head of [s] *)
Definition pipe_suffix (s : string) : bool :=
  match lstrip_by is_space s with
  | String c r => Ascii.eqb c "|" && truthy r && negb (contains "|" r)
  | EmptyString => false
  end.

(** [\s*::\s*[^:]+$] anchored at the head of [s] *)
Definition colons_suffix (s : string) : bool :=
  match lstrip_by is_space s with
  | String c (String c' r) =>
      Ascii.eqb c ":" && Ascii.eqb c' ":" && truthy r && negb (contains ":" r)
  | _ => false
  end.

Definition clean_canonical_name (title : string) : string :=
  if negb (truthy title) then ""
  else
    let cleaned := title in
    let cleaned := re_sub_tail dash_suffix cleaned in
    let cleaned := re_sub_tail pipe_suffix cleaned in
    let cleaned := re_sub_tail colons_suffix cleaned in
    let cleaned := strip cleaned in
    if truthy cleaned then cleaned else title.

(** the first value of [values] that is not blank, stripped *)
Fixpoint first_field (values : list string) : option string :=
  match values with
  | [] => None
  | v :: vs => let value := strip v in
               if truthy value then Some value else first_field vs
  end.

Definition generate_canonical_name (it : item) (title hostname : string) : string :=
  match first_field [i_company it; i_product it; i_name it; i_canonical_name it] with
  | Some value => value
  | None =>
      let cleaned := if truthy title then clean_canonical_name title else "" in
      if truthy title && truthy cleaned then cleaned
      else if truthy hostname then hostname
      else or_else title "(untitled)"
  end.

(** the sentence enders [generate_one_liner] looks for *)
Definition punctuation : list string :=
  ["."; "。"; "!"; "！"; "?"; "？"; ";"; "；"].

(** the cut at the first [punct] of the list whose last occurrence in
    [truncated] lies after position 80 *)
Fixpoint cut_at_punct (puncts : list string) (truncated : string) : option string :=
  match puncts with
  | [] => None
  | punct :: rest =>
      match rfind punct truncated with
      | Some last_punct =>
          if (80 <? last_punct)%nat
          then Some (take (last_punct + String.length punct) truncated)
          else cut_at_punct rest truncated
      | None => cut_at_punct rest truncated
      end
  end.

Definition generate_one_liner (it : item) (description title : string) : string :=
  match first_field [i_one_liner it; i_summary it; i_excerpt it] with
  | Some value =>
      if (120 <? String.length value)%nat then take 117 value +:+ "..." else value
  | None =>
      if truthy description then
        let cleaned := join " " (split_ws description) in
        if (120 <? String.length cleaned)%nat then
          let truncated := take 120 cleaned in
          match cut_at_punct punctuation truncated with
          | Some cut => cut
          | None => take 117 truncated +:+ "..."
          end
        else cleaned
      else if truthy title then
        let cleaned := join " " (split_ws title) in
        if (120 <? String.length cleaned)%nat then take 117 cleaned +:+ "..." else cleaned
      else "无描述"
  end.

Section Normalizer.
(** See [Urllib.urlsplit]. *)
Variable bracketed_netloc_ok : string -> bool.

Definition normalize_url (u : string) : string :=
  if negb (truthy u) then ""
  else
    let u := strip u in
    if negb (truthy u) then ""
    else
      let u := if startswith u "http://" || startswith u "https://"
               then u else "https://" +:+ u in
      match Urllib.urlparse bracketed_netloc_ok u with
      | Raise _ => strip u
      | Ok parsed =>
          let scheme := "https" in
          let netloc := lower (Urllib.netloc parsed) in
          let netloc := if startswith netloc "www." then drop 4 netloc else netloc in
          let path := Urllib.path parsed in
          let path := if negb (String.eqb path "/") && endswith path "/"
                      then take (String.length path - 1) path else path in
          let query_dict := Urllib.parse_qs (Urllib.query parsed) in
          let filtered_query :=
            fold_left
              (fun acc kv =>
                 let key := fst kv in
                 if startswith key "utm_" then acc
                 else if mem (lower key) (map lower tracking_params) then acc
                 else dict_set key (hd "" (snd kv)) acc)
              query_dict [] in
          let query :=
            match filtered_query with
            | [] => ""
            | _ :: _ => Urllib.urlencode (sorted filtered_query)
            end in
          Urllib.urlunparse scheme netloc path (Urllib.params parsed) query ""
      end.

Definition get_hostname (url : string) : string :=
  match Urllib.urlparse bracketed_netloc_ok url with
  | Ok parsed => or_else (Urllib.netloc parsed) ""
  | Raise _ => ""
  end.

(** one step of the accumulation in [generate_evidence_urls] *)
Definition add_evidence (acc : list string * gset string) (u : string)
  : list string * gset string :=
  let '(urls_list, seen) := acc in
  let normalized := normalize_url u in
  if truthy normalized && negb (bool_decide (normalized ∈ seen))
  then ((urls_list ++ [normalized])%list, {[normalized]} ∪ seen)
  else acc.

Definition add_field (acc : list string * gset string) (value : url_field)
  : list string * gset string :=
  match value with
  | UAbsent => acc
  | UList l => fold_left (fun a u => if truthy u then add_evidence a u else a) l acc
  | UStr s =>
      fold_left
        (fun a u => let u := strip u in if truthy u then add_evidence a u else a)
        (split_by (fun c => Ascii.eqb c "," || Ascii.eqb c ";") s) acc
  end.

Definition generate_evidence_urls (it : item) (url : string) : result (list string) :=
  let acc : list string * gset string := ([], ∅) in
  let acc := if truthy url then add_evidence acc url else acc in
  let acc :=
    fold_left add_field
      [i_sources it; i_links it; i_evidence_urls it; i_related_urls it] acc in
  let urls_list := fst acc in
  if (0 <? length urls_list)%nat then Ok urls_list else Raise AssertionError.

Definition compute_dedupe_key (url hostname canonical_name title : string) : string :=
  let normalized_url := normalize_url url in
  if truthy normalized_url then "url:" +:+ Sha1.hexdigest normalized_url
  else
    let key_str := strip (lower (hostname +:+ "|" +:+ or_else canonical_name title)) in
    "ht:" +:+ Sha1.hexdigest key_str.

End Normalizer.

(** ** The [deals] table *)

(** A row.  [dedupe_key] carries the table's uniqueness constraint and is
    the key of the map below; [None] is SQL [NULL]. *)
Record deal : Type := mkDeal {
  d_id : Z;
  d_title : string;
  d_url : string;
  d_description : string;
  d_canonical_name : string;
  d_one_liner : string;
  d_evidence_urls : option (list string);
  d_topic : string;
  d_hostname : string;
  d_status : string;
  d_seen_count : option Z;
  d_first_seen_at : option Z;
  d_last_seen_at : option Z;
  d_dismissed_reason : option string;
  d_dismissed_at : option Z;
  d_score : option Z;
  d_created_at : option Z;
  d_updated_at : option Z
}.

(** The store behind the client: the table, the next generated [id], and
    the outcome of the store calls to come, in order: [true] makes the call
    raise, and a call finding the list empty succeeds. *)
Record client : Type := mkClient {
  deals : gmap string deal;
  next_id : Z;
  faults : list bool
}.

(** One store call is consumed: whether it raises, and the client after. *)
Definition call (c : client) : bool * client :=
  match faults c with
  | [] => (false, c)
  | f :: fs => (f, mkClient (deals c) (next_id c) fs)
  end.

(** The JSON body of an upsert: a column that is [None] here is a key
    absent from [data]. *)
Record payload : Type := mkPayload {
  p_dedupe_key : string;
  p_title : string;
  p_url : string;
  p_description : string;
  p_canonical_name : string;
  p_one_liner : string;
  p_evidence_urls : list string;
  p_topic : string;
  p_hostname : string;
  p_last_seen_at : Z;
  p_seen_count : Z;
  p_updated_at : Z;
  p_created_at : option Z;
  p_first_seen_at : option Z;
  p_status : option string;
  p_dismissed_reason : option (option string);
  p_dismissed_at : option (option Z);
  p_score : option (option Z)
}.

(** the row an insert starts from: the column defaults, of which the
    runner relies on [status] being ['new'] (line 575) *)
Definition default_row (new_id : Z) : deal :=
  mkDeal new_id "" "" "" "" "" None "" "" "new" None None None None None None None None.

(** the columns named in [data] overwrite the row, the others stay *)
Definition overlay (data : payload) (row : deal) : deal :=
  mkDeal (d_id row)
    (p_title data) (p_url data) (p_description data)
    (p_canonical_name data) (p_one_liner data)
    (Some (p_evidence_urls data))
    (p_topic data) (p_hostname data)
    (default (d_status row) (p_status data))
    (Some (p_seen_count data))
    (match p_first_seen_at data with Some t => Some t | None => d_first_seen_at row end)
    (Some (p_last_seen_at data))
    (default (d_dismissed_reason row) (p_dismissed_reason data))
    (default (d_dismissed_at row) (p_dismissed_at data))
    (default (d_score row) (p_score data))
    (match p_created_at data with Some t => Some t | None => d_created_at row end)
    (Some (p_updated_at data)).

(** [client.table("deals").select(...).eq("dedupe_key", k).limit(1).execute()] *)
Definition select_by_key (c : client) (k : string) : client * result (option deal) :=
  let '(raises, c) := call c in
  if raises then (c, Raise StoreError) else (c, Ok (deals c !! k)).

(** [client.table("deals").upsert(data, on_conflict="dedupe_key").execute()] *)
Definition upsert (c : client) (data : payload) : client * result unit :=
  let '(raises, c) := call c in
  if raises then (c, Raise StoreError)
  else
    let k := p_dedupe_key data in
    match deals c !! k with
    | Some row =>
        (mkClient (<[k := overlay data row]> (deals c)) (next_id c) (faults c), Ok tt)
    | None =>
        (mkClient (<[k := overlay data (default_row (next_id c))]> (deals c))
                  (next_id c + 1) (faults c), Ok tt)
    end.

(** [client.table("deals").update({...}).eq("id", deal_id).execute()] with
    the body of [reactivate_dismissed_deals] *)
Definition reactivated_row (now : Z) (row : deal) : deal :=
  mkDeal (d_id row) (d_title row) (d_url row) (d_description row)
    (d_canonical_name row) (d_one_liner row) (d_evidence_urls row)
    (d_topic row) (d_hostname row) "new" (d_seen_count row)
    (d_first_seen_at row) (d_last_seen_at row) None None (d_score row)
    (d_created_at row) (Some now).

Definition update_reactivate (now : Z) (c : client) (deal_id : Z) : client * result unit :=
  let '(raises, c) := call c in
  if raises then (c, Raise StoreError)
  else
    (mkClient
       ((fun row => if d_id row =? deal_id then reactivated_row now row else row) <$> deals c)
       (next_id c) (faults c), Ok tt).

(** ** The dedup/upsert engine *)

Record stats : Type := mkStats {
  processed : Z;
  reactivated : Z;
  errors : Z
}.

(** lines 473-478: the old URLs, then the new ones not seen yet *)
Definition merge_step (acc : list string * gset string) (u : string)
  : list string * gset string :=
  let '(merged_evidence_urls, seen) := acc in
  if bool_decide (u ∈ seen) then acc
  else ((merged_evidence_urls ++ [u])%list, {[u]} ∪ seen).

Definition merge_evidence_urls (existing_evidence_urls new_evidence_urls : list string)
  : list string :=
  fst (fold_left merge_step new_evidence_urls
         (existing_evidence_urls, list_to_set existing_evidence_urls)).

(** [l[-n:]] for [n > 0] *)
Definition last_n {A : Type} (n : nat) (l : list A) : list A :=
  skipn (length l - n) l.

Section Engine.
Variable bracketed_netloc_ok : string -> bool.
(** [datetime.fromisoformat]; [None] stands for [ValueError]. *)
Variable fromisoformat : string -> option Datetime.datetime.
(** See [Datetime.astimezone_local]. *)
Variable local_utcoffset : Z -> Z.

(** lines 514-551, for a row whose status is [dismissed]: whether rule B
    revives it.  [now] is the aware [datetime.now(timezone.utc)]. *)
Definition auto_reactivate (now : Datetime.datetime) (dismissed_at : option Z) : bool :=
  let dismissed_at_str := default "" (Datetime.render_ts <$> dismissed_at) in
  if truthy dismissed_at_str then
    let dismissed_at_str_clean := replace "Z" "+00:00" dismissed_at_str in
    match fromisoformat dismissed_at_str_clean with
    | None => false
    | Some dismissed_at_dt =>
        let dismissed_at_utc :=
          match Datetime.tzinfo dismissed_at_dt with
          | Some _ =>
              Datetime.replace_tzinfo_none
                (Datetime.astimezone_local local_utcoffset dismissed_at_dt)
          | None => dismissed_at_dt
          end in
        match Datetime.sub now dismissed_at_utc with
        | Ok time_diff => time_diff <=? Datetime.timedelta_days 7
        | Raise _ => false
        end
    end
  else true.

(** lines 465-488: the evidence URLs to persist *)
Definition merged_evidence (existing_deal : option deal)
    (new_evidence_urls : list string) : list string :=
  match existing_deal with
  | Some row =>
      let existing_evidence_urls := default [] (d_evidence_urls row) in
      let merged_evidence_urls :=
        merge_evidence_urls existing_evidence_urls new_evidence_urls in
      if (EVIDENCE_URLS_MAX <? length merged_evidence_urls)%nat
      then last_n EVIDENCE_URLS_MAX merged_evidence_urls
      else merged_evidence_urls
  | None => firstn EVIDENCE_URLS_MAX new_evidence_urls
  end.

(** lines 491-496; [x or 0] is [x] for a number and 0 for [None] *)
Definition next_seen_count (existing_deal : option deal) : Z :=
  match existing_deal with
  | Some row => default 0 (d_seen_count row) + 1
  | None => 1
  end.

(** lines 500-551: [Some "new"] when rule B revives the deal, [None]
    when the status is not to be written *)
Definition decide_status (now : Z) (existing_deal : option deal) : option string :=
  match existing_deal with
  | Some row =>
      if String.eqb (d_status row) "shortlisted" then None
      else if String.eqb (d_status row) "dismissed" then
        if auto_reactivate (Datetime.now_utc now) (d_dismissed_at row)
        then Some "new" else None
      else None
  | None => None
  end.

(** lines 556-595: the body of the upsert *)
Definition build_data (now : Z) (topic_name : string) (it : item)
    (dedupe_key hostname canonical_name one_liner normalized_url : string)
    (new_evidence_urls : list string) (existing_deal : option deal)
    (status : option string) : payload :=
  let is_new := match existing_deal with Some _ => false | None => true end in
  let shortlisted :=
    match existing_deal with
    | Some row => String.eqb (d_status row) "shortlisted"
    | None => false
    end in
  let written_status := if shortlisted then None else status in
  mkPayload dedupe_key (i_title it) normalized_url (i_snippet it) canonical_name
    one_liner (merged_evidence existing_deal new_evidence_urls) topic_name hostname
    now (next_seen_count existing_deal) now
    (if is_new then Some now else None)
    (if is_new then Some now else None)
    written_status
    (match written_status with Some _ => Some None | None => None end)
    (match written_status with Some _ => Some None | None => None end)
    (Some <$> i_score it).

(** What one turn of the loop of [upsert_deals] leaves behind: the
    client, the counters, and the exception that left the loop, if any. *)
Definition upsert_deal (now : Z) (topic_name : string)
    (st : client * stats) (it : item) : client * stats * option exn :=
  let '(c, n) := st in
  let url := i_link it in
  let title := i_title it in
  if negb (truthy url) || negb (truthy title) then (c, n, None)
  else
    let hostname := get_hostname bracketed_netloc_ok url in
    let description := i_snippet it in
    let canonical_name := generate_canonical_name it title hostname in
    let one_liner := generate_one_liner it description title in
    match generate_evidence_urls bracketed_netloc_ok it url with
    | Raise e => (c, n, Some e)
    | Ok new_evidence_urls =>
      let normalized_url := normalize_url bracketed_netloc_ok url in
      let dedupe_key :=
        compute_dedupe_key bracketed_netloc_ok url hostname canonical_name title in
      if negb (truthy canonical_name && truthy (strip canonical_name))
      then (c, n, Some AssertionError)
      else if negb (truthy one_liner && truthy (strip one_liner))
      then (c, n, Some AssertionError)
      else if negb (0 <? length new_evidence_urls)%nat
      then (c, n, Some AssertionError)
      else
        match select_by_key c dedupe_key with
        | (c, Raise _) =>
            (c, mkStats (processed n) (reactivated n) (errors n + 1), None)
        | (c, Ok existing_deal) =>
          if match existing_deal with
             | Some row => String.eqb (d_status row) "archived"
             | None => false
             end
          then (c, n, None)
          else
            let status := decide_status now existing_deal in
            let n :=
              match status with
              | Some _ => mkStats (processed n) (reactivated n + 1) (errors n)
              | None => n
              end in
            let data :=
              build_data now topic_name it dedupe_key hostname canonical_name
                one_liner normalized_url new_evidence_urls existing_deal status in
            match upsert c data with
            | (c, Ok _) =>
                (c, mkStats (processed n + 1) (reactivated n) (errors n), None)
            | (c, Raise _) => (c, n, None)
            end
        end
    end.

(** the [for item in items] loop: an exception ends it *)
Fixpoint upsert_loop (now : Z) (topic_name : string) (st : client * stats)
    (items : list item) : client * result stats :=
  match items with
  | [] => (fst st, Ok (snd st))
  | it :: rest =>
      match upsert_deal now topic_name st it with
      | (c, n, None) => upsert_loop now topic_name (c, n) rest
      | (c, _, Some e) => (c, Raise e)
      end
  end.

(** [upsert_deals(client, items, topic_name)] when the clock reads [now];
    [None] is a client that could not be created. *)
Definition upsert_deals (now : Z) (cl : option client) (items : list item)
    (topic_name : string) : option client * result stats :=
  match cl with
  | None => (None, Ok (mkStats 0 0 0))
  | Some c =>
      let '(c, r) := upsert_loop now topic_name (c, mkStats 0 0 0) items in
      (Some c, r)
  end.

(** [reactivate_dismissed_deals(client)] when the clock reads [now]: the
    client after, and the number of rows revived. *)
Definition reactivate_dismissed_deals (now : Z) (cl : option client)
  : option client * Z :=
  match cl with
  | None => (None, 0)
  | Some c =>
      let '(raises, c) := call c in
      if raises then (Some c, 0)
      else
        let threshold := now - Datetime.timedelta_days 7 in
        let deal_ids :=
          d_id <$>
            filter
              (fun row =>
                 String.eqb (d_status row) "dismissed"
                 && match d_last_seen_at row with
                    | Some t => threshold <=? t
                    | None => false
                    end)
              (map_to_list (deals c)).*2 in
        let '(c, updated_count) :=
          fold_left
            (fun st deal_id =>
               match update_reactivate now (fst st) deal_id with
               | (c, Ok _) => (c, snd st + 1)
               | (c, Raise _) => (c, snd st)
               end)
            deal_ids (c, 0) in
        (Some c, updated_count)
  end.

End Engine.

(** ** The health checker *)

Record health : Type := mkHealth {
  evidence_over_20 : Z;
  seen_count_null : Z;
  latest_last_seen_at : option string;
  archived_updated_last_2h : Z
}.

(** lines 710-724: one row of the statistics loop *)
Definition health_row (acc : Z * Z * option string) (row : deal) : Z * Z * option string :=
  let '(over, nulls, latest) := acc in
  let over :=
    match d_evidence_urls row with
    | Some l => if (20 <? length l)%nat then over + 1 else over
    | None => over
    end in
  let nulls := match d_seen_count row with None => nulls + 1 | Some _ => nulls end in
  let latest :=
    match Datetime.render_ts <$> d_last_seen_at row with
    | Some last_seen =>
        if truthy last_seen then
          match latest with
          | None => Some last_seen
          | Some l => if ltb l last_seen then Some last_seen else latest
          end
        else latest
    | None => latest
    end in
  (over, nulls, latest).

(** [health_check_deals(client, run_started_at)] when the clock reads
    [now] *)
Definition health_check_deals (now : Z) (cl : option client) (run_started_at : option Z)
  : option client * health :=
  match cl with
  | None => (None, mkHealth 0 0 None 0)
  | Some c =>
      let '(raises, c) := call c in
      if raises then (Some c, mkHealth 0 0 None 0)
      else
        let '(over, nulls, latest) :=
          fold_left health_row (map_to_list (deals c)).*2 (0, 0, None) in
        let threshold_time :=
          match run_started_at with
          | Some t => t
          | None => now - Datetime.timedelta_minutes 60
          end in
        let '(raises, c) := call c in
        let archived :=
          if raises then 0
          else
            Z.of_nat (length (filter
              (fun row =>
                 String.eqb (d_status row) "archived"
                 && match d_last_seen_at row with
                    | Some t => threshold_time <? t
                    | None => false
                    end)
              (map_to_list (deals c)).*2)) in
        (Some c, mkHealth over nulls latest archived)
  end.

(** ** The job *)

(** What a run meets outside the [deals] table: whether the configuration
    loads, the search results of each query with their topic and the clock
    at their upsert, the fate of the weekly report ([None]: nothing to
    save), and the clock at the start, at the reactivation pass and at the
    health check. *)
Record run : Type := mkRun {
  config_loads : bool;
  searches : list (string * list item * Z);
  report_saved : option bool;
  start_time : Z;
  reactivate_time : Z;
  health_time : Z
}.

Section Job.
Variable bracketed_netloc_ok : string -> bool.
Variable fromisoformat : string -> option Datetime.datetime.
Variable local_utcoffset : Z -> Z.

(** the loop over topics and queries (lines 908-954), as far as the
    [deals] table goes: [upsert_radar_items] writes another table *)
Fixpoint ingest (cl : option client) (batches : list (string * list item * Z))
  : option client * result unit :=
  match batches with
  | [] => (cl, Ok tt)
  | (topic_name, results, now) :: rest =>
      match results with
      | [] => ingest cl rest
      | _ :: _ =>
          match upsert_deals bracketed_netloc_ok fromisoformat local_utcoffset
                  now cl results topic_name with
          | (cl, Ok _) => ingest cl rest
          | (cl, Raise e) => (cl, Raise e)
          end
      end
  end.

(** lines 991-1017: the health check and the exit code it decides *)
Definition health_exit (now : Z) (cl : option client) (started : Z)
  : option client * Z :=
  let '(cl, health_result) := health_check_deals now cl (Some started) in
  let archived_updated_count := archived_updated_last_2h health_result in
  if 0 <? archived_updated_count then (cl, 1) else (cl, 0).

(** [main()]: the client at the end and the exit code, or the exception
    that ended the job. *)
Definition main (env : run) (cl : option client) : option client * result Z :=
  if negb (config_loads env) then (cl, Ok 1)
  else
    match cl with
    | None => (cl, Ok 1)
    | Some _ =>
        match ingest cl (searches env) with
        | (cl, Raise e) => (cl, Raise e)
        | (cl, Ok _) =>
            match report_saved env with
            | Some false => (cl, Ok 1)
            | _ =>
                let '(cl, _) :=
                  reactivate_dismissed_deals (reactivate_time env) cl in
                let '(cl, code) := health_exit (health_time env) cl (start_time env) in
                (cl, Ok code)
            end
        end
    end.

End Job.

(** ** Vocabulary of the properties *)

(** the key [upsert_deals] computes for a record (lines 417-434) *)
Definition item_dedupe_key (bracketed_netloc_ok : string -> bool) (it : item) : string :=
  let url := i_link it in
  let title := i_title it in
  let hostname := get_hostname bracketed_netloc_ok url in
  compute_dedupe_key bracketed_netloc_ok url hostname
    (generate_canonical_name it title hostname) title.

(** A record that reaches the store: it gets past the guard of line 419
    and the assertions of lines 297 and 437-439. *)
Definition accepted (bracketed_netloc_ok : string -> bool) (it : item) : Prop :=
  i_link it <> ""
  /\ i_title it <> ""
  /\ (exists evs, generate_evidence_urls bracketed_netloc_ok it (i_link it) = Ok evs)
  /\ strip (generate_canonical_name it (i_title it)
              (get_hostname bracketed_netloc_ok (i_link it))) <> ""
  /\ strip (generate_one_liner it (i_snippet it) (i_title it)) <> "".

(** the invariant of the accumulation loops: [seen] is the set of the
    URLs listed so far, none of them twice *)
Definition tracks (acc : list string * gset string) : Prop :=
  NoDup acc.1 /\ forall x, x ∈ acc.2 <-> x ∈ acc.1.

(** a text whose first character is no white space *)
Definition headed (s : string) : Prop :=
  match s with
  | EmptyString => False
  | String c _ => is_space c = false
  end.

(** ** Sample data *)

(** an interpreter without the bracketed-host check *)
Definition accept_bracketed (netloc : string) : bool := true.

(** a system whose local time zone is UTC *)
Definition utc_zone (instant : Z) : Z := 0.

(** a search result with a link and a title only *)
Definition record_of (link title : string) : item :=
  mkItem link title "" "" "" "" "" "" "" "" UAbsent UAbsent UAbsent UAbsent None.

(** 2025-01-10T00:00:00Z *)
Definition jan_10 : Z := 1736467200000000.

(** the two sightings of the end-to-end scenario *)
Definition blog_post : item :=
  record_of "https://Example.com/blog/post/?utm_campaign=x" "Foo — TechCrunch".

Definition blog_post_again : item :=
  record_of "https://example.com/blog/post?utm_campaign=y&ref=z" "foo".

Definition blog_post_key : string := "url:886e7add282b880d88c9bab41608c1a3c5946b14".

(** an empty table behind a store that never fails *)
Definition empty_store : client := mkClient ∅ 1 [].

(** the row of [blog_post] as a curator left it, with a status, a
    [dismissed_at] and a [last_seen_at] *)
Definition curated (status : string) (dismissed_at last_seen_at : option Z) : deal :=
  mkDeal 1 "Foo — TechCrunch" "https://example.com/blog/post" "" "Foo"
    "Foo — TechCrunch" (Some ["https://example.com/blog/post"]) "ai" "Example.com"
    status (Some 1) (Some (jan_10 - Datetime.timedelta_days 30)) last_seen_at
    (match dismissed_at with Some _ => Some "not relevant" | None => None end)
    dismissed_at None (Some (jan_10 - Datetime.timedelta_days 30))
    (Some (jan_10 - Datetime.timedelta_days 30)).

(** a table holding [row] under the key of [blog_post] *)
Definition store_with (row : deal) (faults : list bool) : client :=
  mkClient {[ blog_post_key := row ]} 2 faults.

(** twenty distinct evidence URLs, oldest first *)
Definition twenty_urls : list string :=
  map (fun i => "https://example.org/story/" +:+ Datetime.dec 2 (Z.of_nat i)) (seq 0 20).

(** the row of [blog_post] once it has gathered twenty other URLs *)
Definition crowded : deal :=
  mkDeal 1 "Foo — TechCrunch" "https://example.com/blog/post" "" "Foo"
    "Foo — TechCrunch" (Some twenty_urls) "ai" "Example.com" "new" (Some 20)
    (Some (jan_10 - Datetime.timedelta_days 30)) (Some (jan_10 - Datetime.timedelta_days 1))
    None None None (Some (jan_10 - Datetime.timedelta_days 30))
    (Some (jan_10 - Datetime.timedelta_days 1)).

(** a run without search results in which the weekly report is empty *)
Definition quiet_run : run := mkRun true [] None jan_10 (jan_10 + 1) (jan_10 + 2).

(** what a sighting at [now] makes of an existing [row] *)
Definition sighted (now : Z) (row row' : deal) : Prop :=
  d_id row' = d_id row
  /\ d_first_seen_at row' = d_first_seen_at row
  /\ d_created_at row' = d_created_at row
  /\ d_seen_count row' = Some (default 0 (d_seen_count row) + 1)
  /\ d_last_seen_at row' = Some now
  /\ (exists ev, d_evidence_urls row' = Some ev /\ (length ev <= 20)%nat)
  /\ (d_status row' = d_status row \/ d_status row' = "new").

(** the row a first sighting at [now] inserts under the identifier [new_id] *)
Definition first_sighted (now new_id : Z) (row' : deal) : Prop :=
  d_id row' = new_id
  /\ d_status row' = "new"
  /\ d_seen_count row' = Some 1
  /\ d_first_seen_at row' = Some now
  /\ d_last_seen_at row' = Some now
  /\ (exists ev, d_evidence_urls row' = Some ev /\ (length ev <= 20)%nat).

(** a row's evidence is within the bound *)
Definition bounded (row : deal) : Prop :=
  match d_evidence_urls row with
  | Some l => (length l <= 20)%nat
  | None => True
  end.

(** no archived row was seen after the instant [t] *)
Definition quiet (t : Z) (row : deal) : Prop :=
  d_status row = "archived" ->
  match d_last_seen_at row with
  | Some seen => seen <= t
  | None => True
  end.

(** an existing row after more sightings: its identity is kept and its
    counter has not gone down *)
Definition grown (row row' : deal) : Prop :=
  d_id row' = d_id row
  /\ d_first_seen_at row' = d_first_seen_at row
  /\ d_created_at row' = d_created_at row
  /\ default 0 (d_seen_count row) <= default 0 (d_seen_count row').

(** the rows [reactivate_dismissed_deals] selects at the instant [now] *)
Definition selected (now : Z) (row : deal) : bool :=
  String.eqb (d_status row) "dismissed"
  && match d_last_seen_at row with
     | Some t => now - Datetime.timedelta_days 7 <=? t
     | None => false
     end.

(** no two rows of the table share an identifier *)
Definition unique_ids (m : gmap string deal) : Prop :=
  forall k1 k2 row1 row2,
    m !! k1 = Some row1 -> m !! k2 = Some row2 -> d_id row1 = d_id row2 -> k1 = k2.

(** the row the pass leaves for [row] when every update goes through *)
Definition revived (now : Z) (row : deal) : deal :=
  if selected now row then reactivated_row now row else row.

(** identifiers are those the store has handed out, each once *)
Definition well_keyed (c : client) : Prop :=
  unique_ids (deals c)
  /\ map_Forall (fun _ row => d_id row < next_id c) (deals c).

(** a text of white space only, the empty text included *)
Definition blank (s : string) : Prop := strip s = "".

(** a lower-case hexadecimal digit *)
Definition is_hex (c : ascii) : bool :=
  is_digit c || ((97 <=? code c)%N && (code c <=? 102)%N).

(** the invariant of the accumulation: what is listed is not empty, and
    the first entry, once there, stays *)
Definition listed (first : option string) (acc : list string * gset string) : Prop :=
  Forall (fun u => u <> "") acc.1
  /\ match first with Some u => head acc.1 = Some u | None => True end.

(** a row whose sighting count the store holds *)
Definition counted (row : deal) : Prop := d_seen_count row <> None.

(** ** The week of a report *)

(** [datetime.utcnow()] when the clock reads instant [t]: a naive
    [datetime] *)
Definition utcnow (t : Z) : Datetime.datetime := Datetime.mkDatetime t None.

(** [d.weekday()]: Monday is 0, and 1970-01-01 was a Thursday *)
Definition weekday (d : Datetime.datetime) : Z :=
  (Datetime.wall d / Datetime.day_us + 3) mod 7.

(** [d - delta] and [d + delta] for a [timedelta] *)
Definition minus_timedelta (d : Datetime.datetime) (delta : Z) : Datetime.datetime :=
  Datetime.mkDatetime (Datetime.wall d - delta) (Datetime.tzinfo d).

Definition plus_timedelta (d : Datetime.datetime) (delta : Z) : Datetime.datetime :=
  Datetime.mkDatetime (Datetime.wall d + delta) (Datetime.tzinfo d).

(** [d.replace(hour=0, minute=0, second=0, microsecond=0)] *)
Definition replace_midnight (d : Datetime.datetime) : Datetime.datetime :=
  Datetime.mkDatetime (Datetime.wall d - Datetime.wall d mod Datetime.day_us)
    (Datetime.tzinfo d).

(** [get_week_start()] when the clock reads [clock] *)
Definition get_week_start (clock : Z) : Datetime.datetime :=
  let today := utcnow clock in
  let days_since_monday := weekday today in
  let week_start := minus_timedelta today (Datetime.timedelta_days days_since_monday) in
  replace_midnight week_start.

(** lines 776-777 and 783-784: the bounds [generate_weekly_report] asks
    the store to keep [fetched_at] within, both included *)
Definition report_window (clock : Z) : Datetime.datetime * Datetime.datetime :=
  let week_start := get_week_start clock in
  let week_end := plus_timedelta week_start (Datetime.timedelta_days 6) in
  (week_start, week_end).

(** ** Radar items *)

(** A search result as [search_serper] and [upsert_radar_items] read it:
    the record of the keys [upsert_deals] reads, the [source] key ([None]:
    absent or [None]), and the clock when its row is built (line 376). *)
Record hit : Type := mkHit {
  h_item : item;
  h_source : option string;
  h_clock : Z
}.

(** [result.get("source") or "serper"] *)
Definition source_or_serper (source : option string) : string :=
  match source with
  | Some original_source => or_else original_source "serper"
  | None => "serper"
  end.

(** [search_serper]: [api_key] tells whether [SERPER_API_KEY] is set, and
    [response] is what the request gives, an exception or the [organic]
    results. *)
Definition search_serper (api_key : bool) (response : result (list hit)) : list hit :=
  if negb api_key then []
  else
    match response with
    | Ok organic_results =>
        map (fun r => mkHit (h_item r) (Some (source_or_serper (h_source r))) (h_clock r))
          organic_results
    | Raise _ => []
    end.

(** a row of [radar_items], with the columns [upsert_radar_items] writes *)
Record radar_item : Type := mkRadarItem {
  r_url_hash : string;
  r_url : string;
  r_title : string;
  r_snippet : string;
  r_topic : string;
  r_hostname : string;
  r_source : string;
  r_fetched_at : Z
}.

(** the table, whose uniqueness constraint is on [url_hash], and the
    outcome of the store calls to come, as for [client] *)
Record radar_client : Type := mkRadarClient {
  radar_items : gmap string radar_item;
  radar_faults : list bool
}.

(** one store call is consumed: whether it raises, and the client after *)
Definition radar_call (c : radar_client) : bool * radar_client :=
  match radar_faults c with
  | [] => (false, c)
  | f :: fs => (f, mkRadarClient (radar_items c) fs)
  end.

(** [client.table("radar_items").upsert(data, on_conflict="url_hash").execute()] *)
Definition radar_upsert (c : radar_client) (data : radar_item)
  : radar_client * result unit :=
  let '(raises, c) := radar_call c in
  if raises then (c, Raise StoreError)
  else (mkRadarClient (<[r_url_hash data := data]> (radar_items c)) (radar_faults c), Ok tt).

Section Radar.
Variable bracketed_netloc_ok : string -> bool.
(** [hashlib.md5(s.encode()).hexdigest()] *)
Variable md5_hexdigest : string -> string.

Definition get_url_hash (url : string) : string := md5_hexdigest url.

(** one turn of the loop of [upsert_radar_items]: the client, the count
    printed at the end, and the exception that left the loop, if any *)
Definition upsert_radar_item (topic_name : string) (st : radar_client * Z) (h : hit)
  : radar_client * Z * option exn :=
  let '(c, processed_count) := st in
  let url := i_link (h_item h) in
  if negb (truthy url) then (c, processed_count, None)
  else
    let url_hash := get_url_hash url in
    let hostname := get_hostname bracketed_netloc_ok url in
    let source := source_or_serper (h_source h) in
    if negb (truthy source && negb (String.eqb (strip source) ""))
    then (c, processed_count, Some AssertionError)
    else
      let data :=
        mkRadarItem url_hash url (i_title (h_item h)) (i_snippet (h_item h))
          topic_name hostname source (h_clock h) in
      let '(c, _) := radar_upsert c data in
      (c, processed_count + 1, None).

Fixpoint upsert_radar_loop (topic_name : string) (st : radar_client * Z)
    (items : list hit) : radar_client * result Z :=
  match items with
  | [] => (fst st, Ok (snd st))
  | h :: rest =>
      match upsert_radar_item topic_name st h with
      | (c, n, None) => upsert_radar_loop topic_name (c, n) rest
      | (c, _, Some e) => (c, Raise e)
      end
  end.

(** [upsert_radar_items(client, items, topic_name, query)]: the client
    after, and the number of records the last line prints as processed
    ([None]: no client, nothing printed), or the exception raised. *)
Definition upsert_radar_items (cl : option radar_client) (items : list hit)
    (topic_name : string) : option radar_client * result (option Z) :=
  match cl with
  | None => (None, Ok None)
  | Some c =>
      match upsert_radar_loop topic_name (c, 0) items with
      | (c, Ok processed_count) => (Some c, Ok (Some processed_count))
      | (c, Raise e) => (Some c, Raise e)
      end
  end.

End Radar.

(** the links of the results that get past the guard of line 353 *)
Definition linked (items : list hit) : list string :=
  filter (fun url => url <> "") (map (fun h => i_link (h_item h)) items).

(** a result that trips the assertion of line 366 *)
Definition blank_sourced (h : hit) : Prop :=
  i_link (h_item h) <> ""
  /\ exists s, h_source h = Some s /\ s <> "" /\ blank s.

(** ** The weekly report *)

(** [str(n)] for an [int] that is not negative *)
Fixpoint decimal (fuel : nat) (n : Z) : string :=
  match fuel with
  | O => EmptyString
  | S fuel' =>
      (if n <? 10 then EmptyString else decimal fuel' (n / 10))
        +:+ String (Datetime.digit_char n) EmptyString
  end.

Definition str_of_int (n : Z) : string := decimal (S (Z.to_nat (Z.log2 n))) n.

(** [d.strftime('%Y-%m-%d')] and [d.strftime('%Y-%m-%d %H:%M:%S')], for a
    year of four digits *)
Definition strftime_date (d : Datetime.datetime) : string :=
  let '(y, m, dd) := Datetime.civil_from_days (Datetime.wall d / Datetime.day_us) in
  Datetime.dec 4 y +:+ "-" +:+ Datetime.dec 2 m +:+ "-" +:+ Datetime.dec 2 dd.

Definition strftime_seconds (d : Datetime.datetime) : string :=
  let s := Datetime.wall d mod Datetime.day_us / Datetime.second_us in
  strftime_date d +:+ " " +:+ Datetime.dec 2 (s / 3600) +:+ ":"
    +:+ Datetime.dec 2 (s / 60 mod 60) +:+ ":" +:+ Datetime.dec 2 (s mod 60).

(** the text of a line feed *)
Definition newline : string := String "010"%char EmptyString.

(** [topics_dict[topic].append(item)], creating the entry when needed: a
    [dict] kept as the list of its items, in insertion order *)
Fixpoint topic_append (topic : string) (it : radar_item)
    (topics_dict : list (string * list radar_item)) : list (string * list radar_item) :=
  match topics_dict with
  | [] => [(topic, [it])]
  | (t, topic_items) :: rest =>
      if String.eqb t topic then (t, (topic_items ++ [it])%list) :: rest
      else (t, topic_items) :: topic_append topic it rest
  end.

(** lines 795-800 *)
Definition group_by_topic (items : list radar_item) : list (string * list radar_item) :=
  fold_left (fun topics_dict it => topic_append (r_topic it) it topics_dict) items [].

(** lines 822-833: the lines of the item numbered [i] *)
Definition item_lines (i : Z) (it : radar_item) : list string :=
  let snippet := r_snippet it in
  [ "### " +:+ str_of_int i +:+ ". " +:+ r_title it;
    "";
    "- **来源**: [" +:+ r_hostname it +:+ "](" +:+ r_url it +:+ ")";
    "- **摘要**: " +:+ take 200 snippet
      +:+ (if (200 <? String.length snippet)%nat then "..." else "");
    "" ].

(** [for i, item in enumerate(topic_items, i)] *)
Fixpoint enumerate_lines (i : Z) (topic_items : list radar_item) : list string :=
  match topic_items with
  | [] => []
  | it :: rest => (item_lines i it ++ enumerate_lines (i + 1) rest)%list
  end.

Definition topic_lines (entry : string * list radar_item) : list string :=
  (["## " +:+ fst entry; ""] ++ enumerate_lines 1 (snd entry))%list.

(** lines 803-833 *)
Definition report_lines (week_start week_end : Datetime.datetime) (generated_at : Z)
    (items : list radar_item) : list string :=
  let topics_dict := group_by_topic items in
  ([ "# 雷达周报 - " +:+ strftime_date week_start +:+ " 至 " +:+ strftime_date week_end;
     "";
     "生成时间: " +:+ strftime_seconds (utcnow generated_at) +:+ " UTC";
     "";
     "## 总览";
     "- 本周捕获项目数: " +:+ str_of_int (Z.of_nat (length items));
     "- 涉及主题数: " +:+ str_of_int (Z.of_nat (length topics_dict));
     "" ] ++ concat (map topic_lines topics_dict))%list.

(** [generate_weekly_report(client, config)]: [connected] tells whether
    there is a client, [clock] and [generated_at] are the two readings of
    the clock, and [response] is what the query of lines 780-789 gives, an
    exception or the rows. *)
Definition generate_weekly_report (connected : bool) (clock generated_at : Z)
    (response : result (list radar_item)) : string :=
  if negb connected then ""
  else
    let '(week_start, week_end) := report_window clock in
    let items := match response with Ok data => data | Raise _ => [] end in
    join newline (report_lines week_start week_end generated_at items).

(** a row of [weekly_reports] *)
Record weekly_report : Type := mkWeeklyReport {
  w_week_start : string;
  w_markdown : string;
  w_content : string;
  w_created_at : Z;
  w_updated_at : Z
}.

(** the table, whose uniqueness constraint is on [week_start], and the
    outcome of the store calls to come *)
Record report_client : Type := mkReportClient {
  weekly_reports : gmap string weekly_report;
  report_faults : list bool
}.

(** [upsert_weekly_report(client, report_content)]: [clock], [created] and
    [updated] are the three readings of the clock. *)
Definition upsert_weekly_report (clock created updated : Z) (cl : option report_client)
    (report_content : string) : option report_client * bool :=
  match cl with
  | None => (None, false)
  | Some c =>
      let week_start := get_week_start clock in
      let report_md := or_else report_content "" in
      let data :=
        mkWeeklyReport (Datetime.isoformat week_start) report_md report_md created updated in
      match report_faults c with
      | true :: fs => (Some (mkReportClient (weekly_reports c) fs), false)
      | false :: fs =>
          (Some (mkReportClient (<[w_week_start data := data]> (weekly_reports c)) fs), true)
      | [] =>
          (Some (mkReportClient (<[w_week_start data := data]> (weekly_reports c)) []), true)
      end
  end.

(** lines 958-968 of [main], which runs with a client: the report is
    generated and, when it is not empty, saved; [None] is the branch that
    saves nothing. *)
Definition weekly_report_step (clock generated_at : Z) (response : result (list radar_item))
    (save_clock created updated : Z) (c : report_client)
  : option report_client * option bool :=
  let report_content := generate_weekly_report true clock generated_at response in
  if truthy report_content then
    let '(cl, report_saved) :=
      upsert_weekly_report save_clock created updated (Some c) report_content in
    (cl, Some report_saved)
  else (Some c, None).

(** ** More sample data *)

(** a stand-in for the MD5 digest in the sample runs *)
Definition sample_digest (s : string) : string := Sha1.hexdigest s.

(** the row of [blog_post], dismissed and last seen three days before
    [jan_10] *)
Definition dismissed_row : deal :=
  curated "dismissed" (Some (jan_10 - Datetime.timedelta_days 10))
    (Some (jan_10 - Datetime.timedelta_days 3)).

(** * Properties *)

(** ** Identity *)

(** C8: when the URLs of two records normalise to the same non-empty
    string, [compute_dedupe_key] gives both the same key, whatever their
    hostnames, canonical names and titles. *)
Theorem dedupe_key_depends_only_on_normalized_url :
  forall bok url1 url2 hostname1 hostname2 name1 name2 title1 title2,
    normalize_url bok url1 = normalize_url bok url2 ->
    normalize_url bok url1 <> "" ->
    compute_dedupe_key bok url1 hostname1 name1 title1
    = compute_dedupe_key bok url2 hostname2 name2 title2.
Proof.
  intros bok url1 url2 h1 h2 n1 n2 t1 t2 Heq Hne.
  unfold compute_dedupe_key.
  rewrite <- Heq.
  destruct (normalize_url bok url1) as [|c r]; [congruence | reflexivity].
Qed.

Lemma dedupe_key_depends_only_on_normalized_url_witness :
  normalize_url accept_bracketed "https://Example.com/blog/post/?utm_campaign=x"
  = "https://example.com/blog/post"
  /\ compute_dedupe_key accept_bracketed
       "https://Example.com/blog/post/?utm_campaign=x" "Example.com" "Foo" "Foo — TechCrunch"
     = compute_dedupe_key accept_bracketed
         "https://example.com/blog/post?utm_campaign=y&ref=z" "example.com" "foo" "foo".
Proof.
  split; [vm_compute; reflexivity |].
  apply dedupe_key_depends_only_on_normalized_url.
  - vm_compute; reflexivity.
  - vm_compute; discriminate.
Defined.

(** C3: [normalize_url] is not idempotent: a pass removes one trailing
    slash and one leading [www.] label, so a path ending in two slashes, or
    a host starting with two such labels, needs two passes. *)
Theorem normalize_url_twice_differs :
  forall bok,
    normalize_url bok "https://example.com/blog//" = "https://example.com/blog/"
    /\ normalize_url bok (normalize_url bok "https://example.com/blog//")
       = "https://example.com/blog"
    /\ normalize_url bok (normalize_url bok "https://example.com/blog//")
       <> normalize_url bok "https://example.com/blog//"
    /\ normalize_url bok "https://www.www.example.com" = "https://www.example.com"
    /\ normalize_url bok (normalize_url bok "https://www.www.example.com")
       = "https://example.com".
Proof.
  intros bok. repeat split; try (vm_compute; reflexivity).
  vm_compute. discriminate.
Qed.

(** The digest is the one [hashlib] computes. *)
Example sha1_of_abc : Sha1.hexdigest "abc" = "a9993e364706816aba3e25717850c26c9cd0d89d".
Proof. vm_compute. reflexivity. Qed.

(** Tracking parameters, their order, the case of the host, a trailing
    slash and the fragment do not show in the normal form; the case of the
    scheme does, because line 105 compares it as written. *)
Example normalize_url_samples :
  forall bok,
    normalize_url bok "https://WWW.Example.com/path/?utm_source=x&b=2&a=1#frag"
    = "https://example.com/path?a=1&b=2"
    /\ normalize_url bok "example.com/path?a=1&b=2" = "https://example.com/path?a=1&b=2"
    /\ normalize_url bok "HTTP://WWW.Example.com/path/?utm_source=x&b=2&a=1#frag"
       = "https://http://WWW.Example.com/path?a=1&b=2".
Proof. intros bok. repeat split; vm_compute; reflexivity. Qed.

(** The end-to-end scenario of the specification: the second sighting,
    with another title and other tracking parameters, lands on the row of
    the first. *)
Example end_to_end_scenario :
  exists c1 c2 row1 row2,
    upsert_deals accept_bracketed Datetime.fromisoformat_basic utc_zone jan_10
      (Some empty_store) [blog_post] "ai" = (Some c1, Ok (mkStats 1 0 0))
    /\ deals c1 !! blog_post_key = Some row1
    /\ d_canonical_name row1 = "Foo"
    /\ d_status row1 = "new"
    /\ d_seen_count row1 = Some 1
    /\ upsert_deals accept_bracketed Datetime.fromisoformat_basic utc_zone (jan_10 + 60)
         (Some c1) [blog_post_again] "ai" = (Some c2, Ok (mkStats 1 0 0))
    /\ deals c2 !! blog_post_key = Some row2
    /\ size (deals c2) = 1%nat
    /\ d_status row2 = "new"
    /\ d_seen_count row2 = Some 2.
Proof.
  eexists _, _, _, _.
  do 9 (split; [vm_compute; reflexivity|]).
  vm_compute. reflexivity.
Qed.

(** ** Rule B inside the engine *)

Lemma truthy_append_r (a b : string) : truthy b = true -> truthy (a +:+ b) = true.
Proof. destruct a; simpl; auto. Qed.

Lemma render_ts_truthy (t : Z) : truthy (Datetime.render_ts t) = true.
Proof.
  unfold Datetime.render_ts, Datetime.isoformat.
  destruct (Datetime.civil_from_days _) as [[y m] dd].
  apply truthy_append_r. reflexivity.
Qed.

(** The subtraction at line 529 has the aware [now] on the left and a
    naive [dismissed_at_utc] on the right on both branches of line 523, so
    it raises [TypeError] whenever [dismissed_at] parses; the handler at
    line 542 swallows it.  Rule B thus fires for a missing [dismissed_at]
    only, whatever the parser and the local zone are. *)
Lemma auto_reactivate_spec fi lo (now : Z) (dismissed_at : option Z) :
  auto_reactivate fi lo (Datetime.now_utc now) dismissed_at
  = match dismissed_at with Some _ => false | None => true end.
Proof.
  unfold auto_reactivate.
  destruct dismissed_at as [t|]; [|reflexivity].
  change (default "" (Datetime.render_ts <$> Some t)) with (Datetime.render_ts t).
  rewrite render_ts_truthy.
  destruct (fi _) as [dt|]; [|reflexivity].
  unfold Datetime.sub.
  destruct (Datetime.tzinfo dt) eqn:Htz; cbn; [reflexivity|].
  rewrite Htz. reflexivity.
Qed.

(** The status decision of lines 500-551, as it comes out: only a
    [dismissed] row without [dismissed_at] is revived. *)
Lemma decide_status_spec fi lo (now : Z) (existing_deal : option deal) :
  decide_status fi lo now existing_deal
  = match existing_deal with
    | Some row =>
        if String.eqb (d_status row) "dismissed"
        then match d_dismissed_at row with
             | Some _ => None
             | None => Some "new"
             end
        else None
    | None => None
    end.
Proof.
  unfold decide_status. destruct existing_deal as [row|]; [|reflexivity].
  rewrite auto_reactivate_spec.
  destruct (String.eqb (d_status row) "shortlisted") eqn:Es.
  - apply String.eqb_eq in Es. rewrite Es. reflexivity.
  - destruct (String.eqb (d_status row) "dismissed"); [|reflexivity].
    destruct (d_dismissed_at row); reflexivity.
Qed.

Lemma upsert_deal_parser_irrelevant bok fi lo fi' lo' now topic_name st it :
  upsert_deal bok fi lo now topic_name st it
  = upsert_deal bok fi' lo' now topic_name st it.
Proof.
  unfold upsert_deal. destruct st as [c n].
  destruct (negb (truthy (i_link it)) || negb (truthy (i_title it))); [reflexivity|].
  destruct (generate_evidence_urls bok it (i_link it)) as [evs|e]; [|reflexivity].
  repeat (match goal with
          | |- context [if ?b then _ else _] => destruct b; try reflexivity
          end).
  destruct (select_by_key c _) as [c1 [[row|]|e]]; try reflexivity.
  unfold decide_status. rewrite !auto_reactivate_spec. reflexivity.
Qed.

Lemma upsert_loop_parser_irrelevant bok fi lo fi' lo' now topic_name st items :
  upsert_loop bok fi lo now topic_name st items
  = upsert_loop bok fi' lo' now topic_name st items.
Proof.
  revert st. induction items as [|it rest IH]; intros st; simpl; [reflexivity|].
  rewrite (upsert_deal_parser_irrelevant bok fi lo fi' lo').
  destruct (upsert_deal bok fi' lo' now topic_name st it) as [[c n] [e|]];
    [reflexivity | apply IH].
Qed.

Lemma upsert_deals_parser_irrelevant bok fi lo fi' lo' now cl items topic_name :
  upsert_deals bok fi lo now cl items topic_name
  = upsert_deals bok fi' lo' now cl items topic_name.
Proof.
  unfold upsert_deals. destruct cl as [c|]; [|reflexivity].
  rewrite (upsert_loop_parser_irrelevant bok fi lo fi' lo'). reflexivity.
Qed.

Lemma ingest_parser_irrelevant bok fi lo fi' lo' cl batches :
  ingest bok fi lo cl batches = ingest bok fi' lo' cl batches.
Proof.
  revert cl. induction batches as [|[[topic_name results] now] rest IH]; intros cl;
    simpl; [reflexivity|].
  destruct results as [|r rs]; [apply IH|].
  rewrite (upsert_deals_parser_irrelevant bok fi lo fi' lo').
  destruct (upsert_deals bok fi' lo' now cl (r :: rs) topic_name) as [cl' [s|e]];
    [apply IH | reflexivity].
Qed.

Lemma main_parser_irrelevant bok fi lo fi' lo' env cl :
  main bok fi lo env cl = main bok fi' lo' env cl.
Proof.
  unfold main.
  rewrite (ingest_parser_irrelevant bok fi lo fi' lo'). reflexivity.
Qed.

(** C1: a deal dismissed three days ago and sighted again stays
    [dismissed]: the engine counts no reactivation and writes neither
    [status] nor [dismissed_at], although the elapsed time is within the
    seven days of rule B. *)
Theorem dismissed_three_days_ago_stays_dismissed :
  forall bok fi lo,
    let dismissed_at := jan_10 - Datetime.timedelta_days 3 in
    let row := curated "dismissed" (Some dismissed_at) (Some dismissed_at) in
    jan_10 - dismissed_at <= Datetime.timedelta_days 7
    /\ item_dedupe_key bok blog_post = blog_post_key
    /\ exists c row',
        upsert_deals bok fi lo jan_10 (Some (store_with row [])) [blog_post] "ai"
        = (Some c, Ok (mkStats 1 0 0))
        /\ deals c !! blog_post_key = Some row'
        /\ d_status row' = "dismissed"
        /\ d_dismissed_at row' = Some dismissed_at
        /\ d_dismissed_reason row' = Some "not relevant"
        /\ d_seen_count row' = Some 2
        /\ d_last_seen_at row' = Some jan_10.
Proof.
  intros bok fi lo dismissed_at row.
  split; [vm_compute; discriminate|].
  split; [vm_compute; reflexivity|].
  rewrite (upsert_deals_parser_irrelevant bok fi lo (fun _ => None) utc_zone).
  eexists _, _. split; [vm_compute; reflexivity|].
  repeat split; vm_compute; reflexivity.
Qed.

(** C9: a deal dismissed ten days ago is sighted again during a run.  The
    engine leaves it [dismissed]; the DB-side pass, which selects on
    [last_seen_at] and never looks at [dismissed_at], then turns it to
    [new], and the job ends with exit code 0. *)
Theorem fallback_pass_revives_deal_dismissed_ten_days_ago :
  forall bok fi lo,
    let dismissed_at := jan_10 - Datetime.timedelta_days 10 in
    let row := curated "dismissed" (Some dismissed_at) (Some dismissed_at) in
    let env := mkRun true [("ai", [blog_post], jan_10)] None
                     (jan_10 - 1) (jan_10 + 1) (jan_10 + 2) in
    Datetime.timedelta_days 7 < jan_10 - dismissed_at
    /\ (exists c1 row1,
          upsert_deals bok fi lo jan_10 (Some (store_with row [])) [blog_post] "ai"
          = (Some c1, Ok (mkStats 1 0 0))
          /\ deals c1 !! blog_post_key = Some row1
          /\ d_status row1 = "dismissed"
          /\ d_dismissed_at row1 = Some dismissed_at
          /\ exists c2 row2,
              reactivate_dismissed_deals (jan_10 + 1) (Some c1) = (Some c2, 1)
              /\ deals c2 !! blog_post_key = Some row2
              /\ d_status row2 = "new"
              /\ d_dismissed_at row2 = None)
    /\ exists c row',
        main bok fi lo env (Some (store_with row [])) = (Some c, Ok 0)
        /\ deals c !! blog_post_key = Some row'
        /\ d_status row' = "new"
        /\ d_dismissed_reason row' = None
        /\ d_dismissed_at row' = None.
Proof.
  intros bok fi lo dismissed_at row env.
  split; [vm_compute; reflexivity|].
  split.
  - rewrite (upsert_deals_parser_irrelevant bok fi lo (fun _ => None) utc_zone).
    eexists _, _. split; [vm_compute; reflexivity|].
    split; [vm_compute; reflexivity|].
    split; [vm_compute; reflexivity|].
    split; [vm_compute; reflexivity|].
    eexists _, _. split; [vm_compute; reflexivity|].
    repeat split; vm_compute; reflexivity.
  - rewrite (main_parser_irrelevant bok fi lo (fun _ => None) utc_zone).
    eexists _, _. split; [vm_compute; reflexivity|].
    repeat split; vm_compute; reflexivity.
Qed.

(** ** Failures inside a batch *)

(** C6: the lookup of the first record succeeds and its write raises; the
    second record goes through.  The batch is not aborted, but the failed
    write is counted nowhere: [errors] is 0.  A failed lookup, by
    contrast, is counted. *)
Theorem failed_write_is_not_counted :
  forall bok fi lo,
    (exists c,
        upsert_deals bok fi lo jan_10 (Some (mkClient ∅ 1 [false; true]))
          [blog_post; record_of "https://example.org/news" "Bar"] "ai"
        = (Some c, Ok (mkStats 1 0 0))
        /\ deals c !! blog_post_key = None
        /\ size (deals c) = 1%nat)
    /\ upsert_deals bok fi lo jan_10 (Some (mkClient ∅ 1 [false; true]))
         [blog_post] "ai"
       = (Some (mkClient ∅ 1 []), Ok (mkStats 0 0 0))
    /\ upsert_deals bok fi lo jan_10 (Some (mkClient ∅ 1 [true]))
         [blog_post] "ai"
       = (Some (mkClient ∅ 1 []), Ok (mkStats 0 0 1)).
Proof.
  intros bok fi lo.
  rewrite !(upsert_deals_parser_irrelevant bok fi lo (fun _ => None) utc_zone).
  split.
  - eexists. split; [vm_compute; reflexivity|].
    split; vm_compute; reflexivity.
  - split; vm_compute; reflexivity.
Qed.

(** C5, as stated, fails twice.  A record whose link is blank and whose
    title is not trips the assertion of [generate_evidence_urls]: the
    exception leaves [upsert_deals], no counts are returned and the record
    after it is never processed.  A record whose link is empty is skipped,
    but it is not counted in [errors]. *)
Lemma blank_link_is_neither_counted_nor_harmless :
  normalize_url accept_bracketed "   " = ""
  /\ upsert_deals accept_bracketed Datetime.fromisoformat_basic utc_zone jan_10
       (Some empty_store) [record_of "   " "Foo"; blog_post] "ai"
     = (Some empty_store, Raise AssertionError)
  /\ normalize_url accept_bracketed "" = ""
  /\ exists c,
      upsert_deals accept_bracketed Datetime.fromisoformat_basic utc_zone jan_10
        (Some empty_store) [record_of "" "Foo"; blog_post] "ai"
      = (Some c, Ok (mkStats 1 0 0)).
Proof.
  split; [vm_compute; reflexivity|].
  split; [vm_compute; reflexivity|].
  split; [vm_compute; reflexivity|].
  eexists. vm_compute. reflexivity.
Qed.

(** C5, amended: a record whose link is empty, and so normalises to the
    empty string, is skipped before any store access: the batch runs as if
    the record were not in it, so it is counted nowhere and aborts
    nothing. *)
Theorem record_without_link_is_skipped_uncounted :
  forall bok fi lo now cl topic_name it rest,
    i_link it = "" ->
    normalize_url bok (i_link it) = ""
    /\ upsert_deals bok fi lo now cl (it :: rest) topic_name
       = upsert_deals bok fi lo now cl rest topic_name.
Proof.
  intros bok fi lo now cl topic_name it rest Hl.
  split; [rewrite Hl; reflexivity|].
  unfold upsert_deals. destruct cl as [c|]; [|reflexivity].
  cbn [upsert_loop]. unfold upsert_deal at 1. rewrite Hl. reflexivity.
Qed.

Lemma record_without_link_is_skipped_uncounted_witness :
  normalize_url accept_bracketed (i_link (record_of "" "Foo")) = ""
  /\ upsert_deals accept_bracketed Datetime.fromisoformat_basic utc_zone jan_10
       (Some empty_store) [record_of "" "Foo"; blog_post] "ai"
     = upsert_deals accept_bracketed Datetime.fromisoformat_basic utc_zone jan_10
         (Some empty_store) [blog_post] "ai".
Proof.
  apply record_without_link_is_skipped_uncounted. reflexivity.
Defined.

(** ** Archived protection *)

Lemma call_deals c : deals (call c).2 = deals c.
Proof. unfold call. destruct (faults c); reflexivity. Qed.

Lemma call_next_id c : next_id (call c).2 = next_id c.
Proof. unfold call. destruct (faults c); reflexivity. Qed.

Lemma select_by_key_inv c k c' r :
  select_by_key c k = (c', r) ->
  deals c' = deals c /\ next_id c' = next_id c
  /\ (r = Raise StoreError \/ r = Ok (deals c !! k)).
Proof.
  unfold select_by_key.
  pose proof (call_deals c) as Hd. pose proof (call_next_id c) as Hn.
  destruct (call c) as [raises c1]; simpl in *.
  destruct raises; intros [= <- <-]; rewrite ?Hd; auto.
Qed.

Lemma upsert_inv c data c' r :
  upsert c data = (c', r) ->
  (r = Raise StoreError /\ deals c' = deals c /\ next_id c' = next_id c)
  \/ (r = Ok tt
      /\ match deals c !! p_dedupe_key data with
         | Some row =>
             deals c' = <[p_dedupe_key data := overlay data row]> (deals c)
             /\ next_id c' = next_id c
         | None =>
             deals c' = <[p_dedupe_key data := overlay data (default_row (next_id c))]>
                          (deals c)
             /\ next_id c' = next_id c + 1
         end).
Proof.
  unfold upsert.
  pose proof (call_deals c) as Hd. pose proof (call_next_id c) as Hn.
  destruct (call c) as [raises c1]; simpl in *.
  destruct raises; [intros [= <- <-]; auto|].
  rewrite Hd. destruct (deals c !! p_dedupe_key data) as [row|];
    intros [= <- <-]; right; simpl; rewrite ?Hd, ?Hn; auto.
Qed.

(** What a turn of the loop can do to the table: nothing, or one write at
    the record's key, over a row that is not archived. *)
Lemma upsert_deal_table bok fi lo now topic_name c n it c' n' oe :
  upsert_deal bok fi lo now topic_name (c, n) it = (c', n', oe) ->
  (deals c' = deals c /\ next_id c' = next_id c /\ processed n' = processed n)
  \/ (exists data,
        p_dedupe_key data = item_dedupe_key bok it
        /\ match deals c !! item_dedupe_key bok it with
           | Some row =>
               d_status row <> "archived"
               /\ deals c' = <[item_dedupe_key bok it := overlay data row]> (deals c)
           | None =>
               deals c' = <[item_dedupe_key bok it :=
                              overlay data (default_row (next_id c))]> (deals c)
           end).
Proof.
  unfold upsert_deal.
  destruct (negb (truthy (i_link it)) || negb (truthy (i_title it))).
  { intros [= <- <- <-]. auto. }
  destruct (generate_evidence_urls bok it (i_link it)) as [evs|e].
  2:{ intros [= <- <- <-]. auto. }
  repeat (match goal with
          | |- context [if negb ?b then _ else _] => destruct b; cbn [negb]
          end; [| intros [= <- <- <-]; auto ] ).
  fold (item_dedupe_key bok it).
  destruct (select_by_key c (item_dedupe_key bok it)) as [c1 r] eqn:Hsel.
  apply select_by_key_inv in Hsel as (Hd1 & Hn1 & Hr).
  destruct Hr as [-> | ->]; [intros [= <- <- <-]; auto|].
  destruct (deals c !! item_dedupe_key bok it) as [row|] eqn:Hrow.
  - destruct (String.eqb (d_status row) "archived") eqn:Harch.
    { intros [= <- <- <-]. auto. }
    match goal with |- context [upsert c1 ?d] => set (data := d) end.
    destruct (upsert c1 data) as [c2 r2] eqn:Hup.
    apply upsert_inv in Hup as [(-> & Hd2 & Hn2) | (-> & Hw)].
    { intros [= <- <- <-]. left. repeat split; try congruence;
      try match goal with
          | |- processed (match ?x with _ => _ end) = _ => destruct x; reflexivity
          end. }
    intros [= <- <- <-]. right. exists data. split; [reflexivity|].
    change (p_dedupe_key data) with (item_dedupe_key bok it) in Hw.
    rewrite Hd1, Hrow in Hw. destruct Hw as [Hw _]. split; [|exact Hw].
    apply String.eqb_neq. exact Harch.
  - match goal with |- context [upsert c1 ?d] => set (data := d) end.
    destruct (upsert c1 data) as [c2 r2] eqn:Hup.
    apply upsert_inv in Hup as [(-> & Hd2 & Hn2) | (-> & Hw)].
    { intros [= <- <- <-]. left. repeat split; try congruence;
      try match goal with
          | |- processed (match ?x with _ => _ end) = _ => destruct x; reflexivity
          end. }
    intros [= <- <- <-]. right. exists data. split; [reflexivity|].
    change (p_dedupe_key data) with (item_dedupe_key bok it) in Hw.
    rewrite Hd1, Hrow, Hn1 in Hw. destruct Hw as [Hw _]. exact Hw.
Qed.

Section Frozen.
Variables (bok : string -> bool) (fi : string -> option Datetime.datetime) (lo : Z -> Z).
Variables (now : Z) (topic_name : string) (k : string) (row : deal).
Hypothesis Harchived : d_status row = "archived".

Lemma upsert_deal_preserves_archived c n it c' n' oe :
  upsert_deal bok fi lo now topic_name (c, n) it = (c', n', oe) ->
  deals c !! k = Some row ->
  deals c' !! k = Some row.
Proof.
  intros Hstep Hk.
  apply upsert_deal_table in Hstep as [(Hd & _) | (data & _ & Hw)]; [congruence|].
  destruct (decide (item_dedupe_key bok it = k)) as [Heq | Hne].
  - rewrite Heq, Hk in Hw. destruct Hw as [Hna _]. contradiction.
  - destruct (deals c !! item_dedupe_key bok it) as [row0|].
    + destruct Hw as [_ ->]. rewrite lookup_insert_ne; assumption.
    + rewrite Hw. rewrite lookup_insert_ne; assumption.
Qed.

Lemma upsert_loop_preserves_archived items c n c' r :
  upsert_loop bok fi lo now topic_name (c, n) items = (c', r) ->
  deals c !! k = Some row ->
  deals c' !! k = Some row.
Proof.
  revert c n. induction items as [|it rest IH]; intros c n; cbn [upsert_loop].
  - intros [= <- <-]. auto.
  - destruct (upsert_deal bok fi lo now topic_name (c, n) it) as [[c1 n1] [e|]] eqn:Hstep.
    + intros [= <- <-] Hk. eapply upsert_deal_preserves_archived; eauto.
    + intros Hloop Hk. eapply IH; [exact Hloop|].
      eapply upsert_deal_preserves_archived; eauto.
Qed.
End Frozen.

(** C2: a row whose status is [archived] is left exactly as it is by
    [upsert_deals], whatever the batch and whichever store calls fail; and
    a record carrying the key of an archived row causes no write at all:
    the table is the same before and after, and nothing is counted as
    processed. *)
Theorem archived_deal_is_frozen :
  forall bok fi lo now topic_name c k row,
    deals c !! k = Some row ->
    d_status row = "archived" ->
    (forall items, exists c' r,
        upsert_deals bok fi lo now (Some c) items topic_name = (Some c', r)
        /\ deals c' !! k = Some row)
    /\ (forall it, item_dedupe_key bok it = k ->
         exists c' r,
           upsert_deals bok fi lo now (Some c) [it] topic_name = (Some c', r)
           /\ deals c' = deals c
           /\ next_id c' = next_id c
           /\ forall n, r = Ok n -> processed n = 0).
Proof.
  intros bok fi lo now topic_name c k row Hk Harch. split.
  - intros items. unfold upsert_deals.
    destruct (upsert_loop bok fi lo now topic_name (c, mkStats 0 0 0) items) as [c' r] eqn:Hl.
    exists c', r. split; [reflexivity|].
    eapply upsert_loop_preserves_archived; eauto.
  - intros it Hkey. unfold upsert_deals, upsert_loop.
    destruct (upsert_deal bok fi lo now topic_name (c, mkStats 0 0 0) it)
      as [[c1 n1] oe] eqn:Hstep.
    assert (deals c1 = deals c /\ next_id c1 = next_id c /\ processed n1 = 0)
      as (Hd & Hn & Hp).
    { apply upsert_deal_table in Hstep as [H | (data & _ & Hw)]; [exact H|].
      rewrite Hkey, Hk in Hw. destruct Hw as [Hna _]. contradiction. }
    destruct oe as [e|]; eexists _, _; (split; [reflexivity|]);
      repeat split; try assumption.
    + intros n [=].
    + intros n [= <-]. exact Hp.
Qed.

Lemma archived_deal_is_frozen_witness :
  let row := curated "archived" None (Some (jan_10 - Datetime.timedelta_days 2)) in
  exists c' r,
    upsert_deals accept_bracketed Datetime.fromisoformat_basic utc_zone jan_10
      (Some (store_with row [])) [blog_post] "ai" = (Some c', r)
    /\ deals c' = deals (store_with row [])
    /\ next_id c' = next_id (store_with row [])
    /\ forall n, r = Ok n -> processed n = 0.
Proof.
  intros row.
  apply (proj2 (archived_deal_is_frozen accept_bracketed Datetime.fromisoformat_basic
                  utc_zone jan_10 "ai" (store_with row []) blog_post_key row
                  ltac:(vm_compute; reflexivity) ltac:(reflexivity)) blog_post).
  vm_compute. reflexivity.
Defined.

(** ** Evidence URLs *)

Lemma tracks_empty : tracks ([], ∅).
Proof. split; [constructor|]. intros x. simpl. set_solver. Qed.

Lemma tracks_extend l (s : gset string) u :
  tracks (l, s) -> u ∉ s -> tracks ((l ++ [u])%list, {[u]} ∪ s).
Proof.
  intros [Hnd Hin] Hu. simpl in *. split; simpl.
  - apply NoDup_app. split; [exact Hnd|]. split; [|apply NoDup_singleton].
    intros x Hx Hx'. apply list_elem_of_singleton in Hx'. subst x.
    apply Hu, Hin, Hx.
  - intros x. rewrite elem_of_union, elem_of_singleton, elem_of_app,
      list_elem_of_singleton, Hin. tauto.
Qed.

Lemma add_evidence_tracks bok acc u : tracks acc -> tracks (add_evidence bok acc u).
Proof.
  intros H. unfold add_evidence. destruct acc as [l s].
  destruct (truthy (normalize_url bok u)); simpl; [|exact H].
  case_bool_decide; simpl; [exact H|]. apply tracks_extend; assumption.
Qed.

Lemma add_evidence_length bok acc u :
  (length acc.1 <= length (add_evidence bok acc u).1)%nat.
Proof.
  unfold add_evidence. destruct acc as [l s].
  destruct (truthy (normalize_url bok u) && _); simpl; [|lia].
  rewrite length_app. simpl. lia.
Qed.

Lemma fold_left_invariant {A B} (P : A -> Prop) (f : A -> B -> A) l a :
  (forall a b, P a -> P (f a b)) -> P a -> P (fold_left f l a).
Proof. intros Hf. revert a. induction l; simpl; auto. Qed.

Lemma add_field_tracks bok acc v : tracks acc -> tracks (add_field bok acc v).
Proof.
  intros H. destruct v as [|l|s]; simpl; [exact H| |];
    apply fold_left_invariant; try exact H; intros a b Ha.
  - destruct (truthy b); [apply add_evidence_tracks|]; exact Ha.
  - destruct (truthy (strip b)); [apply add_evidence_tracks|]; exact Ha.
Qed.

Lemma add_field_length bok acc v :
  (length acc.1 <= length (add_field bok acc v).1)%nat.
Proof.
  destruct v as [|l|s]; simpl; [lia| |];
    apply (fold_left_invariant (fun a => (length acc.1 <= length a.1)%nat));
    try lia; intros a b Ha.
  - destruct (truthy b); [|exact Ha].
    etransitivity; [exact Ha|apply add_evidence_length].
  - destruct (truthy (strip b)); [|exact Ha].
    etransitivity; [exact Ha|apply add_evidence_length].
Qed.

(** What [generate_evidence_urls] returns has no duplicates. *)
Lemma generate_evidence_urls_NoDup bok it url evs :
  generate_evidence_urls bok it url = Ok evs -> NoDup evs.
Proof.
  unfold generate_evidence_urls.
  match goal with |- context [fold_left (add_field bok) ?l ?a] =>
    assert (tracks (fold_left (add_field bok) l a)) as [Hnd _] end.
  { apply fold_left_invariant; [intros; apply add_field_tracks; assumption|].
    destruct (truthy url); [apply add_evidence_tracks|]; apply tracks_empty. }
  destruct (0 <? _)%nat; intros [= <-]. exact Hnd.
Qed.

(** A link that normalises to something yields evidence. *)
Lemma generate_evidence_urls_ok bok it url :
  normalize_url bok url <> "" ->
  exists evs, generate_evidence_urls bok it url = Ok evs.
Proof.
  intros Hn. unfold generate_evidence_urls.
  assert (truthy url = true) as ->.
  { destruct url; [|reflexivity]. exfalso. apply Hn. reflexivity. }
  match goal with |- context [fold_left (add_field bok) ?l ?a] =>
    assert (1 <= length (fold_left (add_field bok) l a).1)%nat as Hlen end.
  { apply (fold_left_invariant (fun a => (1 <= length a.1)%nat)).
    - intros a b Ha. etransitivity; [exact Ha|apply add_field_length].
    - unfold add_evidence.
      destruct (normalize_url bok url) as [|ch r]; [congruence|]. simpl.
      case_bool_decide as Hin; [set_solver|]. simpl. lia. }
  destruct (0 <? _)%nat eqn:E; [eauto|].
  apply Nat.ltb_ge in E. lia.
Qed.

Lemma merge_fold_spec new : forall m (s : gset string),
  (forall x, x ∈ s <-> x ∈ m) -> NoDup new ->
  (fold_left merge_step new (m, s)).1 = (m ++ list_difference new m)%list.
Proof.
  induction new as [|u new IH]; intros m s Hs Hnd; simpl.
  - rewrite app_nil_r. reflexivity.
  - apply NoDup_cons in Hnd as [Hu Hnd].
    case_bool_decide as Hin; case_decide as Hin'.
    + apply IH; assumption.
    + exfalso. apply Hin', Hs, Hin.
    + exfalso. apply Hin, Hs, Hin'.
    + rewrite IH; [|intros x|assumption].
      2:{ rewrite elem_of_union, elem_of_singleton, elem_of_app,
            list_elem_of_singleton, Hs. tauto. }
      rewrite <- app_assoc. simpl. do 2 f_equal.
      clear -Hu. induction new as [|v new IH]; simpl; [reflexivity|].
      apply not_elem_of_cons in Hu as [Hne Hu].
      specialize (IH Hu).
      repeat case_decide;
        first [ exact IH
              | f_equal; exact IH
              | exfalso;
                match goal with
                | H : v ∈ (_ ++ _)%list |- _ =>
                    apply elem_of_app in H as [?|H]; [contradiction|];
                    apply list_elem_of_singleton in H; congruence
                | H : ¬ v ∈ (_ ++ _)%list |- _ => apply H, elem_of_app; auto
                end ].
Qed.

(** The merge of lines 473-478 is the old list followed by the new URLs it
    does not hold yet, in their order. *)
Lemma merge_evidence_urls_spec old new :
  NoDup new ->
  merge_evidence_urls old new = (old ++ list_difference new old)%list.
Proof.
  intros Hnd. unfold merge_evidence_urls. apply merge_fold_spec; [|exact Hnd].
  intros x. apply elem_of_list_to_set.
Qed.

Lemma merged_NoDup (old new : list string) :
  NoDup old -> NoDup new -> NoDup (old ++ list_difference new old).
Proof.
  intros Ho Hn. apply NoDup_app. split; [exact Ho|]. split.
  - intros x Hx Hx'. apply list_elem_of_difference in Hx' as [_ Hx']. contradiction.
  - apply NoDup_list_difference. exact Hn.
Qed.

Lemma last_n_NoDup {A} n (l : list A) : NoDup l -> NoDup (last_n n l).
Proof. intros H. unfold last_n. exact (sublist_NoDup _ _ H (sublist_drop _ _)). Qed.

Lemma last_n_length {A} n (l : list A) :
  (n <= length l)%nat -> length (last_n n l) = n.
Proof. intros H. unfold last_n. rewrite length_drop. lia. Qed.

(** ** Which records are accepted *)

Lemma lstrip_headed s : lstrip_by is_space s <> "" -> headed (lstrip_by is_space s).
Proof.
  induction s as [|c r IH]; simpl; [congruence|].
  destruct (is_space c) eqn:E; [exact IH|]. intros _. exact E.
Qed.

Lemma rstrip_headed s : headed s -> headed (rstrip_by is_space s).
Proof.
  destruct s as [|c r]; simpl; [auto|]. intros E. rewrite E. simpl. exact E.
Qed.

Lemma strip_headed s : strip s <> "" -> headed (strip s).
Proof.
  unfold strip. intros H. apply rstrip_headed, lstrip_headed.
  intros E. apply H. rewrite E. reflexivity.
Qed.

Lemma lstrip_of_headed s : headed s -> lstrip_by is_space s = s.
Proof. destruct s as [|c r]; simpl; [tauto|]. intros ->. reflexivity. Qed.

Lemma headed_strip s : headed s -> strip s <> "".
Proof.
  intros H. unfold strip. rewrite (lstrip_of_headed s H).
  apply rstrip_headed in H. destruct (rstrip_by is_space s); [contradiction|discriminate].
Qed.

Lemma headed_append s t : headed s -> headed (s +:+ t).
Proof. destruct s; simpl; [tauto|auto]. Qed.

Lemma headed_take n s : headed s -> headed (take (S n) s).
Proof. destruct s as [|c r]; simpl; [tauto|auto]. Qed.

Lemma truthy_neq s : truthy s = true <-> s <> "".
Proof. destruct s; simpl; split; congruence. Qed.

Lemma first_field_headed values value : first_field values = Some value -> headed value.
Proof.
  induction values as [|v vs IH]; simpl; [discriminate|].
  destruct (truthy (strip v)) eqn:E; [|exact IH].
  intros [= <-]. apply strip_headed, truthy_neq, E.
Qed.

(** the words of [split_ws] are headed, and there is one as soon as the
    text is not blank *)
Lemma split_ws_aux_headed s : forall cur,
  (cur = "" \/ headed cur) ->
  Forall headed (split_ws_aux cur s).
Proof.
  induction s as [|d r IH]; intros cur Hcur; simpl.
  - destruct cur; simpl; [constructor|].
    constructor; [|constructor]. destruct Hcur as [?|?]; [discriminate|assumption].
  - destruct (is_space d) eqn:E.
    + destruct (truthy cur) eqn:Ec.
      * constructor; [|apply IH; auto].
        destruct Hcur as [->|?]; [discriminate|assumption].
      * apply IH; auto.
    + apply IH. right. destruct cur as [|c cs]; simpl; [exact E|].
      destruct Hcur as [?|?]; [discriminate|assumption].
Qed.

Lemma split_ws_aux_nonempty s : forall cur,
  (truthy cur = true \/ lstrip_by is_space s <> "") ->
  split_ws_aux cur s <> [].
Proof.
  induction s as [|d r IH]; intros cur H; simpl.
  - destruct H as [->|H]; [discriminate|]. simpl in H. congruence.
  - simpl in H. destruct (is_space d) eqn:E.
    + destruct (truthy cur) eqn:Ec; [discriminate|].
      apply IH. destruct H as [?|?]; [discriminate|auto].
    + apply IH. left. destruct cur; reflexivity.
Qed.

Lemma join_headed sep l : l <> [] -> Forall headed l -> headed (join sep l).
Proof.
  destruct l as [|x xs]; [congruence|]. intros _ H.
  apply Forall_cons in H as [Hx _]. simpl.
  destruct xs; [exact Hx|]. apply headed_append, Hx.
Qed.

Lemma collapsed_headed s : strip s <> "" -> headed (join " " (split_ws s)).
Proof.
  intros H. apply join_headed.
  - apply split_ws_aux_nonempty. right. intros E. apply H. unfold strip. rewrite E. reflexivity.
  - apply split_ws_aux_headed. auto.
Qed.

Lemma cut_at_punct_headed puncts truncated cut :
  headed truncated -> cut_at_punct puncts truncated = Some cut -> headed cut.
Proof.
  intros Hh. induction puncts as [|punct rest IH]; simpl; [discriminate|].
  destruct (rfind punct truncated) as [last_punct|]; [|exact IH].
  destruct (80 <? last_punct)%nat eqn:E; [|exact IH].
  intros [= <-]. apply Nat.ltb_lt in E.
  destruct last_punct as [|m]; [lia|]. apply headed_take, Hh.
Qed.

Lemma generate_one_liner_headed it description title :
  strip title <> "" ->
  description = "" \/ strip description <> "" ->
  headed (generate_one_liner it description title).
Proof.
  intros Ht Hd. unfold generate_one_liner.
  destruct (first_field _) as [value|] eqn:Hf.
  { apply first_field_headed in Hf.
    destruct (120 <? _)%nat; [apply headed_append, headed_take|]; exact Hf. }
  destruct Hd as [-> | Hd].
  - cbn [truthy].
    assert (truthy title = true) as ->.
    { apply truthy_neq. intros ->. apply Ht. reflexivity. }
    pose proof (collapsed_headed title Ht) as Hc.
    destruct (120 <? _)%nat; [apply headed_append, headed_take|]; exact Hc.
  - assert (truthy description = true) as ->.
    { apply truthy_neq. intros ->. apply Hd. reflexivity. }
    pose proof (collapsed_headed description Hd) as Hc.
    destruct (120 <? _)%nat; [|exact Hc].
    destruct (cut_at_punct _ _) as [cut|] eqn:Hcut.
    + eapply cut_at_punct_headed; [|exact Hcut]. apply headed_take, Hc.
    + apply headed_append, headed_take, headed_take, Hc.
Qed.

Lemma generate_canonical_name_not_blank it title hostname :
  strip title <> "" -> strip (generate_canonical_name it title hostname) <> "".
Proof.
  intros Ht. unfold generate_canonical_name.
  destruct (first_field _) as [value|] eqn:Hf.
  { eapply headed_strip, first_field_headed, Hf. }
  assert (truthy title = true) as Htt.
  { apply truthy_neq. intros ->. apply Ht. reflexivity. }
  rewrite Htt. unfold clean_canonical_name. rewrite Htt. cbn [negb andb].
  match goal with |- context [truthy (strip ?x)] => destruct (truthy (strip x)) eqn:E end.
  - rewrite E. apply headed_strip, strip_headed, truthy_neq, E.
  - rewrite Htt. exact Ht.
Qed.

Lemma truthy_append_l (a b : string) : truthy a = true -> truthy (a +:+ b) = true.
Proof. destruct a; simpl; [discriminate|reflexivity]. Qed.

Lemma urlunparse_https nl url prm qs :
  Urllib.urlunparse "https" nl url prm qs "" <> "".
Proof.
  unfold Urllib.urlunparse, Urllib.urlunsplit. cbn [truthy].
  apply truthy_neq.
  match goal with
  | |- truthy (if truthy qs then ?u +:+ _ else ?u) = true =>
      assert (truthy u = true) as Hu
  end.
  { cbn [andb]. apply truthy_append_l. reflexivity. }
  destruct (truthy qs); [apply truthy_append_l|]; exact Hu.
Qed.

(** A link that is not blank normalises to something. *)
Lemma normalize_url_not_blank bok u : strip u <> "" -> normalize_url bok u <> "".
Proof.
  intros Hu. unfold normalize_url.
  assert (truthy u = true) as ->.
  { apply truthy_neq. intros ->. apply Hu. reflexivity. }
  assert (truthy (strip u) = true) as -> by (apply truthy_neq, Hu).
  cbn [negb].
  set (u' := if startswith (strip u) "http://" || startswith (strip u) "https://"
             then strip u else "https://" +:+ strip u).
  assert (headed u') as Hh.
  { unfold u'. destruct (_ || _); [apply strip_headed, Hu | reflexivity]. }
  destruct (Urllib.urlparse bok u') as [parsed|e].
  - apply urlunparse_https.
  - apply headed_strip, Hh.
Qed.

(** A record with a link and a title that are not blank, and a snippet
    that is empty or not blank, is accepted. *)
Lemma accepted_intro bok it :
  strip (i_link it) <> "" ->
  strip (i_title it) <> "" ->
  i_snippet it = "" \/ strip (i_snippet it) <> "" ->
  accepted bok it.
Proof.
  intros Hl Ht Hs. unfold accepted.
  split; [intros E; apply Hl; rewrite E; reflexivity|].
  split; [intros E; apply Ht; rewrite E; reflexivity|].
  split; [apply generate_evidence_urls_ok, normalize_url_not_blank, Hl|].
  split; [apply generate_canonical_name_not_blank, Ht|].
  apply headed_strip, generate_one_liner_headed; assumption.
Qed.

(** ** Accepted records *)

Lemma assertion_holds (s : string) :
  strip s <> "" -> negb (truthy s && truthy (strip s)) = false.
Proof.
  intros H. destruct s as [|c r]; [exfalso; apply H; reflexivity|].
  destruct (strip (String c r)); [congruence | reflexivity].
Qed.

Lemma generate_evidence_urls_nonempty bok it url evs :
  generate_evidence_urls bok it url = Ok evs -> (0 <? length evs)%nat = true.
Proof.
  unfold generate_evidence_urls.
  destruct (0 <? _)%nat eqn:E; intros [= <-]. exact E.
Qed.

Lemma select_by_key_quiet c k :
  faults c = [] -> select_by_key c k = (c, Ok (deals c !! k)).
Proof. intros H. unfold select_by_key, call. rewrite H. reflexivity. Qed.

Lemma upsert_quiet c data :
  faults c = [] ->
  upsert c data
  = (mkClient
       (<[p_dedupe_key data :=
            overlay data (default (default_row (next_id c)) (deals c !! p_dedupe_key data))]>
          (deals c))
       (match deals c !! p_dedupe_key data with
        | Some _ => next_id c
        | None => next_id c + 1
        end)
       [], Ok tt).
Proof.
  intros H. unfold upsert, call. rewrite H.
  destruct (deals c !! p_dedupe_key data); rewrite H; reflexivity.
Qed.

(** A turn of the loop on an accepted record, when the store answers. *)
Lemma upsert_deal_accepted bok fi lo now topic_name c n it evs :
  accepted bok it ->
  generate_evidence_urls bok it (i_link it) = Ok evs ->
  faults c = [] ->
  let k := item_dedupe_key bok it in
  let existing := deals c !! k in
  let status := decide_status fi lo now existing in
  let data :=
    build_data now topic_name it k (get_hostname bok (i_link it))
      (generate_canonical_name it (i_title it) (get_hostname bok (i_link it)))
      (generate_one_liner it (i_snippet it) (i_title it))
      (normalize_url bok (i_link it)) evs existing status in
  upsert_deal bok fi lo now topic_name (c, n) it
  = if match existing with
       | Some row => String.eqb (d_status row) "archived"
       | None => false
       end
    then (c, n, None)
    else
      (mkClient
         (<[k := overlay data (default (default_row (next_id c)) existing)]> (deals c))
         (match existing with Some _ => next_id c | None => next_id c + 1 end) [],
       mkStats (processed n + 1)
               (match status with Some _ => reactivated n + 1 | None => reactivated n end)
               (errors n),
       None).
Proof.
  intros (Hl & Ht & _ & Hcn & Hol) Hev Hf k existing status data.
  unfold upsert_deal.
  assert (truthy (i_link it) = true) as ->
    by (destruct (i_link it) eqn:E; [congruence|reflexivity]).
  assert (truthy (i_title it) = true) as ->
    by (destruct (i_title it) eqn:E; [congruence|reflexivity]).
  cbn [negb orb]. rewrite Hev.
  rewrite (assertion_holds _ Hcn), (assertion_holds _ Hol).
  rewrite (generate_evidence_urls_nonempty _ _ _ _ Hev). cbn [negb].
  fold (item_dedupe_key bok it). fold k.
  rewrite (select_by_key_quiet c k Hf). fold existing.
  destruct (match existing with Some row => _ | None => false end); [reflexivity|].
  fold status. fold data.
  rewrite (upsert_quiet c data Hf).
  change (p_dedupe_key data) with k. fold existing.
  destruct status; reflexivity.
Qed.

Lemma upsert_deals_single bok fi lo now topic_name c it c' n' :
  upsert_deal bok fi lo now topic_name (c, mkStats 0 0 0) it = (c', n', None) ->
  upsert_deals bok fi lo now (Some c) [it] topic_name = (Some c', Ok n').
Proof. intros H. unfold upsert_deals, upsert_loop. rewrite H. reflexivity. Qed.

(** C4: from an empty table, an accepted record ingested twice leaves
    exactly one row, under the same key both times, with [seen_count] 1
    after the first ingestion and 2 after the second.  By [accepted_intro]
    a record is accepted as soon as its link and title are not blank and
    its snippet is empty or not blank. *)
Theorem same_record_twice_is_one_deal_seen_twice :
  forall bok fi lo now1 now2 topic_name it first_id,
    accepted bok it ->
    exists c1 c2 row1 row2,
      upsert_deals bok fi lo now1 (Some (mkClient ∅ first_id [])) [it] topic_name
      = (Some c1, Ok (mkStats 1 0 0))
      /\ deals c1 = {[ item_dedupe_key bok it := row1 ]}
      /\ d_seen_count row1 = Some 1
      /\ upsert_deals bok fi lo now2 (Some c1) [it] topic_name
         = (Some c2, Ok (mkStats 1 0 0))
      /\ deals c2 = {[ item_dedupe_key bok it := row2 ]}
      /\ size (deals c2) = 1%nat
      /\ d_seen_count row2 = Some 2
      /\ d_status row2 = "new"
      /\ d_first_seen_at row2 = Some now1
      /\ d_last_seen_at row2 = Some now2.
Proof.
  intros bok fi lo now1 now2 topic_name it first_id Hacc.
  destruct Hacc as (Hl & Ht & [evs Hev] & Hcn & Hol).
  assert (accepted bok it) as Hacc by (repeat split; eauto).
  set (k := item_dedupe_key bok it).
  set (hostname := get_hostname bok (i_link it)).
  set (data1 := build_data now1 topic_name it k hostname
                  (generate_canonical_name it (i_title it) hostname)
                  (generate_one_liner it (i_snippet it) (i_title it))
                  (normalize_url bok (i_link it)) evs None None).
  set (row1 := overlay data1 (default_row first_id)).
  set (c1 := mkClient {[ k := row1 ]} (first_id + 1) []).
  set (data2 := build_data now2 topic_name it k hostname
                  (generate_canonical_name it (i_title it) hostname)
                  (generate_one_liner it (i_snippet it) (i_title it))
                  (normalize_url bok (i_link it)) evs (Some row1) None).
  set (row2 := overlay data2 row1).
  set (c2 := mkClient {[ k := row2 ]} (first_id + 1) []).
  exists c1, c2, row1, row2.
  split.
  { apply upsert_deals_single.
    rewrite (upsert_deal_accepted bok fi lo now1 topic_name (mkClient ∅ first_id [])
               _ it evs Hacc Hev eq_refl).
    cbn zeta. fold k. cbn [deals next_id]. rewrite lookup_empty.
    cbn [decide_status default]. rewrite insert_empty. reflexivity. }
  split; [reflexivity|]. split; [reflexivity|].
  split.
  { apply upsert_deals_single.
    rewrite (upsert_deal_accepted bok fi lo now2 topic_name c1 _ it evs Hacc Hev eq_refl).
    cbn zeta. fold k. cbn [deals next_id c1]. rewrite lookup_singleton_eq.
    change (d_status row1) with "new".
    change (decide_status fi lo now2 (Some row1)) with (@None string).
    cbn [default]. rewrite insert_singleton_eq. reflexivity. }
  split; [reflexivity|].
  split; [apply map_size_singleton|].
  repeat split; reflexivity.
Qed.

Lemma same_record_twice_is_one_deal_seen_twice_witness :
  accepted accept_bracketed blog_post
  /\ exists c1 c2 row1 row2,
      upsert_deals accept_bracketed Datetime.fromisoformat_basic utc_zone jan_10
        (Some (mkClient ∅ 1 [])) [blog_post] "ai"
      = (Some c1, Ok (mkStats 1 0 0))
      /\ deals c1 = {[ item_dedupe_key accept_bracketed blog_post := row1 ]}
      /\ d_seen_count row1 = Some 1
      /\ upsert_deals accept_bracketed Datetime.fromisoformat_basic utc_zone (jan_10 + 60)
           (Some c1) [blog_post] "ai"
         = (Some c2, Ok (mkStats 1 0 0))
      /\ deals c2 = {[ item_dedupe_key accept_bracketed blog_post := row2 ]}
      /\ size (deals c2) = 1%nat
      /\ d_seen_count row2 = Some 2
      /\ d_status row2 = "new"
      /\ d_first_seen_at row2 = Some jan_10
      /\ d_last_seen_at row2 = Some (jan_10 + 60).
Proof.
  assert (accepted accept_bracketed blog_post) as Hacc.
  { repeat split; try (vm_compute; discriminate).
    eexists. vm_compute. reflexivity. }
  split; [exact Hacc|].
  apply same_record_twice_is_one_deal_seen_twice. exact Hacc.
Defined.

Lemma last_n_all {A} n (l : list A) : (length l <= n)%nat -> last_n n l = l.
Proof. intros H. unfold last_n. replace (length l - n)%nat with 0%nat by lia. reflexivity. Qed.

Lemma merged_evidence_spec row old new :
  default [] (d_evidence_urls row) = old ->
  NoDup new ->
  merged_evidence (Some row) new
  = last_n EVIDENCE_URLS_MAX (old ++ list_difference new old).
Proof.
  intros Hold Hnd. unfold merged_evidence. rewrite Hold.
  rewrite (merge_evidence_urls_spec old new Hnd).
  destruct (EVIDENCE_URLS_MAX <? _)%nat eqn:E; [reflexivity|].
  apply Nat.ltb_ge in E. symmetry. apply last_n_all. exact E.
Qed.

(** C7: when an accepted record is merged into an existing row that is
    not archived and whose evidence URLs are distinct, the persisted list
    has no duplicates and at most 20 entries; it is the last 20 entries of
    the old list followed by the record's URLs that the old list lacks, so
    beyond 20 the oldest ones are dropped. *)
Theorem evidence_urls_stay_bounded_and_distinct :
  forall bok fi lo now topic_name c it row,
    accepted bok it ->
    faults c = [] ->
    deals c !! item_dedupe_key bok it = Some row ->
    d_status row <> "archived" ->
    NoDup (default [] (d_evidence_urls row)) ->
    exists new c' n' row' ev,
      let old := default [] (d_evidence_urls row) in
      let merged := (old ++ list_difference new old)%list in
      generate_evidence_urls bok it (i_link it) = Ok new
      /\ upsert_deals bok fi lo now (Some c) [it] topic_name = (Some c', Ok n')
      /\ deals c' !! item_dedupe_key bok it = Some row'
      /\ d_evidence_urls row' = Some ev
      /\ NoDup ev
      /\ (length ev <= 20)%nat
      /\ ev = last_n 20 merged
      /\ ((20 < length merged)%nat -> length ev = 20%nat).
Proof.
  intros bok fi lo now topic_name c it row Hacc Hf Hrow Hna Hnd.
  destruct Hacc as (Hl & Ht & [new Hev] & Hcn & Hol).
  assert (accepted bok it) as Hacc by (repeat split; eauto).
  pose proof (generate_evidence_urls_NoDup _ _ _ _ Hev) as Hnew.
  pose proof (upsert_deal_accepted bok fi lo now topic_name c (mkStats 0 0 0) it new
                Hacc Hev Hf) as Hstep.
  cbn zeta in Hstep. rewrite Hrow in Hstep.
  apply String.eqb_neq in Hna. rewrite Hna in Hstep. cbn [default] in Hstep.
  apply upsert_deals_single in Hstep.
  eexists new, _, _, _, _. cbn zeta.
  split; [exact Hev|]. split; [exact Hstep|].
  split; [cbn [deals]; apply lookup_insert_eq|].
  split; [reflexivity|].
  cbn [overlay build_data p_evidence_urls].
  rewrite (merged_evidence_spec row _ new eq_refl Hnew).
  set (merged := (default [] (d_evidence_urls row)
                  ++ list_difference new (default [] (d_evidence_urls row)))%list).
  change EVIDENCE_URLS_MAX with 20%nat.
  split; [apply last_n_NoDup, merged_NoDup; assumption|].
  split; [unfold last_n; rewrite length_drop; lia|].
  split; [reflexivity|].
  intros Hlen. apply last_n_length. lia.
Qed.

Lemma evidence_urls_stay_bounded_and_distinct_witness :
  exists new c' n' row' ev,
    let old := default [] (d_evidence_urls crowded) in
    let merged := (old ++ list_difference new old)%list in
    generate_evidence_urls accept_bracketed blog_post (i_link blog_post) = Ok new
    /\ upsert_deals accept_bracketed Datetime.fromisoformat_basic utc_zone jan_10
         (Some (store_with crowded [])) [blog_post] "ai" = (Some c', Ok n')
    /\ deals c' !! item_dedupe_key accept_bracketed blog_post = Some row'
    /\ d_evidence_urls row' = Some ev
    /\ NoDup ev
    /\ (length ev <= 20)%nat
    /\ ev = last_n 20 merged
    /\ ((20 < length merged)%nat -> length ev = 20%nat).
Proof.
  apply evidence_urls_stay_bounded_and_distinct.
  - repeat split; try (vm_compute; discriminate).
    eexists. vm_compute. reflexivity.
  - reflexivity.
  - vm_compute. reflexivity.
  - discriminate.
  - refine (@bool_decide_unpack _ (NoDup_dec _) _). vm_compute. exact I.
Defined.

(** ** The health checker's own failures *)

Lemma health_check_first_read_fails now c started fs :
  faults c = true :: fs ->
  health_check_deals now (Some c) started
  = (Some (mkClient (deals c) (next_id c) fs), mkHealth 0 0 None 0).
Proof. intros H. unfold health_check_deals, call. rewrite H. reflexivity. Qed.

Lemma health_check_second_read_fails now c started fs :
  faults c = false :: true :: fs ->
  archived_updated_last_2h (health_check_deals now (Some c) started).2 = 0.
Proof.
  intros H. unfold health_check_deals, call. rewrite H. cbn [deals next_id faults].
  destruct (fold_left health_row _ _) as [[over nulls] latest]. reflexivity.
Qed.

(** C10: when a store read of the health checker raises, the checker
    returns normally with [archived_updated_last_2h] at 0, and a job that
    got as far as the health check ends with exit code 0; when it is the
    first read, the one of the statistics, that raises, the report is all
    zeros with no latest timestamp. *)
Theorem failing_health_check_reports_zero_and_passes :
  forall bok fi lo env cl cl1 c,
    config_loads env = true ->
    is_Some cl ->
    ingest bok fi lo cl (searches env) = (cl1, Ok tt) ->
    report_saved env <> Some false ->
    (reactivate_dismissed_deals (reactivate_time env) cl1).1 = Some c ->
    (exists fs, faults c = true :: fs \/ faults c = false :: true :: fs) ->
    let checked := health_check_deals (health_time env) (Some c) (Some (start_time env)) in
    (forall fs, faults c = true :: fs ->
       checked = (Some (mkClient (deals c) (next_id c) fs), mkHealth 0 0 None 0))
    /\ archived_updated_last_2h checked.2 = 0
    /\ (main bok fi lo env cl).2 = Ok 0.
Proof.
  intros bok fi lo env cl cl1 c Hcfg [c0 ->] Hing Hrep Hre [fs Hf] checked.
  assert (archived_updated_last_2h checked.2 = 0) as Hzero.
  { unfold checked. destruct Hf as [Hf|Hf].
    - rewrite (health_check_first_read_fails _ _ _ _ Hf). reflexivity.
    - apply (health_check_second_read_fails _ _ _ _ Hf). }
  split; [intros fs' Hf'; apply health_check_first_read_fails, Hf'|].
  split; [exact Hzero|].
  unfold main. rewrite Hcfg. cbn [negb]. rewrite Hing.
  destruct (reactivate_dismissed_deals (reactivate_time env) cl1) as [cl2 k] eqn:Hr.
  cbn [fst] in Hre. subst cl2.
  unfold health_exit. fold checked.
  destruct checked as [cl3 h]. cbn [snd] in Hzero. rewrite Hzero. cbn.
  destruct (report_saved env) as [[|]|]; try reflexivity. congruence.
Qed.

Lemma failing_health_check_reports_zero_and_passes_witness :
  let row := curated "archived" None (Some (jan_10 + 1)) in
  let checked := health_check_deals (jan_10 + 2) (Some (store_with row [true])) (Some jan_10) in
  (forall fs, faults (store_with row [true]) = true :: fs ->
     checked = (Some (mkClient (deals (store_with row [true]))
                               (next_id (store_with row [true])) fs),
                mkHealth 0 0 None 0))
  /\ archived_updated_last_2h checked.2 = 0
  /\ (main accept_bracketed Datetime.fromisoformat_basic utc_zone quiet_run
        (Some (store_with row [false; true]))).2 = Ok 0.
Proof.
  intros row.
  apply (failing_health_check_reports_zero_and_passes accept_bracketed
           Datetime.fromisoformat_basic utc_zone quiet_run
           (Some (store_with row [false; true])) (Some (store_with row [false; true]))
           (store_with row [true])).
  - reflexivity.
  - eexists. reflexivity.
  - reflexivity.
  - discriminate.
  - vm_compute. reflexivity.
  - exists []. left. reflexivity.
Defined.

(** * Further properties of the engine *)

(** *** Facts about the sample data *)

Lemma blog_post_accepted : accepted accept_bracketed blog_post.
Proof.
  repeat split; try (vm_compute; discriminate).
  eexists. vm_compute. reflexivity.
Qed.

Lemma unique_ids_singleton k row : unique_ids ({[k := row]} : gmap string deal).
Proof.
  intros k1 k2 row1 row2 H1 H2 _.
  apply lookup_singleton_Some in H1 as [<- _].
  apply lookup_singleton_Some in H2 as [<- _]. reflexivity.
Qed.

Lemma well_keyed_store_with row fs : d_id row < 2 -> well_keyed (store_with row fs).
Proof.
  intros H. split; [apply unique_ids_singleton|].
  apply map_Forall_singleton. exact H.
Qed.

Lemma merged_evidence_length existing new :
  (length (merged_evidence existing new) <= 20)%nat.
Proof.
  unfold merged_evidence. destruct existing as [row|].
  - change EVIDENCE_URLS_MAX with 20%nat.
    destruct (20 <? _)%nat eqn:E.
    + unfold last_n. rewrite length_drop. lia.
    + apply Nat.ltb_ge in E. exact E.
  - change EVIDENCE_URLS_MAX with 20%nat. rewrite length_take. lia.
Qed.

Lemma written_status_cases fi lo now row :
  let status := decide_status fi lo now (Some row) in
  let written := if String.eqb (d_status row) "shortlisted" then None else status in
  written = None \/ written = Some "new".
Proof.
  cbn zeta. rewrite decide_status_spec.
  destruct (String.eqb (d_status row) "shortlisted"); [auto|].
  destruct (String.eqb (d_status row) "dismissed"); [|auto].
  destruct (d_dismissed_at row); auto.
Qed.

Lemma overlay_sighted fi lo now topic_name it k h cn ol nu evs row :
  sighted now row
    (overlay (build_data now topic_name it k h cn ol nu evs (Some row)
                (decide_status fi lo now (Some row))) row).
Proof.
  unfold sighted, overlay, build_data. cbn -[merged_evidence decide_status].
  repeat split; try reflexivity.
  - eexists. split; [reflexivity|]. apply merged_evidence_length.
  - destruct (written_status_cases fi lo now row) as [H|H]; cbn zeta in H; rewrite H; auto.
Qed.

Lemma overlay_first_sighted now topic_name it k h cn ol nu evs new_id :
  first_sighted now new_id
    (overlay (build_data now topic_name it k h cn ol nu evs None None)
       (default_row new_id)).
Proof.
  unfold first_sighted, overlay, build_data. cbn -[merged_evidence].
  repeat split; try reflexivity.
  eexists. split; [reflexivity|]. apply (merged_evidence_length None).
Qed.

(** What a turn of the loop can do to the table, with the row it writes. *)
Lemma upsert_deal_writes bok fi lo now topic_name c n it c' n' oe :
  upsert_deal bok fi lo now topic_name (c, n) it = (c', n', oe) ->
  (deals c' = deals c /\ next_id c' = next_id c)
  \/ (exists row',
        deals c' = <[item_dedupe_key bok it := row']> (deals c)
        /\ match deals c !! item_dedupe_key bok it with
           | Some row =>
               d_status row <> "archived" /\ sighted now row row'
               /\ next_id c' = next_id c
           | None => first_sighted now (next_id c) row' /\ next_id c' = next_id c + 1
           end).
Proof.
  unfold upsert_deal.
  destruct (negb (truthy (i_link it)) || negb (truthy (i_title it))).
  { intros [= <- <- <-]. auto. }
  destruct (generate_evidence_urls bok it (i_link it)) as [evs|e].
  2:{ intros [= <- <- <-]. auto. }
  repeat (match goal with
          | |- context [if negb ?b then _ else _] => destruct b; cbn [negb]
          end; [| intros [= <- <- <-]; auto ] ).
  fold (item_dedupe_key bok it).
  destruct (select_by_key c (item_dedupe_key bok it)) as [c1 r] eqn:Hsel.
  apply select_by_key_inv in Hsel as (Hd1 & Hn1 & Hr).
  destruct Hr as [-> | ->]; [intros [= <- <- <-]; auto|].
  destruct (deals c !! item_dedupe_key bok it) as [row|] eqn:Hrow.
  - destruct (String.eqb (d_status row) "archived") eqn:Harch.
    { intros [= <- <- <-]. auto. }
    match goal with |- context [upsert c1 ?d] => set (data := d) end.
    destruct (upsert c1 data) as [c2 r2] eqn:Hup.
    apply upsert_inv in Hup as [(-> & Hd2 & Hn2) | (-> & Hw)].
    { intros [= <- <- <-]. left. split; congruence. }
    intros [= <- <- <-]. right. exists (overlay data row).
    change (p_dedupe_key data) with (item_dedupe_key bok it) in Hw.
    rewrite Hd1, Hrow, Hn1 in Hw. destruct Hw as [Hw Hn2]. split; [exact Hw|].
    split; [apply String.eqb_neq; exact Harch|].
    split; [apply overlay_sighted | exact Hn2].
  - match goal with |- context [upsert c1 ?d] => set (data := d) end.
    destruct (upsert c1 data) as [c2 r2] eqn:Hup.
    apply upsert_inv in Hup as [(-> & Hd2 & Hn2) | (-> & Hw)].
    { intros [= <- <- <-]. left. split; congruence. }
    intros [= <- <- <-]. right.
    exists (overlay data (default_row (next_id c))).
    change (p_dedupe_key data) with (item_dedupe_key bok it) in Hw.
    rewrite Hd1, Hrow, Hn1 in Hw. destruct Hw as [Hw Hn2]. split; [exact Hw|].
    split; [|exact Hn2].
    change (decide_status fi lo now None) with (@None string) in data.
    apply overlay_first_sighted.
Qed.

Section Keeps.
Variables (bok : string -> bool) (fi : string -> option Datetime.datetime) (lo : Z -> Z).
Variable P : deal -> Prop.
Hypothesis Hsighted :
  forall now row row', d_status row <> "archived" -> sighted now row row' -> P row'.
Hypothesis Hfirst : forall now new_id row', first_sighted now new_id row' -> P row'.

Lemma upsert_deal_keeps now topic_name c n it c' n' oe :
  upsert_deal bok fi lo now topic_name (c, n) it = (c', n', oe) ->
  map_Forall (fun _ => P) (deals c) -> map_Forall (fun _ => P) (deals c').
Proof.
  intros Hstep HP.
  apply upsert_deal_writes in Hstep as [[-> _] | (row' & -> & Hrow)]; [exact HP|].
  apply map_Forall_insert_2; [|exact HP].
  destruct (deals c !! item_dedupe_key bok it) as [row|].
  - destruct Hrow as (Hna & Hs & _). eapply Hsighted; eassumption.
  - destruct Hrow as [Hf _]. eapply Hfirst, Hf.
Qed.

Lemma upsert_loop_keeps now topic_name items : forall c n c' r,
  upsert_loop bok fi lo now topic_name (c, n) items = (c', r) ->
  map_Forall (fun _ => P) (deals c) -> map_Forall (fun _ => P) (deals c').
Proof.
  induction items as [|it rest IH]; intros c n c' r; cbn [upsert_loop].
  - intros [= <- <-]. auto.
  - destruct (upsert_deal bok fi lo now topic_name (c, n) it) as [[c1 n1] [e|]] eqn:Hstep.
    + intros [= <- <-] HP. eapply upsert_deal_keeps; eauto.
    + intros Hloop HP. eapply IH; [exact Hloop|]. eapply upsert_deal_keeps; eauto.
Qed.

Lemma upsert_deals_keeps now topic_name items c cl' r :
  upsert_deals bok fi lo now (Some c) items topic_name = (cl', r) ->
  map_Forall (fun _ => P) (deals c) ->
  exists c', cl' = Some c' /\ map_Forall (fun _ => P) (deals c').
Proof.
  unfold upsert_deals.
  destruct (upsert_loop bok fi lo now topic_name (c, mkStats 0 0 0) items) as [c' r'] eqn:Hl.
  intros [= <- <-] HP. exists c'. split; [reflexivity|].
  eapply upsert_loop_keeps; eauto.
Qed.

Lemma ingest_keeps batches : forall c cl' r,
  ingest bok fi lo (Some c) batches = (cl', r) ->
  map_Forall (fun _ => P) (deals c) ->
  exists c', cl' = Some c' /\ map_Forall (fun _ => P) (deals c').
Proof.
  induction batches as [|[[topic_name results] now] rest IH]; intros c cl' r;
    cbn [ingest].
  - intros [= <- <-] HP. eauto.
  - destruct results as [|x xs]; [apply IH|].
    destruct (upsert_deals bok fi lo now (Some c) (x :: xs) topic_name) as [cl1 r1] eqn:Hu.
    intros Hing HP.
    destruct (upsert_deals_keeps _ _ _ _ _ _ Hu HP) as (c1 & -> & HP1).
    destruct r1 as [s|e].
    + eapply IH; eauto.
    + injection Hing as <- <-. eauto.
Qed.
End Keeps.

Lemma sighted_bounded now row row' : sighted now row row' -> bounded row'.
Proof.
  intros (_ & _ & _ & _ & _ & (ev & Hev & Hlen) & _). unfold bounded. rewrite Hev. exact Hlen.
Qed.

Lemma first_sighted_bounded now new_id row' : first_sighted now new_id row' -> bounded row'.
Proof.
  intros (_ & _ & _ & _ & _ & (ev & Hev & Hlen)). unfold bounded. rewrite Hev. exact Hlen.
Qed.

Lemma sighted_quiet t now row row' :
  d_status row <> "archived" -> sighted now row row' -> quiet t row'.
Proof.
  intros Hna (_ & _ & _ & _ & _ & _ & [Hs|Hs]) Harch; rewrite Hs in Harch;
    [contradiction | discriminate].
Qed.

Lemma first_sighted_quiet t now new_id row' : first_sighted now new_id row' -> quiet t row'.
Proof. intros (_ & Hs & _) Harch. rewrite Hs in Harch. discriminate. Qed.

(** *** The reactivation pass, row by row *)

Lemma update_reactivate_inv now c deal_id c' r :
  update_reactivate now c deal_id = (c', r) ->
  next_id c' = next_id c
  /\ ((r = Raise StoreError /\ deals c' = deals c)
      \/ (r = Ok tt
          /\ deals c'
             = (fun row => if d_id row =? deal_id then reactivated_row now row else row)
                 <$> deals c)).
Proof.
  unfold update_reactivate.
  pose proof (call_deals c) as Hd. pose proof (call_next_id c) as Hn.
  destruct (call c) as [raises c1]; simpl in *.
  destruct raises; intros [= <- <-]; simpl; rewrite ?Hd, ?Hn; auto.
Qed.

Section PassKeeps.
Variable P : deal -> Prop.
Variable now : Z.
Hypothesis Hrevived : forall row, P row -> P (reactivated_row now row).

Lemma update_reactivate_keeps c deal_id c' r :
  update_reactivate now c deal_id = (c', r) ->
  map_Forall (fun _ => P) (deals c) -> map_Forall (fun _ => P) (deals c').
Proof.
  intros H HP. apply update_reactivate_inv in H as (_ & [(_ & ->) | (_ & ->)]); [exact HP|].
  apply map_Forall_fmap. eapply map_Forall_impl; [exact HP|].
  intros k row Hrow. cbn. destruct (d_id row =? deal_id); auto.
Qed.

Lemma reactivate_dismissed_deals_keeps c cl' count :
  reactivate_dismissed_deals now (Some c) = (cl', count) ->
  map_Forall (fun _ => P) (deals c) ->
  exists c', cl' = Some c' /\ map_Forall (fun _ => P) (deals c').
Proof.
  unfold reactivate_dismissed_deals.
  pose proof (call_deals c) as Hd.
  destruct (call c) as [raises c1]; simpl in Hd.
  destruct raises.
  { intros [= <- <-] HP. exists c1. rewrite Hd. auto. }
  match goal with
  | |- context [fold_left ?f ?l ?a] =>
      assert (map_Forall (fun _ => P) (deals c) ->
              map_Forall (fun _ => P) (deals (fold_left f l a).1)) as Hfold
  end.
  { intros HP.
    apply (fold_left_invariant (fun st => map_Forall (fun _ => P) (deals st.1))).
    - intros [c2 k] deal_id HP2. cbn [fst snd] in *.
      destruct (update_reactivate now c2 deal_id) as [c3 [u|e]] eqn:Hu; cbn [fst];
        eapply update_reactivate_keeps; eauto.
    - cbn [fst]. rewrite Hd. exact HP. }
  destruct (fold_left _ _ _) as [c2 k]. intros [= <- <-] HP.
  exists c2. split; [reflexivity|]. apply Hfold, HP.
Qed.
End PassKeeps.

(** *** What the health checker finds *)

Lemma health_rows_bounded rows : Forall bounded rows ->
  forall over nulls latest,
    (fold_left health_row rows (over, nulls, latest)).1.1 = over.
Proof.
  induction 1 as [|row rows Hrow _ IH]; intros over nulls latest; [reflexivity|].
  cbn [fold_left]. unfold health_row at 2. unfold bounded in Hrow.
  destruct (d_evidence_urls row) as [l|].
  - destruct (20 <? length l)%nat eqn:E; [apply Nat.ltb_lt in E; lia|]. apply IH.
  - apply IH.
Qed.

Lemma map_Forall_values (P : deal -> Prop) (m : gmap string deal) :
  map_Forall (fun _ => P) m -> Forall P (map_to_list m).*2.
Proof.
  intros H. apply Forall_fmap. apply map_Forall_to_list in H.
  eapply Forall_impl; [exact H|]. intros [k row]. auto.
Qed.

Lemma health_check_bounded now c started :
  map_Forall (fun _ => bounded) (deals c) ->
  evidence_over_20 (health_check_deals now (Some c) started).2 = 0.
Proof.
  intros HP. unfold health_check_deals.
  pose proof (call_deals c) as Hd.
  destruct (call c) as [raises c1]; simpl in Hd.
  destruct raises; [reflexivity|].
  pose proof (health_rows_bounded _ (map_Forall_values _ _ HP) 0 0 None) as Hover.
  rewrite <- Hd in Hover.
  destruct (fold_left health_row _ _) as [[over nulls] latest].
  destruct (call c1) as [raises2 c2]. exact Hover.
Qed.

Lemma archived_filter_quiet t rows : Forall (quiet t) rows ->
  filter (fun row => String.eqb (d_status row) "archived"
                     && match d_last_seen_at row with
                        | Some seen => t <? seen
                        | None => false
                        end) rows = [].
Proof.
  induction 1 as [|row rows Hrow _ IH]; [reflexivity|].
  rewrite filter_cons_False; [exact IH|].
  intros Hb. apply andb_prop_elim in Hb as [Ha Hs].
  apply Is_true_true, String.eqb_eq in Ha. specialize (Hrow Ha).
  destruct (d_last_seen_at row) as [seen|]; [|exact Hs].
  apply Is_true_true, Z.ltb_lt in Hs. lia.
Qed.

Lemma health_check_quiet now c started :
  map_Forall (fun _ => quiet started) (deals c) ->
  archived_updated_last_2h (health_check_deals now (Some c) (Some started)).2 = 0.
Proof.
  intros HP. unfold health_check_deals.
  pose proof (call_deals c) as Hd.
  destruct (call c) as [raises c1]; simpl in Hd.
  destruct raises; [reflexivity|].
  destruct (fold_left health_row _ _) as [[over nulls] latest].
  pose proof (call_deals c1) as Hd2.
  destruct (call c1) as [raises2 c2]; simpl in Hd2.
  destruct raises2; [reflexivity|]. cbn.
  rewrite Hd2, Hd, (archived_filter_quiet _ _ (map_Forall_values _ _ HP)). reflexivity.
Qed.

(** *** Existing rows persist *)

Lemma grown_refl row : grown row row.
Proof. unfold grown. repeat split; lia. Qed.

Lemma grown_trans r1 r2 r3 : grown r1 r2 -> grown r2 r3 -> grown r1 r3.
Proof.
  intros (Ha & Hb & Hc & Hd) (Ha' & Hb' & Hc' & Hd'). unfold grown.
  repeat split; try congruence. lia.
Qed.

Lemma sighted_grown now row row' : sighted now row row' -> grown row row'.
Proof.
  intros (Ha & Hb & Hc & Hs & _). unfold grown. repeat split; try assumption.
  rewrite Hs. cbn. lia.
Qed.

Lemma upsert_deal_grows bok fi lo now topic_name c n it c' n' oe k row :
  upsert_deal bok fi lo now topic_name (c, n) it = (c', n', oe) ->
  (exists row1, deals c !! k = Some row1 /\ grown row row1) ->
  exists row2, deals c' !! k = Some row2 /\ grown row row2.
Proof.
  intros Hstep (row1 & Hk & Hg).
  apply upsert_deal_writes in Hstep as [[-> _] | (row' & -> & Hrow)]; [eauto|].
  destruct (decide (item_dedupe_key bok it = k)) as [Heq|Hne].
  - rewrite Heq, Hk in Hrow. destruct Hrow as (_ & Hs & _).
    exists row'. rewrite Heq, lookup_insert_eq. split; [reflexivity|].
    eapply grown_trans; [exact Hg|]. eapply sighted_grown, Hs.
  - exists row1. rewrite lookup_insert_ne by exact Hne. auto.
Qed.

Lemma upsert_loop_grows bok fi lo now topic_name items k row : forall c n c' r,
  upsert_loop bok fi lo now topic_name (c, n) items = (c', r) ->
  (exists row1, deals c !! k = Some row1 /\ grown row row1) ->
  exists row2, deals c' !! k = Some row2 /\ grown row row2.
Proof.
  induction items as [|it rest IH]; intros c n c' r; cbn [upsert_loop].
  - intros [= <- <-]. auto.
  - destruct (upsert_deal bok fi lo now topic_name (c, n) it) as [[c1 n1] [e|]] eqn:Hstep.
    + intros [= <- <-] H. eapply upsert_deal_grows; eauto.
    + intros Hloop H. eapply IH; [exact Hloop|]. eapply upsert_deal_grows; eauto.
Qed.

(** *** Counters *)

Lemma upsert_deal_counts bok fi lo now topic_name c n it c' n' oe :
  upsert_deal bok fi lo now topic_name (c, n) it = (c', n', oe) ->
  processed n <= processed n'
  /\ errors n <= errors n'
  /\ reactivated n <= reactivated n' <= reactivated n + 1
  /\ processed n' + errors n' <= processed n + errors n + 1
  /\ (oe = None \/ oe = Some AssertionError).
Proof.
  unfold upsert_deal.
  destruct (negb (truthy (i_link it)) || negb (truthy (i_title it))).
  { intros [= <- <- <-]. repeat split; auto; lia. }
  destruct (generate_evidence_urls bok it (i_link it)) as [evs|e] eqn:Hev.
  2:{ intros [= <- <- <-]. repeat split; auto; try lia.
      right. f_equal. unfold generate_evidence_urls in Hev.
      destruct (0 <? _)%nat; congruence. }
  repeat (match goal with
          | |- context [if negb ?b then _ else _] => destruct b; cbn [negb]
          end; [| intros [= <- <- <-]; repeat split; auto; lia ] ).
  destruct (select_by_key c _) as [c1 [existing|e]];
    [|intros [= <- <- <-]; cbn; repeat split; auto; lia].
  destruct (match existing with Some row => _ | None => false end).
  { intros [= <- <- <-]. repeat split; auto; lia. }
  destruct (upsert c1 _) as [c2 [u|e]];
    destruct (decide_status fi lo now existing);
    intros [= <- <- <-]; cbn; repeat split; auto; lia.
Qed.

Lemma upsert_loop_counts bok fi lo now topic_name items : forall c n c' r,
  upsert_loop bok fi lo now topic_name (c, n) items = (c', r) ->
  match r with
  | Ok n' =>
      processed n <= processed n'
      /\ errors n <= errors n'
      /\ reactivated n <= reactivated n' <= reactivated n + Z.of_nat (length items)
      /\ processed n' + errors n' <= processed n + errors n + Z.of_nat (length items)
  | Raise e => e = AssertionError
  end.
Proof.
  induction items as [|it rest IH]; intros c n c' r; cbn [upsert_loop].
  - intros [= <- <-]. cbn. lia.
  - destruct (upsert_deal bok fi lo now topic_name (c, n) it) as [[c1 n1] [e|]] eqn:Hstep;
      apply upsert_deal_counts in Hstep as (H1 & H2 & H3 & H4 & H5).
    + intros [= <- <-]. destruct H5 as [?|?]; congruence.
    + intros Hloop. apply IH in Hloop. destruct r as [n'|e]; [|exact Hloop].
      cbn [length]. lia.
Qed.

(** *** A turn of the loop when the store fails *)

Lemma upsert_deal_reaches_store bok fi lo now topic_name c n it :
  accepted bok it ->
  exists evs,
    generate_evidence_urls bok it (i_link it) = Ok evs
    /\ upsert_deal bok fi lo now topic_name (c, n) it
       = match select_by_key c (item_dedupe_key bok it) with
         | (c, Raise _) =>
             (c, mkStats (processed n) (reactivated n) (errors n + 1), None)
         | (c, Ok existing_deal) =>
             if match existing_deal with
                | Some row => String.eqb (d_status row) "archived"
                | None => false
                end
             then (c, n, None)
             else
               let status := decide_status fi lo now existing_deal in
               let n :=
                 match status with
                 | Some _ => mkStats (processed n) (reactivated n + 1) (errors n)
                 | None => n
                 end in
               match upsert c
                       (build_data now topic_name it (item_dedupe_key bok it)
                          (get_hostname bok (i_link it))
                          (generate_canonical_name it (i_title it)
                             (get_hostname bok (i_link it)))
                          (generate_one_liner it (i_snippet it) (i_title it))
                          (normalize_url bok (i_link it)) evs existing_deal status) with
               | (c, Ok _) =>
                   (c, mkStats (processed n + 1) (reactivated n) (errors n), None)
               | (c, Raise _) => (c, n, None)
               end
         end.
Proof.
  intros (Hl & Ht & [evs Hev] & Hcn & Hol). exists evs. split; [exact Hev|].
  unfold upsert_deal.
  assert (truthy (i_link it) = true) as ->
    by (destruct (i_link it) eqn:E; [congruence|reflexivity]).
  assert (truthy (i_title it) = true) as ->
    by (destruct (i_title it) eqn:E; [congruence|reflexivity]).
  cbn [negb orb]. rewrite Hev.
  rewrite (assertion_holds _ Hcn), (assertion_holds _ Hol).
  rewrite (generate_evidence_urls_nonempty _ _ _ _ Hev). cbn [negb].
  reflexivity.
Qed.

(** X1: when the lookup of an accepted record raises, the record is counted in
    [errors] and nothing else happens to it: the loop goes on with the
    next record, the table and the other counters as they were. *)
Theorem failed_lookup_skips_the_record :
  forall bok fi lo now topic_name c n it rest fs,
    accepted bok it ->
    faults c = true :: fs ->
    upsert_loop bok fi lo now topic_name (c, n) (it :: rest)
    = upsert_loop bok fi lo now topic_name
        (mkClient (deals c) (next_id c) fs,
         mkStats (processed n) (reactivated n) (errors n + 1)) rest.
Proof.
  intros bok fi lo now topic_name c n it rest fs Hacc Hf.
  cbn [upsert_loop].
  destruct (upsert_deal_reaches_store bok fi lo now topic_name c n it Hacc)
    as (evs & _ & ->).
  unfold select_by_key, call. rewrite Hf. reflexivity.
Qed.

Lemma failed_lookup_skips_the_record_witness :
  upsert_loop accept_bracketed Datetime.fromisoformat_basic utc_zone jan_10 "ai"
    (mkClient ∅ 1 [true], mkStats 0 0 0) [blog_post]
  = upsert_loop accept_bracketed Datetime.fromisoformat_basic utc_zone jan_10 "ai"
      (mkClient ∅ 1 [], mkStats 0 0 1) [].
Proof.
  apply (failed_lookup_skips_the_record accept_bracketed Datetime.fromisoformat_basic utc_zone
           jan_10 "ai" (mkClient ∅ 1 [true]) (mkStats 0 0 0) blog_post [] []).
  - exact blog_post_accepted.
  - reflexivity.
Defined.

(** X2: when the lookup of an accepted record succeeds and its write raises,
    the table is left as it was and neither [processed] nor [errors]
    moves; [reactivated] has already been incremented if the row was
    dismissed without a [dismissed_at], although the row stays
    dismissed. *)
Theorem failed_write_leaves_the_table :
  forall bok fi lo now topic_name c n it rest fs,
    accepted bok it ->
    faults c = false :: true :: fs ->
    match deals c !! item_dedupe_key bok it with
    | Some row => d_status row <> "archived"
    | None => True
    end ->
    upsert_loop bok fi lo now topic_name (c, n) (it :: rest)
    = upsert_loop bok fi lo now topic_name
        (mkClient (deals c) (next_id c) fs,
         match deals c !! item_dedupe_key bok it with
         | Some row =>
             if String.eqb (d_status row) "dismissed"
             then match d_dismissed_at row with
                  | Some _ => n
                  | None => mkStats (processed n) (reactivated n + 1) (errors n)
                  end
             else n
         | None => n
         end) rest.
Proof.
  intros bok fi lo now topic_name c n it rest fs Hacc Hf Hna.
  cbn [upsert_loop].
  destruct (upsert_deal_reaches_store bok fi lo now topic_name c n it Hacc)
    as (evs & _ & ->).
  unfold select_by_key, call. rewrite Hf. cbn [deals next_id faults].
  rewrite decide_status_spec.
  destruct (deals c !! item_dedupe_key bok it) as [row|] eqn:Hrow.
  - apply String.eqb_neq in Hna. rewrite Hna.
    unfold upsert, call. cbn [deals next_id faults].
    destruct (String.eqb (d_status row) "dismissed"); [|reflexivity].
    destruct (d_dismissed_at row); reflexivity.
  - unfold upsert, call. cbn [deals next_id faults]. reflexivity.
Qed.

Lemma failed_write_leaves_the_table_witness :
  upsert_loop accept_bracketed Datetime.fromisoformat_basic utc_zone jan_10 "ai"
    (store_with (curated "dismissed" None None) [false; true], mkStats 0 0 0) [blog_post]
  = upsert_loop accept_bracketed Datetime.fromisoformat_basic utc_zone jan_10 "ai"
      (store_with (curated "dismissed" None None) [], mkStats 0 1 0) [].
Proof.
  apply (failed_write_leaves_the_table accept_bracketed Datetime.fromisoformat_basic utc_zone
           jan_10 "ai" (store_with (curated "dismissed" None None) [false; true])
           (mkStats 0 0 0) blog_post [] []).
  - exact blog_post_accepted.
  - reflexivity.
  - vm_compute. discriminate.
Defined.

(** *** A sighting that goes through *)

(** X3: with a store that answers, an accepted record whose key is not in the
    table creates one row under that key: a fresh [id], status [new],
    [seen_count] 1, [first_seen_at], [last_seen_at] and [created_at] at
    the instant of the batch, the normalised link as [url], and the first
    20 evidence URLs of the record; it is counted once as processed. *)
Theorem first_sighting_creates_the_deal :
  forall bok fi lo now topic_name c it,
    accepted bok it ->
    faults c = [] ->
    deals c !! item_dedupe_key bok it = None ->
    exists c' row' evs,
      upsert_deals bok fi lo now (Some c) [it] topic_name = (Some c', Ok (mkStats 1 0 0))
      /\ deals c' = <[item_dedupe_key bok it := row']> (deals c)
      /\ next_id c' = next_id c + 1
      /\ d_id row' = next_id c
      /\ d_status row' = "new"
      /\ d_seen_count row' = Some 1
      /\ d_first_seen_at row' = Some now
      /\ d_last_seen_at row' = Some now
      /\ d_created_at row' = Some now
      /\ d_dismissed_reason row' = None
      /\ d_dismissed_at row' = None
      /\ d_url row' = normalize_url bok (i_link it)
      /\ d_title row' = i_title it
      /\ d_topic row' = topic_name
      /\ d_score row' = i_score it
      /\ generate_evidence_urls bok it (i_link it) = Ok evs
      /\ d_evidence_urls row' = Some (firstn 20 evs).
Proof.
  intros bok fi lo now topic_name c it Hacc Hf Hnone.
  destruct Hacc as (Hl & Ht & [evs Hev] & Hcn & Hol).
  assert (accepted bok it) as Hacc by (repeat split; eauto).
  pose proof (upsert_deal_accepted bok fi lo now topic_name c (mkStats 0 0 0) it evs
                Hacc Hev Hf) as Hstep.
  cbn zeta in Hstep. rewrite Hnone in Hstep. cbn [decide_status default] in Hstep.
  apply upsert_deals_single in Hstep.
  eexists _, _, evs. split; [exact Hstep|].
  split; [reflexivity|]. split; [reflexivity|].
  repeat split; try reflexivity; try exact Hev.
  cbn. destruct (i_score it); reflexivity.
Qed.

Lemma first_sighting_creates_the_deal_witness :
  let bok := accept_bracketed in
  let c := empty_store in
  let it := blog_post in
  let now := jan_10 in
  let topic_name := "ai" in
  exists c' row' evs,
    upsert_deals bok Datetime.fromisoformat_basic utc_zone now (Some c) [it] topic_name
    = (Some c', Ok (mkStats 1 0 0))
    /\ deals c' = <[item_dedupe_key bok it := row']> (deals c)
    /\ next_id c' = next_id c + 1
    /\ d_id row' = next_id c
    /\ d_status row' = "new"
    /\ d_seen_count row' = Some 1
    /\ d_first_seen_at row' = Some now
    /\ d_last_seen_at row' = Some now
    /\ d_created_at row' = Some now
    /\ d_dismissed_reason row' = None
    /\ d_dismissed_at row' = None
    /\ d_url row' = normalize_url bok (i_link it)
    /\ d_title row' = i_title it
    /\ d_topic row' = topic_name
    /\ d_score row' = i_score it
    /\ generate_evidence_urls bok it (i_link it) = Ok evs
    /\ d_evidence_urls row' = Some (firstn 20 evs).
Proof.
  intros bok c it now topic_name.
  apply (first_sighting_creates_the_deal bok Datetime.fromisoformat_basic utc_zone now
           topic_name c it).
  - exact blog_post_accepted.
  - reflexivity.
  - reflexivity.
Defined.

(** X4: with a store that answers, an accepted record whose key holds a row
    that is not archived rewrites that row in place: [id],
    [first_seen_at] and [created_at] stay, [seen_count] grows by one (a
    null count reads as 0), [last_seen_at] and [updated_at] become the
    instant of the batch, and [score] is replaced only if the record
    carries one. *)
Theorem sighting_advances_the_deal :
  forall bok fi lo now topic_name c it row,
    accepted bok it ->
    faults c = [] ->
    deals c !! item_dedupe_key bok it = Some row ->
    d_status row <> "archived" ->
    exists c' n' row',
      upsert_deals bok fi lo now (Some c) [it] topic_name = (Some c', Ok n')
      /\ processed n' = 1 /\ errors n' = 0
      /\ deals c' = <[item_dedupe_key bok it := row']> (deals c)
      /\ next_id c' = next_id c
      /\ d_id row' = d_id row
      /\ d_first_seen_at row' = d_first_seen_at row
      /\ d_created_at row' = d_created_at row
      /\ d_seen_count row' = Some (default 0 (d_seen_count row) + 1)
      /\ d_last_seen_at row' = Some now
      /\ d_updated_at row' = Some now
      /\ d_url row' = normalize_url bok (i_link it)
      /\ d_title row' = i_title it
      /\ d_topic row' = topic_name
      /\ d_score row' = match i_score it with Some s => Some s | None => d_score row end.
Proof.
  intros bok fi lo now topic_name c it row Hacc Hf Hrow Hna.
  destruct Hacc as (Hl & Ht & [evs Hev] & Hcn & Hol).
  assert (accepted bok it) as Hacc by (repeat split; eauto).
  pose proof (upsert_deal_accepted bok fi lo now topic_name c (mkStats 0 0 0) it evs
                Hacc Hev Hf) as Hstep.
  cbn zeta in Hstep. rewrite Hrow in Hstep.
  apply String.eqb_neq in Hna. rewrite Hna in Hstep. cbn [default] in Hstep.
  apply upsert_deals_single in Hstep.
  eexists _, _, _. split; [exact Hstep|].
  repeat split; try reflexivity.
  cbn. destruct (i_score it); reflexivity.
Qed.

Lemma sighting_advances_the_deal_witness :
  let bok := accept_bracketed in
  let row := crowded in
  let c := store_with row [] in
  let it := blog_post in
  let now := jan_10 in
  let topic_name := "ai" in
  exists c' n' row',
    upsert_deals bok Datetime.fromisoformat_basic utc_zone now (Some c) [it] topic_name
    = (Some c', Ok n')
    /\ processed n' = 1 /\ errors n' = 0
    /\ deals c' = <[item_dedupe_key bok it := row']> (deals c)
    /\ next_id c' = next_id c
    /\ d_id row' = d_id row
    /\ d_first_seen_at row' = d_first_seen_at row
    /\ d_created_at row' = d_created_at row
    /\ d_seen_count row' = Some (default 0 (d_seen_count row) + 1)
    /\ d_last_seen_at row' = Some now
    /\ d_updated_at row' = Some now
    /\ d_url row' = normalize_url bok (i_link it)
    /\ d_title row' = i_title it
    /\ d_topic row' = topic_name
    /\ d_score row' = match i_score it with Some s => Some s | None => d_score row end.
Proof.
  intros bok row c it now topic_name.
  apply (sighting_advances_the_deal bok Datetime.fromisoformat_basic utc_zone now
           topic_name c it row).
  - exact blog_post_accepted.
  - reflexivity.
  - vm_compute. reflexivity.
  - discriminate.
Defined.

(** X5: what a sighting does to the status of an existing row that is not
    archived: a dismissed row without a [dismissed_at] becomes [new], with
    [dismissed_reason] cleared, and is counted as reactivated; every other
    row, a dismissed one with a [dismissed_at] included, keeps its status,
    [dismissed_reason] and [dismissed_at]. *)
Theorem status_after_a_sighting :
  forall bok fi lo now topic_name c it row,
    accepted bok it ->
    faults c = [] ->
    deals c !! item_dedupe_key bok it = Some row ->
    d_status row <> "archived" ->
    exists c' n' row',
      upsert_deals bok fi lo now (Some c) [it] topic_name = (Some c', Ok n')
      /\ deals c' !! item_dedupe_key bok it = Some row'
      /\ if String.eqb (d_status row) "dismissed"
            && match d_dismissed_at row with Some _ => false | None => true end
         then d_status row' = "new"
              /\ d_dismissed_reason row' = None
              /\ d_dismissed_at row' = None
              /\ reactivated n' = 1
         else d_status row' = d_status row
              /\ d_dismissed_reason row' = d_dismissed_reason row
              /\ d_dismissed_at row' = d_dismissed_at row
              /\ reactivated n' = 0.
Proof.
  intros bok fi lo now topic_name c it row Hacc Hf Hrow Hna.
  destruct Hacc as (Hl & Ht & [evs Hev] & Hcn & Hol).
  assert (accepted bok it) as Hacc by (repeat split; eauto).
  pose proof (upsert_deal_accepted bok fi lo now topic_name c (mkStats 0 0 0) it evs
                Hacc Hev Hf) as Hstep.
  cbn zeta in Hstep. rewrite Hrow in Hstep.
  apply String.eqb_neq in Hna. rewrite Hna in Hstep. cbn [default] in Hstep.
  apply upsert_deals_single in Hstep.
  eexists _, _, _. split; [exact Hstep|].
  split; [cbn [deals]; apply lookup_insert_eq|].
  rewrite decide_status_spec.
  unfold overlay, build_data. cbn -[merged_evidence String.eqb].
  destruct (String.eqb (d_status row) "dismissed") eqn:Ed.
  - apply String.eqb_eq in Ed. rewrite Ed. cbn.
    destruct (d_dismissed_at row); cbn; auto.
  - cbn. destruct (String.eqb (d_status row) "shortlisted"); cbn; auto.
Qed.

Lemma status_after_a_sighting_witness :
  let bok := accept_bracketed in
  let row := curated "dismissed" None None in
  let c := store_with row [] in
  let it := blog_post in
  exists c' n' row',
    upsert_deals bok Datetime.fromisoformat_basic utc_zone jan_10 (Some c) [it] "ai"
    = (Some c', Ok n')
    /\ deals c' !! item_dedupe_key bok it = Some row'
    /\ if String.eqb (d_status row) "dismissed"
          && match d_dismissed_at row with Some _ => false | None => true end
       then d_status row' = "new"
            /\ d_dismissed_reason row' = None
            /\ d_dismissed_at row' = None
            /\ reactivated n' = 1
       else d_status row' = d_status row
            /\ d_dismissed_reason row' = d_dismissed_reason row
            /\ d_dismissed_at row' = d_dismissed_at row
            /\ reactivated n' = 0.
Proof.
  intros bok row c it.
  apply (status_after_a_sighting bok Datetime.fromisoformat_basic utc_zone jan_10 "ai"
           c it row).
  - exact blog_post_accepted.
  - reflexivity.
  - vm_compute. reflexivity.
  - discriminate.
Defined.

(** *** Whole batches *)

(** X6: [upsert_deals] deletes nothing: whatever the records and the store's
    failures, and whether the batch ends normally or not, a row of the
    table is still there afterwards under its key, with the same [id],
    [first_seen_at] and [created_at], and a [seen_count] that has not
    decreased. *)
Theorem existing_deals_persist :
  forall bok fi lo now topic_name items c k row cl' r,
    deals c !! k = Some row ->
    upsert_deals bok fi lo now (Some c) items topic_name = (cl', r) ->
    exists c' row',
      cl' = Some c'
      /\ deals c' !! k = Some row'
      /\ d_id row' = d_id row
      /\ d_first_seen_at row' = d_first_seen_at row
      /\ d_created_at row' = d_created_at row
      /\ default 0 (d_seen_count row) <= default 0 (d_seen_count row').
Proof.
  intros bok fi lo now topic_name items c k row cl' r Hk. unfold upsert_deals.
  destruct (upsert_loop bok fi lo now topic_name (c, mkStats 0 0 0) items) as [c' r'] eqn:Hl.
  intros [= <- <-].
  destruct (upsert_loop_grows _ _ _ _ _ _ k row _ _ _ _ Hl) as (row' & Hk' & Hg).
  { exists row. split; [exact Hk | apply grown_refl]. }
  exists c', row'. split; [reflexivity|]. split; [exact Hk'|]. exact Hg.
Qed.

Lemma existing_deals_persist_witness :
  let bok := accept_bracketed in
  let row := crowded in
  let c := store_with row [] in
  let k := blog_post_key in
  let result :=
    upsert_deals bok Datetime.fromisoformat_basic utc_zone jan_10 (Some c)
      [blog_post; record_of "https://example.org/news" "Bar"] "ai" in
  exists c' row',
    result.1 = Some c'
    /\ deals c' !! k = Some row'
    /\ d_id row' = d_id row
    /\ d_first_seen_at row' = d_first_seen_at row
    /\ d_created_at row' = d_created_at row
    /\ default 0 (d_seen_count row) <= default 0 (d_seen_count row').
Proof.
  intros bok row c k result.
  apply (existing_deals_persist bok Datetime.fromisoformat_basic utc_zone jan_10 "ai"
           [blog_post; record_of "https://example.org/news" "Bar"] c k row
           result.1 result.2).
  - vm_compute. reflexivity.
  - apply surjective_pairing.
Defined.

Lemma upsert_deals_counts bok fi lo now topic_name items cl cl' n :
  upsert_deals bok fi lo now cl items topic_name = (cl', Ok n) ->
  0 <= processed n
  /\ 0 <= errors n
  /\ 0 <= reactivated n <= Z.of_nat (length items)
  /\ processed n + errors n <= Z.of_nat (length items).
Proof.
  unfold upsert_deals.
  destruct cl as [c|]; [|intros [= <- <-]; cbn; lia].
  destruct (upsert_loop bok fi lo now topic_name (c, mkStats 0 0 0) items) as [c' r] eqn:Hl.
  intros [= <- ->]. apply upsert_loop_counts in Hl. cbn in Hl. lia.
Qed.

Lemma upsert_deals_raises_assertion bok fi lo now topic_name items cl cl' e :
  upsert_deals bok fi lo now cl items topic_name = (cl', Raise e) ->
  e = AssertionError.
Proof.
  unfold upsert_deals.
  destruct cl as [c|]; [|discriminate].
  destruct (upsert_loop bok fi lo now topic_name (c, mkStats 0 0 0) items) as [c' r] eqn:Hl.
  intros [= <- ->]. apply upsert_loop_counts in Hl. exact Hl.
Qed.

Lemma ingest_raises_assertion bok fi lo batches : forall cl cl' e,
  ingest bok fi lo cl batches = (cl', Raise e) -> e = AssertionError.
Proof.
  induction batches as [|[[topic_name results] now] rest IH]; intros cl cl' e;
    cbn [ingest]; [discriminate|].
  destruct results as [|x xs]; [apply IH|].
  destruct (upsert_deals bok fi lo now cl (x :: xs) topic_name) as [cl2 [s|e2]] eqn:Hu.
  - apply IH.
  - intros [= _ ->]. eapply upsert_deals_raises_assertion, Hu.
Qed.

(** X7: a batch ends in one of two ways.  Either it returns its counters,
    which are not negative, with [processed + errors] and [reactivated] at
    most the number of records; or an exception leaves it, and then it is
    an [AssertionError]: a failure of the store never leaves
    [upsert_deals]. *)
Theorem batch_ends_with_counts_or_an_assertion :
  forall bok fi lo now topic_name items cl,
    match (upsert_deals bok fi lo now cl items topic_name).2 with
    | Ok n =>
        0 <= processed n
        /\ 0 <= errors n
        /\ 0 <= reactivated n <= Z.of_nat (length items)
        /\ processed n + errors n <= Z.of_nat (length items)
    | Raise e => e = AssertionError
    end.
Proof.
  intros bok fi lo now topic_name items cl.
  destruct (upsert_deals bok fi lo now cl items topic_name) as [cl' [n|e]] eqn:Hu; cbn [snd].
  - eapply upsert_deals_counts, Hu.
  - eapply upsert_deals_raises_assertion, Hu.
Qed.

Lemma reactivated_row_quiet t now row : quiet t row -> quiet t (reactivated_row now row).
Proof. intros _ Harch. discriminate. Qed.

(** X8: if no archived row was last seen after the start of the run, then a run
    whose configuration loads and whose report is not refused by the store
    ends with exit code 0 or with an [AssertionError]: the archived check
    of the health checker never finds a row, since the engine writes no
    archived row and never makes a row archived. *)
Theorem run_never_trips_the_archived_alarm :
  forall bok fi lo env c,
    config_loads env = true ->
    report_saved env <> Some false ->
    map_Forall (fun _ => quiet (start_time env)) (deals c) ->
    (main bok fi lo env (Some c)).2 = Ok 0
    \/ (main bok fi lo env (Some c)).2 = Raise AssertionError.
Proof.
  intros bok fi lo env c Hcfg Hrep HP.
  unfold main. rewrite Hcfg. cbn [negb].
  destruct (ingest bok fi lo (Some c) (searches env)) as [cl1 r1] eqn:Hing.
  destruct (ingest_keeps bok fi lo (quiet (start_time env))
              (fun now row row' => sighted_quiet (start_time env) now row row')
              (first_sighted_quiet (start_time env)) _ _ _ _ Hing HP) as (c1 & -> & HP1).
  destruct r1 as [u|e].
  2:{ right. cbn. f_equal. eapply ingest_raises_assertion, Hing. }
  left.
  destruct (report_saved env) as [[|]|] eqn:Hrs; try congruence.
  all: destruct (reactivate_dismissed_deals (reactivate_time env) (Some c1))
         as [cl2 k] eqn:Hre;
       destruct (reactivate_dismissed_deals_keeps (quiet (start_time env))
                   (reactivate_time env)
                   (reactivated_row_quiet (start_time env) (reactivate_time env))
                   _ _ _ Hre HP1) as (c2 & -> & HP2);
       unfold health_exit;
       pose proof (health_check_quiet (health_time env) c2 (start_time env) HP2) as Hq;
       destruct (health_check_deals _ _ _) as [cl3 h]; cbn [snd] in Hq; rewrite Hq;
       reflexivity.
Qed.

Lemma run_never_trips_the_archived_alarm_witness :
  let env :=
    mkRun true [("ai", [blog_post], jan_10 + 1)] (Some true) jan_10 (jan_10 + 2) (jan_10 + 3) in
  let c :=
    store_with (curated "archived" None (Some (jan_10 - Datetime.timedelta_days 1))) [] in
  (main accept_bracketed Datetime.fromisoformat_basic utc_zone env (Some c)).2 = Ok 0
  \/ (main accept_bracketed Datetime.fromisoformat_basic utc_zone env (Some c)).2
     = Raise AssertionError.
Proof.
  intros env c.
  apply (run_never_trips_the_archived_alarm accept_bracketed Datetime.fromisoformat_basic
           utc_zone env c).
  - reflexivity.
  - discriminate.
  - apply map_Forall_singleton. intros _. vm_compute. discriminate.
Defined.

(** * Further properties of the reactivation pass *)

Lemma reactivated_row_twice now row :
  reactivated_row now (reactivated_row now row) = reactivated_row now row.
Proof. reflexivity. Qed.

(** the updates of the pass, whichever of them fail *)
Lemma revive_fold_frame now ids : forall c acc c' acc',
  fold_left
    (fun st deal_id =>
       match update_reactivate now (fst st) deal_id with
       | (c, Ok _) => (c, snd st + 1)
       | (c, Raise _) => (c, snd st)
       end) ids (c, acc) = (c', acc') ->
  next_id c' = next_id c
  /\ acc <= acc' <= acc + Z.of_nat (length ids)
  /\ forall k,
      match deals c !! k with
      | Some row =>
          deals c' !! k = Some row
          \/ (d_id row ∈ ids /\ deals c' !! k = Some (reactivated_row now row))
      | None => deals c' !! k = None
      end.
Proof.
  induction ids as [|id ids IH]; intros c acc c' acc'; cbn [fold_left].
  - intros [= <- <-]. split; [reflexivity|]. split; [cbn; lia|].
    intros k. destruct (deals c !! k); auto.
  - cbn [fst snd].
    destruct (update_reactivate now c id) as [c1 r] eqn:Hu.
    apply update_reactivate_inv in Hu as (Hn & Hu).
    intros Hfold.
    assert (exists acc1, acc <= acc1 <= acc + 1
              /\ fold_left
                   (fun st deal_id =>
                      match update_reactivate now (fst st) deal_id with
                      | (c, Ok _) => (c, snd st + 1)
                      | (c, Raise _) => (c, snd st)
                      end) ids (c1, acc1) = (c', acc')) as (acc1 & Hacc & Hfold').
    { destruct r; [exists (acc + 1) | exists acc]; (split; [lia | exact Hfold]). }
    apply IH in Hfold' as (Hn' & Hacc' & Hrows).
    split; [congruence|]. split; [cbn [length]; lia|].
    intros k. specialize (Hrows k).
    destruct Hu as [(_ & Hd) | (_ & Hd)]; rewrite Hd in Hrows.
    + destruct (deals c !! k) as [row|]; [|exact Hrows].
      destruct Hrows as [H | [Hin H]]; [auto|].
      right. split; [apply elem_of_cons; auto | exact H].
    + rewrite lookup_fmap in Hrows.
      destruct (deals c !! k) as [row|]; cbn in Hrows; [|exact Hrows].
      destruct (d_id row =? id) eqn:E.
      * apply Z.eqb_eq in E. right. split; [apply elem_of_cons; auto|].
        destruct Hrows as [H | [_ H]]; exact H.
      * destruct Hrows as [H | [Hin H]]; [auto|].
        right. split; [apply elem_of_cons; auto | exact H].
Qed.

Lemma selected_ids now (m : gmap string deal) id :
  id ∈ d_id <$> filter (fun row => selected now row) (map_to_list m).*2 ->
  exists k row, m !! k = Some row /\ d_id row = id /\ selected now row = true.
Proof.
  intros H. apply list_elem_of_fmap in H as (row & -> & H).
  apply list_elem_of_filter in H as [Hs H].
  apply list_elem_of_fmap in H as ([k row'] & -> & H).
  apply elem_of_map_to_list in H. exists k, row'. cbn.
  split; [exact H|]. split; [reflexivity|]. apply Is_true_true, Hs.
Qed.



Lemma revive_fold_all now ids : forall c acc,
  faults c = [] ->
  fold_left
    (fun st deal_id =>
       match update_reactivate now (fst st) deal_id with
       | (c, Ok _) => (c, snd st + 1)
       | (c, Raise _) => (c, snd st)
       end) ids (c, acc)
  = (mkClient
       ((fun row => if bool_decide (d_id row ∈ ids) then reactivated_row now row else row)
          <$> deals c)
       (next_id c) [],
     acc + Z.of_nat (length ids)).
Proof.
  induction ids as [|id ids IH]; intros c acc Hf; cbn [fold_left fst snd].
  - destruct c as [m i f]; cbn in *; subst f. f_equal; [|lia]. f_equal.
    rewrite <- (map_fmap_id m) at 1. apply map_fmap_ext. intros k row _.
    rewrite bool_decide_eq_false_2; [reflexivity | apply not_elem_of_nil].
  - assert (update_reactivate now c id
            = (mkClient
                 ((fun row => if d_id row =? id then reactivated_row now row else row)
                    <$> deals c) (next_id c) [], Ok tt)) as ->
      by (unfold update_reactivate, call; rewrite Hf; cbn [faults]; rewrite Hf; reflexivity).
    rewrite IH by reflexivity. cbn [deals next_id faults length].
    f_equal; [|lia]. f_equal. rewrite <- map_fmap_compose.
    apply map_fmap_ext. intros k row _. cbn.
    destruct (d_id row =? id) eqn:E.
    + apply Z.eqb_eq in E.
      rewrite (bool_decide_eq_true_2 (d_id row ∈ id :: ids))
        by (rewrite E; apply elem_of_cons; auto).
      destruct (bool_decide _); reflexivity.
    + apply Z.eqb_neq in E.
      destruct (bool_decide (d_id row ∈ ids)) eqn:B.
      * apply bool_decide_eq_true_1 in B.
        rewrite bool_decide_eq_true_2 by (apply elem_of_cons; auto). reflexivity.
      * apply bool_decide_eq_false_1 in B.
        rewrite bool_decide_eq_false_2; [reflexivity|].
        intros [H|H]%elem_of_cons; auto.
Qed.

Lemma selected_in_ids now (m : gmap string deal) k row :
  m !! k = Some row -> selected now row = true ->
  d_id row ∈ d_id <$> filter (fun row => selected now row) (map_to_list m).*2.
Proof.
  intros Hk Hs. apply list_elem_of_fmap. exists row. split; [reflexivity|].
  apply list_elem_of_filter. split; [apply Is_true_true, Hs|].
  apply list_elem_of_fmap. exists (k, row). split; [reflexivity|].
  apply elem_of_map_to_list, Hk.
Qed.

Lemma reactivate_dismissed_deals_answers now c :
  unique_ids (deals c) ->
  faults c = [] ->
  reactivate_dismissed_deals now (Some c)
  = (Some (mkClient (revived now <$> deals c) (next_id c) []),
     Z.of_nat (length (filter (fun row => selected now row) (map_to_list (deals c)).*2))).
Proof.
  intros Huniq Hf. unfold reactivate_dismissed_deals, call. rewrite Hf.
  cbv zeta. fold (selected now).
  rewrite (revive_fold_all now _ c 0 Hf). rewrite length_fmap. cbn [Z.add].
  f_equal. f_equal. f_equal.
  apply map_eq. intros k. rewrite !lookup_fmap.
  destruct (deals c !! k) as [row|] eqn:Hk; [|reflexivity]. cbn. f_equal.
  unfold revived.
  destruct (selected now row) eqn:Hs.
  - rewrite bool_decide_eq_true_2; [reflexivity|].
    eapply selected_in_ids; eauto.
  - rewrite bool_decide_eq_false_2; [reflexivity|].
    intros Hin. apply selected_ids in Hin as (k0 & row0 & Hk0 & Hid & Hsel).
    assert (k0 = k) as -> by (eapply Huniq; eauto).
    congruence.
Qed.

(** X10: with a store that answers, the DB-side pass revives exactly the rows
    that are dismissed and whose [last_seen_at] is within 7 days of the
    pass, whatever their [dismissed_at], leaves every other row as it was,
    and returns the number of rows it selected. *)
Theorem reactivation_pass_revives_by_last_sighting :
  forall now c k row,
    unique_ids (deals c) ->
    faults c = [] ->
    deals c !! k = Some row ->
    exists c' count,
      reactivate_dismissed_deals now (Some c) = (Some c', count)
      /\ count
         = Z.of_nat (length (filter (fun row => selected now row) (map_to_list (deals c)).*2))
      /\ dom (deals c') = dom (deals c)
      /\ deals c' !! k
         = Some (if String.eqb (d_status row) "dismissed"
                    && match d_last_seen_at row with
                       | Some t => now - Datetime.timedelta_days 7 <=? t
                       | None => false
                       end
                 then reactivated_row now row
                 else row).
Proof.
  intros now c k row Huniq Hf Hk.
  rewrite (reactivate_dismissed_deals_answers now c Huniq Hf).
  eexists _, _. split; [reflexivity|]. split; [reflexivity|].
  cbn [deals]. split; [apply dom_fmap_L|].
  rewrite lookup_fmap, Hk. reflexivity.
Qed.

Lemma reactivation_pass_revives_by_last_sighting_witness :
  let now := jan_10 in
  let row := dismissed_row in
  let c := store_with row [] in
  let k := blog_post_key in
  exists c' count,
    reactivate_dismissed_deals now (Some c) = (Some c', count)
    /\ count
       = Z.of_nat (length (filter (fun row => selected now row) (map_to_list (deals c)).*2))
    /\ dom (deals c') = dom (deals c)
    /\ deals c' !! k
       = Some (if String.eqb (d_status row) "dismissed"
                  && match d_last_seen_at row with
                     | Some t => now - Datetime.timedelta_days 7 <=? t
                     | None => false
                     end
               then reactivated_row now row
               else row).
Proof.
  intros now row c k.
  apply (reactivation_pass_revives_by_last_sighting now c k row).
  - apply unique_ids_singleton.
  - reflexivity.
  - apply lookup_singleton_eq.
Defined.

Lemma selected_later now now' row :
  now <= now' -> selected now' row = true -> selected now row = true.
Proof.
  unfold selected. intros Hle.
  destruct (String.eqb (d_status row) "dismissed"); [|discriminate]. cbn.
  destruct (d_last_seen_at row); [|discriminate].
  intros H%Z.leb_le. apply Z.leb_le. lia.
Qed.

Lemma revived_not_selected now now' row :
  now <= now' -> selected now' (revived now row) = false.
Proof.
  intros Hle. unfold revived.
  destruct (selected now row) eqn:Hs; [reflexivity|].
  destruct (selected now' row) eqn:Hs'; [|reflexivity].
  apply (selected_later now now' row Hle) in Hs'. congruence.
Qed.

Lemma filter_none {A} (P : A -> Prop) `{!forall x, Decision (P x)} (l : list A) :
  Forall (fun x => ~ P x) l -> filter P l = [].
Proof.
  induction 1 as [|x l Hx _ IH]; [reflexivity|].
  rewrite filter_cons_False by exact Hx. exact IH.
Qed.

(** X11: with a store that answers, a second DB-side pass at the same or a later
    instant selects no row: it returns 0 and leaves the table as the first
    pass left it. *)
Theorem second_reactivation_pass_finds_nothing :
  forall now now' c,
    unique_ids (deals c) ->
    faults c = [] ->
    now <= now' ->
    exists c',
      reactivate_dismissed_deals now (Some c) = (Some c', Z.of_nat
        (length (filter (fun row => selected now row) (map_to_list (deals c)).*2)))
      /\ reactivate_dismissed_deals now' (Some c') = (Some c', 0).
Proof.
  intros now now' c Huniq Hf Hle.
  rewrite (reactivate_dismissed_deals_answers now c Huniq Hf).
  eexists. split; [reflexivity|].
  unfold reactivate_dismissed_deals, call. cbn [faults deals next_id]. cbv zeta.
  match goal with
  | |- context [@filter ?A ?B ?F ?P ?D ?l] => assert (@filter A B F P D l = []) as ->
  end.
  { apply filter_none. apply Forall_forall. intros row' Hin Hs.
    apply list_elem_of_fmap in Hin as ([k r] & -> & Hin).
    apply elem_of_map_to_list in Hin. rewrite lookup_fmap in Hin.
    destruct (deals c !! k) as [row|]; [|discriminate]. cbn in Hin.
    injection Hin as <-. cbn [snd] in Hs. fold (selected now' (revived now row)) in Hs.
    rewrite (revived_not_selected now now' row Hle) in Hs. exact Hs. }
  reflexivity.
Qed.

Lemma second_reactivation_pass_finds_nothing_witness :
  let now := jan_10 in
  let now' := jan_10 + Datetime.timedelta_days 1 in
  let c := store_with dismissed_row [] in
  exists c',
    reactivate_dismissed_deals now (Some c) = (Some c', Z.of_nat
      (length (filter (fun row => selected now row) (map_to_list (deals c)).*2)))
    /\ reactivate_dismissed_deals now' (Some c') = (Some c', 0).
Proof.
  intros now now' c.
  apply (second_reactivation_pass_finds_nothing now now' c).
  - apply unique_ids_singleton.
  - reflexivity.
  - vm_compute. discriminate.
Defined.

Lemma well_keyed_empty : well_keyed empty_store.
Proof.
  split.
  - intros k1 k2 row1 row2 H. cbn in H. rewrite lookup_empty in H. discriminate.
  - apply map_Forall_empty.
Qed.

Lemma well_keyed_same_ids c c' :
  next_id c' = next_id c ->
  (forall k row', deals c' !! k = Some row' ->
     exists row, deals c !! k = Some row /\ d_id row' = d_id row) ->
  well_keyed c -> well_keyed c'.
Proof.
  intros Hn Hrows [Hu Hb]. split.
  - intros k1 k2 r1 r2 H1 H2 Hid.
    apply Hrows in H1 as (s1 & H1 & E1). apply Hrows in H2 as (s2 & H2 & E2).
    eapply Hu; eauto. congruence.
  - intros k r H. apply Hrows in H as (s & H & E). rewrite E, Hn. eapply Hb, H.
Qed.

Lemma upsert_deal_well_keyed bok fi lo now topic_name c n it c' n' oe :
  upsert_deal bok fi lo now topic_name (c, n) it = (c', n', oe) ->
  well_keyed c -> well_keyed c'.
Proof.
  intros Hstep Hwk.
  apply upsert_deal_writes in Hstep as [[Hd Hn] | (row' & Hd & Hrow)].
  { eapply well_keyed_same_ids; [exact Hn| |exact Hwk].
    intros k r H. rewrite Hd in H. eauto. }
  destruct (deals c !! item_dedupe_key bok it) as [row|] eqn:Hk.
  - destruct Hrow as (_ & Hs & Hn).
    eapply well_keyed_same_ids; [exact Hn| |exact Hwk].
    intros k r H. rewrite Hd in H.
    destruct (decide (k = item_dedupe_key bok it)) as [->|Hne].
    + rewrite lookup_insert_eq in H. injection H as <-.
      exists row. split; [exact Hk|]. apply Hs.
    + rewrite lookup_insert_ne in H by congruence. eauto.
  - destruct Hrow as [(Hid & _) Hn]. destruct Hwk as [Hu Hb].
    assert (forall k r, deals c' !! k = Some r ->
              (k = item_dedupe_key bok it /\ d_id r = next_id c)
              \/ (deals c !! k = Some r /\ d_id r < next_id c)) as Hcases.
    { intros k r H. rewrite Hd in H.
      destruct (decide (k = item_dedupe_key bok it)) as [->|Hne].
      - rewrite lookup_insert_eq in H. injection H as <-. auto.
      - rewrite lookup_insert_ne in H by congruence. right. split; [exact H|].
        eapply Hb, H. }
    split.
    + intros k1 k2 r1 r2 H1 H2 Hid12.
      apply Hcases in H1 as [[-> E1] | [H1 L1]]; apply Hcases in H2 as [[-> E2] | [H2 L2]];
        try reflexivity; try lia.
      eapply Hu; eauto.
    + intros k r H. apply Hcases in H as [[_ E] | [_ L]]; lia.
Qed.

Lemma upsert_loop_well_keyed bok fi lo now topic_name items : forall c n c' r,
  upsert_loop bok fi lo now topic_name (c, n) items = (c', r) ->
  well_keyed c -> well_keyed c'.
Proof.
  induction items as [|it rest IH]; intros c n c' r; cbn [upsert_loop].
  - intros [= <- <-]. auto.
  - destruct (upsert_deal bok fi lo now topic_name (c, n) it) as [[c1 n1] [e|]] eqn:Hstep.
    + intros [= <- <-] HP. eapply upsert_deal_well_keyed; eauto.
    + intros Hloop HP. eapply IH; [exact Hloop|]. eapply upsert_deal_well_keyed; eauto.
Qed.

Lemma upsert_deals_well_keyed bok fi lo now topic_name items c cl' r :
  upsert_deals bok fi lo now (Some c) items topic_name = (cl', r) ->
  well_keyed c ->
  exists c', cl' = Some c' /\ well_keyed c'.
Proof.
  unfold upsert_deals.
  destruct (upsert_loop bok fi lo now topic_name (c, mkStats 0 0 0) items) as [c' r'] eqn:Hl.
  intros [= <- <-] HP. exists c'. split; [reflexivity|].
  eapply upsert_loop_well_keyed; eauto.
Qed.

Lemma ingest_well_keyed bok fi lo batches : forall c cl' r,
  ingest bok fi lo (Some c) batches = (cl', r) ->
  well_keyed c ->
  exists c', cl' = Some c' /\ well_keyed c'.
Proof.
  induction batches as [|[[topic_name results] now] rest IH]; intros c cl' r;
    cbn [ingest].
  - intros [= <- <-] HP. eauto.
  - destruct results as [|x xs]; [apply IH|].
    destruct (upsert_deals bok fi lo now (Some c) (x :: xs) topic_name) as [cl1 r1] eqn:Hu.
    intros Hing HP.
    destruct (upsert_deals_well_keyed _ _ _ _ _ _ _ _ _ Hu HP) as (c1 & -> & HP1).
    destruct r1 as [s|e].
    + eapply IH; eauto.
    + injection Hing as <- <-. eauto.
Qed.

Lemma reactivate_dismissed_deals_well_keyed now c cl' count :
  reactivate_dismissed_deals now (Some c) = (cl', count) ->
  well_keyed c ->
  exists c', cl' = Some c' /\ well_keyed c'.
Proof.
  unfold reactivate_dismissed_deals.
  pose proof (call_deals c) as Hd. pose proof (call_next_id c) as Hn.
  destruct (call c) as [raises c1]; simpl in Hd, Hn.
  destruct raises.
  { intros [= <- <-] Hwk. exists c1. split; [reflexivity|].
    eapply well_keyed_same_ids; [exact Hn| |exact Hwk].
    intros k r H. rewrite Hd in H. eauto. }
  match goal with |- context [fold_left ?f ?l ?a] => destruct (fold_left f l a) as [c2 k2] eqn:Hfold end.
  intros [= <- <-] Hwk.
  apply revive_fold_frame in Hfold as (Hn2 & _ & Hrows).
  exists c2. split; [reflexivity|].
  eapply well_keyed_same_ids; [|  |exact Hwk]; [congruence|].
  intros k r H. specialize (Hrows k). rewrite Hd in Hrows.
  destruct (deals c !! k) as [row|]; [|congruence].
  exists row. split; [reflexivity|].
  destruct Hrows as [H'|[_ H']]; rewrite H' in H; injection H as <-; reflexivity.
Qed.

Lemma health_check_deals_reads now c started :
  exists c', (health_check_deals now (Some c) started).1 = Some c'
             /\ deals c' = deals c /\ next_id c' = next_id c.
Proof.
  unfold health_check_deals.
  pose proof (call_deals c) as Hd. pose proof (call_next_id c) as Hn.
  destruct (call c) as [raises c1]; simpl in Hd, Hn.
  destruct raises; [exists c1; auto|].
  destruct (fold_left health_row _ _) as [[over nulls] latest].
  pose proof (call_deals c1) as Hd1. pose proof (call_next_id c1) as Hn1.
  destruct (call c1) as [raises1 c2]; simpl in Hd1, Hn1.
  exists c2. cbn. split; [reflexivity|]. split; congruence.
Qed.

(** X12: if no two rows share an [id] and every [id] is below the next one the
    store hands out, this still holds at the end of a run, however the run
    ends: the engine, the DB-side pass and the health checker never give
    two rows the same [id]. *)
Theorem run_keeps_identifiers_unique :
  forall bok fi lo env c,
    well_keyed c ->
    exists c', (main bok fi lo env (Some c)).1 = Some c' /\ well_keyed c'.
Proof.
  intros bok fi lo env c Hwk. unfold main.
  destruct (config_loads env); cbn [negb]; [|eauto].
  destruct (ingest bok fi lo (Some c) (searches env)) as [cl1 r1] eqn:Hing.
  destruct (ingest_well_keyed _ _ _ _ _ _ _ Hing Hwk) as (c1 & -> & Hwk1).
  destruct r1 as [u|e]; [|eauto].
  assert (exists c',
            (let '(cl, _) := reactivate_dismissed_deals (reactivate_time env) (Some c1) in
             let '(cl0, code) := health_exit (health_time env) cl (start_time env) in
             (cl0, Ok code)).1 = Some c' /\ well_keyed c') as Hrest.
  { destruct (reactivate_dismissed_deals (reactivate_time env) (Some c1)) as [cl2 k] eqn:Hre.
    destruct (reactivate_dismissed_deals_well_keyed _ _ _ _ Hre Hwk1) as (c2 & -> & Hwk2).
    unfold health_exit.
    destruct (health_check_deals_reads (health_time env) c2 (Some (start_time env)))
      as (c3 & H3 & Hd3 & Hn3).
    destruct (health_check_deals _ _ _) as [cl3 h]. cbn [fst] in H3. subst cl3.
    exists c3. split; [destruct (0 <? _); reflexivity|].
    eapply well_keyed_same_ids; [exact Hn3| |exact Hwk2].
    intros k0 r H. rewrite Hd3 in H. eauto. }
  destruct (report_saved env) as [[|]|]; [exact Hrest|eauto|exact Hrest].
Qed.

Lemma run_keeps_identifiers_unique_witness :
  let env :=
    mkRun true [("ai", [blog_post; record_of "https://example.org/news" "Bar"], jan_10 + 1)]
      (Some true) jan_10 (jan_10 + 2) (jan_10 + 3) in
  let c := store_with dismissed_row [] in
  exists c',
    (main accept_bracketed Datetime.fromisoformat_basic utc_zone env (Some c)).1 = Some c'
    /\ well_keyed c'.
Proof.
  intros env c.
  apply (run_keeps_identifiers_unique accept_bracketed Datetime.fromisoformat_basic
           utc_zone env c).
  apply well_keyed_store_with. vm_compute. reflexivity.
Defined.

(** * Further properties of the resolver and of a run *)

(** ** Blank texts *)

Lemma blank_lstrip s : blank s <-> lstrip_by is_space s = "".
Proof.
  unfold blank, strip. split.
  - intros H. destruct (lstrip_by is_space s) eqn:E; [reflexivity|].
    exfalso. assert (headed (lstrip_by is_space s)) as Hh
      by (apply lstrip_headed; rewrite E; discriminate).
    rewrite E in Hh. apply rstrip_headed in Hh. rewrite H in Hh. exact Hh.
  - intros ->. reflexivity.
Qed.

Lemma blank_cons c s : blank (String c s) <-> is_space c = true /\ blank s.
Proof.
  rewrite !blank_lstrip. cbn [lstrip_by].
  destruct (is_space c); split; try tauto; try discriminate.
  intros [H _]. discriminate.
Qed.

Lemma first_field_none values : first_field values = None <-> Forall blank values.
Proof.
  induction values as [|v vs IH]; cbn [first_field].
  - split; auto.
  - destruct (truthy (strip v)) eqn:E.
    + split; [discriminate|]. intros H. inversion H as [|? ? Hb _]. unfold blank in Hb.
      rewrite Hb in E. discriminate.
    + rewrite IH. split.
      * intros H. constructor; [|exact H]. unfold blank.
        destruct (strip v); [reflexivity|discriminate].
      * intros H. inversion H. assumption.
Qed.

Lemma split_ws_aux_blank s : blank s -> forall cur,
  split_ws_aux cur s = if truthy cur then [cur] else [].
Proof.
  induction s as [|c s IH]; intros Hb cur; cbn [split_ws_aux]; [reflexivity|].
  apply blank_cons in Hb as [-> Hb]. rewrite (IH Hb). cbn [truthy].
  destruct (truthy cur); reflexivity.
Qed.

Lemma collapsed_blank s : blank s -> join " " (split_ws s) = "".
Proof. intros Hb. unfold split_ws. rewrite (split_ws_aux_blank s Hb). reflexivity. Qed.

Lemma re_sub_tail_blank (m : string -> bool) s :
  (forall t, blank t -> m t = false) -> blank s -> re_sub_tail m s = s.
Proof.
  intros Hm. induction s as [|c s IH]; intros Hb; cbn [re_sub_tail];
    rewrite (Hm _ Hb); [reflexivity|].
  apply blank_cons in Hb as [_ Hb]. rewrite (IH Hb). reflexivity.
Qed.

Lemma dash_suffix_blank t : blank t -> dash_suffix t = false.
Proof. intros H%blank_lstrip. unfold dash_suffix. rewrite H. reflexivity. Qed.

Lemma pipe_suffix_blank t : blank t -> pipe_suffix t = false.
Proof. intros H%blank_lstrip. unfold pipe_suffix. rewrite H. reflexivity. Qed.

Lemma colons_suffix_blank t : blank t -> colons_suffix t = false.
Proof. intros H%blank_lstrip. unfold colons_suffix. rewrite H. reflexivity. Qed.

Lemma clean_canonical_name_blank title : blank title -> clean_canonical_name title = title.
Proof.
  intros Hb. unfold clean_canonical_name.
  destruct title as [|c r]; [reflexivity|]. cbn [truthy negb].
  rewrite (re_sub_tail_blank dash_suffix _ dash_suffix_blank Hb).
  rewrite (re_sub_tail_blank pipe_suffix _ pipe_suffix_blank Hb).
  rewrite (re_sub_tail_blank colons_suffix _ colons_suffix_blank Hb).
  unfold blank in Hb. rewrite Hb. reflexivity.
Qed.

(** ** When the two assertions on the generated fields fail *)

Lemma generate_canonical_name_blank_iff it title hostname :
  title <> "" ->
  (blank (generate_canonical_name it title hostname)
   <-> Forall blank [i_company it; i_product it; i_name it; i_canonical_name it]
       /\ blank title).
Proof.
  intros Ht. split.
  - intros Hb. split.
    + apply first_field_none.
      unfold generate_canonical_name in Hb.
      destruct (first_field _) as [value|] eqn:Hf; [|reflexivity].
      exfalso. eapply headed_strip; [eapply first_field_headed, Hf | exact Hb].
    + destruct (strip title) eqn:E; [exact E|]. exfalso.
      apply (generate_canonical_name_not_blank it title hostname); [|exact Hb].
      rewrite E. discriminate.
  - intros [Hn Hb]. apply first_field_none in Hn.
    unfold generate_canonical_name. rewrite Hn.
    rewrite (clean_canonical_name_blank title Hb).
    destruct title; [congruence|]. cbn [truthy andb]. exact Hb.
Qed.

Lemma generate_one_liner_blank_iff it description title :
  blank (generate_one_liner it description title)
  <-> Forall blank [i_one_liner it; i_summary it; i_excerpt it]
      /\ ((description <> "" /\ blank description)
          \/ (description = "" /\ title <> "" /\ blank title)).
Proof.
  split.
  - intros Hb.
    assert (first_field [i_one_liner it; i_summary it; i_excerpt it] = None) as Hf.
    { destruct (first_field _) as [value|] eqn:Hf; [|reflexivity]. exfalso.
      unfold generate_one_liner in Hb. rewrite Hf in Hb.
      apply first_field_headed in Hf.
      revert Hb. apply headed_strip.
      destruct (120 <? _)%nat; [apply headed_append, headed_take|]; exact Hf. }
    split; [apply first_field_none, Hf|].
    unfold generate_one_liner in Hb. rewrite Hf in Hb.
    destruct description as [|dc dr].
    + right. split; [reflexivity|]. cbn [truthy] in Hb.
      destruct title as [|tc tr]; [discriminate Hb|]. split; [discriminate|].
      cbn [truthy] in Hb.
      destruct (strip (String tc tr)) eqn:E; [exact E|]. exfalso.
      assert (strip (String tc tr) <> "") as Hne by (rewrite E; discriminate).
      pose proof (collapsed_headed _ Hne) as Hc.
      revert Hb. apply headed_strip.
      destruct (120 <? _)%nat; [apply headed_append, headed_take|]; exact Hc.
    + left. split; [discriminate|]. cbn [truthy] in Hb.
      destruct (strip (String dc dr)) eqn:E; [exact E|]. exfalso.
      assert (strip (String dc dr) <> "") as Hne by (rewrite E; discriminate).
      pose proof (collapsed_headed _ Hne) as Hc.
      revert Hb. apply headed_strip.
      destruct (120 <? _)%nat; [|exact Hc].
      destruct (cut_at_punct _ _) as [cut|] eqn:Hcut.
      * eapply cut_at_punct_headed; [|exact Hcut]. apply headed_take, Hc.
      * apply headed_append, headed_take, headed_take, Hc.
  - intros [Hn Hcase]. apply first_field_none in Hn.
    unfold generate_one_liner. rewrite Hn.
    destruct Hcase as [[Hne Hb] | (-> & Hne & Hb)].
    + destruct description; [congruence|]. cbn [truthy].
      rewrite (collapsed_blank _ Hb). reflexivity.
    + cbn [truthy]. destruct title; [congruence|]. cbn [truthy].
      rewrite (collapsed_blank _ Hb). reflexivity.
Qed.

(** X13: a record gets past the guard and the assertions of [upsert_deals]
    exactly when its link and its title are not empty,
    [generate_evidence_urls] returns, its title or one of [company],
    [product], [name], [canonical_name] is not blank, and one of
    [one_liner], [summary], [excerpt] is not blank or else its snippet is
    not blank when it has one and its title is not blank when it has
    none. *)
Theorem acceptance_by_fields :
  forall bok it,
    accepted bok it
    <-> i_link it <> ""
        /\ i_title it <> ""
        /\ (exists evs, generate_evidence_urls bok it (i_link it) = Ok evs)
        /\ (blank (i_title it) ->
            ~ Forall blank [i_company it; i_product it; i_name it; i_canonical_name it])
        /\ (~ Forall blank [i_one_liner it; i_summary it; i_excerpt it]
            \/ (if truthy (i_snippet it) then ~ blank (i_snippet it)
                else ~ blank (i_title it))).
Proof.
  intros bok it. unfold accepted.
  split.
  - intros (Hl & Ht & Hev & Hcn & Hol).
    split; [exact Hl|]. split; [exact Ht|]. split; [exact Hev|]. split.
    + intros Hb Hn. apply Hcn.
      apply (generate_canonical_name_blank_iff it _ _ Ht). auto.
    + destruct (decide (Forall blank [i_one_liner it; i_summary it; i_excerpt it]))
        as [Hn|Hn]; [|auto].
      right. destruct (i_snippet it) as [|dc dr] eqn:Ed; cbn [truthy].
      * intros Hb. apply Hol. apply generate_one_liner_blank_iff. split; [exact Hn|].
        right. auto.
      * intros Hb. apply Hol. apply generate_one_liner_blank_iff. split; [exact Hn|].
        left. split; [discriminate | exact Hb].
  - intros (Hl & Ht & Hev & Hcn & Hol).
    split; [exact Hl|]. split; [exact Ht|]. split; [exact Hev|]. split.
    + intros Hb. apply (generate_canonical_name_blank_iff it _ _ Ht) in Hb as [Hn Hb].
      exact (Hcn Hb Hn).
    + intros Hb. apply generate_one_liner_blank_iff in Hb as [Hn Hcase].
      destruct Hol as [Hol|Hol]; [exact (Hol Hn)|].
      destruct Hcase as [[Hne Hb] | (Hd & _ & Hb)].
      * destruct (i_snippet it); [congruence|]. exact (Hol Hb).
      * rewrite Hd in Hol. exact (Hol Hb).
Qed.

(** ** Records that are not accepted *)

Lemma generate_evidence_urls_raises bok it url e :
  generate_evidence_urls bok it url = Raise e -> e = AssertionError.
Proof.
  unfold generate_evidence_urls. destruct (0 <? _)%nat; [discriminate|].
  intros [= <-]. reflexivity.
Qed.

Lemma assertion_fails (s : string) :
  blank s -> negb (truthy s && truthy (strip s)) = true.
Proof. unfold blank. intros ->. rewrite andb_false_r. reflexivity. Qed.

Lemma upsert_deal_rejects bok fi lo now topic_name c n it :
  i_link it <> "" -> i_title it <> "" -> ~ accepted bok it ->
  upsert_deal bok fi lo now topic_name (c, n) it = (c, n, Some AssertionError).
Proof.
  intros Hl Ht Hna. unfold upsert_deal.
  assert (truthy (i_link it) = true) as -> by (apply truthy_neq, Hl).
  assert (truthy (i_title it) = true) as -> by (apply truthy_neq, Ht).
  cbn [negb orb].
  destruct (generate_evidence_urls bok it (i_link it)) as [evs|e] eqn:Hev.
  2:{ apply generate_evidence_urls_raises in Hev. subst e. reflexivity. }
  set (cn := generate_canonical_name it (i_title it) (get_hostname bok (i_link it))).
  set (ol := generate_one_liner it (i_snippet it) (i_title it)).
  destruct (decide (blank cn)) as [Hcn|Hcn].
  { rewrite (assertion_fails _ Hcn). reflexivity. }
  rewrite (assertion_holds _ Hcn).
  destruct (decide (blank ol)) as [Hol|Hol].
  { rewrite (assertion_fails _ Hol). reflexivity. }
  exfalso. apply Hna. unfold accepted. eauto 10.
Qed.

(** X14: a record with a link and a title that is not accepted ends the batch:
    [AssertionError] leaves [upsert_deals] before any store call, so the
    table is untouched and the records after it are not processed. *)
Theorem rejected_record_ends_the_batch :
  forall bok fi lo now topic_name c it rest,
    i_link it <> "" ->
    i_title it <> "" ->
    ~ accepted bok it ->
    upsert_deals bok fi lo now (Some c) (it :: rest) topic_name
    = (Some c, Raise AssertionError).
Proof.
  intros bok fi lo now topic_name c it rest Hl Ht Hna.
  unfold upsert_deals. cbn [upsert_loop].
  rewrite (upsert_deal_rejects bok fi lo now topic_name c _ it Hl Ht Hna).
  reflexivity.
Qed.

Lemma rejected_record_ends_the_batch_witness :
  let it := record_of "   " "Foo" in
  upsert_deals accept_bracketed Datetime.fromisoformat_basic utc_zone jan_10
    (Some empty_store) [it; blog_post] "ai"
  = (Some empty_store, Raise AssertionError).
Proof.
  intros it.
  apply (rejected_record_ends_the_batch accept_bracketed Datetime.fromisoformat_basic
           utc_zone jan_10 "ai" empty_store it [blog_post]).
  - discriminate.
  - discriminate.
  - intros (_ & _ & [evs Hev] & _). vm_compute in Hev. discriminate.
Defined.

(** X15: a record with a link and a title whose snippet is white space only, and
    which has no [one_liner], [summary] or [excerpt], ends the batch with
    [AssertionError]: the one-liner generated from such a snippet is
    empty. *)
Theorem blank_snippet_ends_the_batch :
  forall bok fi lo now topic_name c it rest,
    i_link it <> "" ->
    i_title it <> "" ->
    i_snippet it <> "" ->
    blank (i_snippet it) ->
    Forall blank [i_one_liner it; i_summary it; i_excerpt it] ->
    upsert_deals bok fi lo now (Some c) (it :: rest) topic_name
    = (Some c, Raise AssertionError).
Proof.
  intros bok fi lo now topic_name c it rest Hl Ht Hs Hb Hn.
  unfold upsert_deals. cbn [upsert_loop].
  rewrite (upsert_deal_rejects bok fi lo now topic_name c _ it Hl Ht); [reflexivity|].
  intros (_ & _ & _ & _ & Hol). apply Hol.
  apply generate_one_liner_blank_iff. split; [exact Hn|]. left. auto.
Qed.

Lemma blank_snippet_ends_the_batch_witness :
  let it :=
    mkItem "https://example.com/a" "Foo" "  " "" "" "" "" "" "" ""
      UAbsent UAbsent UAbsent UAbsent None in
  upsert_deals accept_bracketed Datetime.fromisoformat_basic utc_zone jan_10
    (Some empty_store) [it; blog_post] "ai"
  = (Some empty_store, Raise AssertionError).
Proof.
  intros it.
  apply (blank_snippet_ends_the_batch accept_bracketed Datetime.fromisoformat_basic
           utc_zone jan_10 "ai" empty_store it [blog_post]).
  - discriminate.
  - discriminate.
  - discriminate.
  - reflexivity.
  - repeat constructor.
Defined.

(** ** The shape of a normalised URL *)

Lemma rstrip_by_idem p s : rstrip_by p (rstrip_by p s) = rstrip_by p s.
Proof.
  induction s as [|c s IH]; [reflexivity|]. cbn [rstrip_by].
  destruct (p c && negb (truthy (rstrip_by p s))) eqn:E; [reflexivity|].
  cbn [rstrip_by]. rewrite IH, E. reflexivity.
Qed.

Lemma lstrip_of_strip s : lstrip_by is_space (strip s) = strip s.
Proof.
  destruct (strip s) eqn:E; [reflexivity|]. rewrite <- E.
  apply lstrip_of_headed, strip_headed. rewrite E. discriminate.
Qed.

Lemma strip_idem s : strip (strip s) = strip s.
Proof.
  unfold strip at 1. rewrite lstrip_of_strip. unfold strip. apply rstrip_by_idem.
Qed.

Lemma rstrip_by_app p a b :
  truthy (rstrip_by p b) = true -> rstrip_by p (a +:+ b) = a +:+ rstrip_by p b.
Proof.
  intros Hb. induction a as [|c a IH]; [reflexivity|].
  change (String c a +:+ b) with (String c (a +:+ b)).
  change (String c a +:+ rstrip_by p b) with (String c (a +:+ rstrip_by p b)).
  cbn [rstrip_by]. rewrite IH.
  assert (truthy (a +:+ rstrip_by p b) = true) as ->.
  { destruct a; [exact Hb|reflexivity]. }
  rewrite andb_false_r. reflexivity.
Qed.

Lemma strip_prefixed s :
  strip s <> "" -> strip ("https://" +:+ strip s) = "https://" +:+ strip s.
Proof.
  intros Hs. unfold strip at 1.
  rewrite (lstrip_of_headed ("https://" +:+ strip s)) by reflexivity.
  rewrite rstrip_by_app.
  - unfold strip. rewrite rstrip_by_idem. reflexivity.
  - unfold strip. rewrite rstrip_by_idem. apply truthy_neq, Hs.
Qed.

Lemma prefix_app pre : forall a b,
  String.prefix pre a = true -> String.prefix pre (a +:+ b) = true.
Proof.
  induction pre as [|x pre IH]; intros a b.
  - intros _. destruct (a +:+ b); reflexivity.
  - destruct a as [|y a]; [discriminate|].
    change (String y a +:+ b) with (String y (a +:+ b)). cbn.
    destruct (ascii_dec x y); [apply IH|discriminate].
Qed.

Lemma https_prefix rest : String.prefix "https://" ("https://" +:+ rest) = true.
Proof. destruct rest; reflexivity. Qed.

Lemma urlunparse_https_prefix nl url prm qs :
  startswith (Urllib.urlunparse "https" nl url prm qs "") "https://" = true.
Proof.
  unfold Urllib.urlunparse, Urllib.urlunsplit, startswith. cbn [truthy].
  set (u := if truthy prm then url +:+ ";" +:+ prm else url).
  match goal with
  | |- String.prefix _ (if _ then ?x +:+ _ else ?x) = true =>
      assert (String.prefix "https://" x = true) as Hx
  end.
  2:{ destruct (truthy qs); [apply prefix_app|]; exact Hx. }
  cbn [andb].
  destruct (truthy nl || _) eqn:E.
  - match goal with
    | |- String.prefix _ (_ +:+ _ +:+ _ +:+ ?r) = true => exact (https_prefix r)
    end.
  - apply orb_false_elim in E as [_ E].
    assert (take 2 u = "//") as Hu.
    { apply String.eqb_eq. revert E. cbn. destruct (take 2 u =? "//")%string; auto. }
    destruct u as [|c1 [|c2 r]]; try discriminate Hu.
    injection Hu as -> ->.
    exact (https_prefix r).
Qed.

Lemma normalize_url_blank bok u : blank u -> normalize_url bok u = "".
Proof. unfold blank, normalize_url. intros ->. destruct (truthy u); reflexivity. Qed.

(** X16: [normalize_url] returns the empty string on a blank text; on any other
    text it returns a URL that starts with [https://], except when
    [urlparse] refuses an [http://] text, which is returned stripped and
    keeps its scheme. *)
Theorem normalized_url_is_empty_or_absolute :
  forall bok u,
    (blank u -> normalize_url bok u = "")
    /\ (~ blank u ->
        startswith (normalize_url bok u) "https://" = true
        \/ (startswith (strip u) "http://" = true /\ normalize_url bok u = strip u)).
Proof.
  intros bok u. split; [apply normalize_url_blank|].
  intros Hu. unfold blank in Hu. unfold normalize_url.
  {
    assert (truthy u = true) as ->.
    { apply truthy_neq. intros ->. apply Hu. reflexivity. }
    assert (truthy (strip u) = true) as -> by (apply truthy_neq, Hu).
    cbn [negb].
    destruct (startswith (strip u) "http://") eqn:Ehttp;
      destruct (startswith (strip u) "https://") eqn:Ehttps; cbn [orb];
      match goal with
      | |- context [Urllib.urlparse bok ?x] => destruct (Urllib.urlparse bok x) as [parsed|e]
      end;
      try (left; apply urlunparse_https_prefix).
    + left. rewrite strip_idem. exact Ehttps.
    + right. rewrite strip_idem. auto.
    + left. rewrite strip_idem. exact Ehttps.
    + left. rewrite (strip_prefixed u Hu). apply https_prefix. }
Qed.

(** ** The shape of a key *)

Lemma append_length a b : String.length (a +:+ b) = (String.length a + String.length b)%nat.
Proof.
  induction a as [|c a IH]; [reflexivity|].
  change (String c a +:+ b) with (String c (a +:+ b)). cbn [String.length].
  rewrite IH. reflexivity.
Qed.

Lemma hex_length n : forall x, String.length (Sha1.hex n x) = n.
Proof.
  induction n as [|n IH]; intros x; [reflexivity|].
  cbn [Sha1.hex]. rewrite append_length, IH. cbn. lia.
Qed.

Lemma hexdigest_length s : String.length (Sha1.hexdigest s) = 40%nat.
Proof.
  unfold Sha1.hexdigest. cbv zeta.
  rewrite !append_length, !hex_length. reflexivity.
Qed.

Lemma hex_char_is_hex x : 0 <= x < 16 -> is_hex (Sha1.hex_char x) = true.
Proof.
  intros Hx.
  assert (x = 0 \/ x = 1 \/ x = 2 \/ x = 3 \/ x = 4 \/ x = 5 \/ x = 6 \/ x = 7
          \/ x = 8 \/ x = 9 \/ x = 10 \/ x = 11 \/ x = 12 \/ x = 13 \/ x = 14 \/ x = 15)
    as H by lia.
  repeat (destruct H as [-> | H]; [reflexivity|]). subst x. reflexivity.
Qed.

Lemma all_chars_app p a b :
  Urllib.all_chars p (a +:+ b) = Urllib.all_chars p a && Urllib.all_chars p b.
Proof.
  induction a as [|c a IH]; [reflexivity|].
  change (String c a +:+ b) with (String c (a +:+ b)).
  cbn [Urllib.all_chars]. rewrite IH, andb_assoc. reflexivity.
Qed.

Lemma hex_is_hex n : forall x, Urllib.all_chars is_hex (Sha1.hex n x) = true.
Proof.
  induction n as [|n IH]; intros x; [reflexivity|].
  cbn [Sha1.hex]. rewrite all_chars_app, IH. cbn [Urllib.all_chars andb].
  rewrite hex_char_is_hex; [reflexivity|].
  change 15 with (Z.ones 4). rewrite Z.land_ones by lia.
  pose proof (Z.mod_pos_bound x (2 ^ 4)). lia.
Qed.

Lemma hexdigest_is_hex s : Urllib.all_chars is_hex (Sha1.hexdigest s) = true.
Proof.
  unfold Sha1.hexdigest. cbv zeta.
  rewrite !all_chars_app, !hex_is_hex. reflexivity.
Qed.

(** X17: a [dedupe_key] is a tag followed by 40 lower-case hexadecimal digits:
    the tag is [url:] when the link is not blank and [ht:] when it is. *)
Theorem dedupe_key_is_a_tagged_digest :
  forall bok url hostname canonical_name title,
    exists digest,
      String.length digest = 40%nat
      /\ Urllib.all_chars is_hex digest = true
      /\ compute_dedupe_key bok url hostname canonical_name title
         = (if truthy (strip url) then "url:" else "ht:") +:+ digest.
Proof.
  intros bok url hostname canonical_name title. unfold compute_dedupe_key.
  destruct (strip url) eqn:E.
  - rewrite (normalize_url_blank bok url E). cbn [truthy].
    eexists. split; [apply hexdigest_length|]. split; [apply hexdigest_is_hex|reflexivity].
  - assert (normalize_url bok url <> "") as Hn.
    { apply normalize_url_not_blank. rewrite E. discriminate. }
    apply truthy_neq in Hn. rewrite Hn. cbn [truthy].
    eexists. split; [apply hexdigest_length|]. split; [apply hexdigest_is_hex|reflexivity].
Qed.

(** ** The length of a one-liner *)







(** ** The evidence URLs of a record *)

Lemma add_evidence_listed bok first acc u :
  listed first acc -> listed first (add_evidence bok acc u).
Proof.
  destruct acc as [l s]. unfold listed, add_evidence. cbn [fst].
  intros [Hne Hhd].
  destruct (truthy (normalize_url bok u) && negb (bool_decide (normalize_url bok u ∈ s)))
    eqn:E; cbn [fst]; [|auto].
  apply andb_true_iff in E as [E _]. apply truthy_neq in E. split.
  - apply Forall_app. split; [exact Hne|]. constructor; [exact E|constructor].
  - destruct first as [x|]; [|exact I]. destruct l; [discriminate|exact Hhd].
Qed.

Lemma add_field_listed bok first acc v :
  listed first acc -> listed first (add_field bok acc v).
Proof.
  intros H. destruct v as [|l|s]; cbn [add_field]; [exact H| |].
  - apply fold_left_invariant; [|exact H].
    intros a u Ha. destruct (truthy u); [apply add_evidence_listed|]; exact Ha.
  - apply fold_left_invariant; [|exact H].
    intros a u Ha. cbv zeta. destruct (truthy (strip u)); [apply add_evidence_listed|]; exact Ha.
Qed.

(** X19: [generate_evidence_urls] either returns a list that is not empty, has no
    duplicates and no empty entry, and starts with the normalised link
    when the link is not blank, or raises [AssertionError], which it can
    only do when the link is blank. *)
Theorem evidence_urls_of_a_record :
  forall bok it url,
    match generate_evidence_urls bok it url with
    | Ok evs =>
        evs <> []
        /\ NoDup evs
        /\ Forall (fun u => u <> "") evs
        /\ (~ blank url -> head evs = Some (normalize_url bok url))
    | Raise e => e = AssertionError /\ blank url
    end.
Proof.
  intros bok it url.
  destruct (generate_evidence_urls bok it url) as [evs|e] eqn:Hev.
  - split; [intros ->; apply generate_evidence_urls_nonempty in Hev; discriminate|].
    split; [eapply generate_evidence_urls_NoDup, Hev|].
    set (first := if truthy (normalize_url bok url) then Some (normalize_url bok url) else None).
    assert (listed first (evs, ∅)) as [Hne Hhd].
    { revert Hev. unfold generate_evidence_urls.
      match goal with |- context [fold_left (add_field bok) ?l ?a] =>
        assert (listed first (fold_left (add_field bok) l a)) as Hl end.
      { apply fold_left_invariant; [intros; apply add_field_listed; assumption|].
        unfold first. destruct url as [|c r].
        - cbn. split; [constructor|exact I].
        - cbn [truthy]. unfold add_evidence.
          destruct (truthy (normalize_url bok (String c r))) eqn:E; cbn.
          + split; [|reflexivity]. constructor; [apply truthy_neq, E|constructor].
          + split; [constructor|exact I]. }
      destruct (0 <? _)%nat; intros [= <-]. exact Hl. }
    split; [exact Hne|].
    intros Hb. apply (normalize_url_not_blank bok) in Hb. apply truthy_neq in Hb.
    unfold first in Hhd. rewrite Hb in Hhd. exact Hhd.
  - split; [eapply generate_evidence_urls_raises, Hev|].
    destruct (strip url) eqn:E; [exact E|]. exfalso.
    destruct (generate_evidence_urls_ok bok it url) as [evs Hok]; [|congruence].
    apply normalize_url_not_blank. rewrite E. discriminate.
Qed.

(** ** A run over a healthy table *)

Section RunKeeps.
Variables (bok : string -> bool) (fi : string -> option Datetime.datetime) (lo : Z -> Z).
Variable P : deal -> Prop.
Hypothesis Hsighted :
  forall now row row', d_status row <> "archived" -> sighted now row row' -> P row'.
Hypothesis Hfirst : forall now new_id row', first_sighted now new_id row' -> P row'.
Hypothesis Hrevived : forall now row, P row -> P (reactivated_row now row).

Lemma main_keeps env c :
  map_Forall (fun _ => P) (deals c) ->
  exists c', (main bok fi lo env (Some c)).1 = Some c'
             /\ map_Forall (fun _ => P) (deals c').
Proof.
  intros HP. unfold main.
  destruct (config_loads env); cbn [negb]; [|eauto].
  destruct (ingest bok fi lo (Some c) (searches env)) as [cl1 r1] eqn:Hing.
  destruct (ingest_keeps bok fi lo P Hsighted Hfirst _ _ _ _ Hing HP) as (c1 & -> & HP1).
  destruct r1 as [u|e]; [|eauto].
  assert (exists c',
            (let '(cl, _) := reactivate_dismissed_deals (reactivate_time env) (Some c1) in
             let '(cl0, code) := health_exit (health_time env) cl (start_time env) in
             (cl0, Ok code)).1 = Some c' /\ map_Forall (fun _ => P) (deals c')) as Hrest.
  { destruct (reactivate_dismissed_deals (reactivate_time env) (Some c1)) as [cl2 k] eqn:Hre.
    destruct (reactivate_dismissed_deals_keeps P (reactivate_time env)
                (Hrevived (reactivate_time env)) _ _ _ Hre HP1) as (c2 & -> & HP2).
    unfold health_exit.
    destruct (health_check_deals_reads (health_time env) c2 (Some (start_time env)))
      as (c3 & H3 & Hd3 & Hn3).
    destruct (health_check_deals _ _ _) as [cl3 h]. cbn [fst] in H3. subst cl3.
    exists c3. split; [destruct (0 <? _); reflexivity|].
    rewrite Hd3. exact HP2. }
  destruct (report_saved env) as [[|]|]; [exact Hrest|eauto|exact Hrest].
Qed.
End RunKeeps.

Lemma health_rows_counted rows : Forall counted rows ->
  forall over nulls latest,
    (fold_left health_row rows (over, nulls, latest)).1.2 = nulls.
Proof.
  induction 1 as [|row rows Hrow _ IH]; intros over nulls latest; [reflexivity|].
  cbn [fold_left]. unfold health_row at 2. unfold counted in Hrow.
  destruct (d_seen_count row) as [k|]; [apply IH|congruence].
Qed.

Lemma health_check_counted now c started :
  map_Forall (fun _ => counted) (deals c) ->
  seen_count_null (health_check_deals now (Some c) started).2 = 0.
Proof.
  intros HP. unfold health_check_deals.
  pose proof (call_deals c) as Hd.
  destruct (call c) as [raises c1]; simpl in Hd.
  destruct raises; [reflexivity|].
  pose proof (health_rows_counted _ (map_Forall_values _ _ HP) 0 0 None) as Hnulls.
  rewrite <- Hd in Hnulls.
  destruct (fold_left health_row _ _) as [[over nulls] latest].
  destruct (call c1) as [raises2 c2]. exact Hnulls.
Qed.

(** X20: if every row has at most 20 evidence URLs and a [seen_count], this still
    holds at the end of a run, however the run ends, and a health check of
    that table reports 0 for [evidence_over_20] and for
    [seen_count_null]. *)
Theorem run_leaves_a_healthy_table :
  forall bok fi lo env c,
    map_Forall (fun _ row => bounded row /\ counted row) (deals c) ->
    exists c',
      (main bok fi lo env (Some c)).1 = Some c'
      /\ map_Forall (fun _ row => bounded row /\ counted row) (deals c')
      /\ forall now started,
          evidence_over_20 (health_check_deals now (Some c') started).2 = 0
          /\ seen_count_null (health_check_deals now (Some c') started).2 = 0.
Proof.
  intros bok fi lo env c HP.
  destruct (main_keeps bok fi lo (fun row => bounded row /\ counted row)) with (env := env) (c := c)
    as (c' & Hc' & HP'); [| | |exact HP|].
  - intros now row row' _ Hs. split; [eapply sighted_bounded, Hs|].
    destruct Hs as (_ & _ & _ & Hc & _). unfold counted. rewrite Hc. discriminate.
  - intros now new_id row' Hs. split; [eapply first_sighted_bounded, Hs|].
    destruct Hs as (_ & _ & Hc & _). unfold counted. rewrite Hc. discriminate.
  - intros now row [Hb Hc]. split; [exact Hb | exact Hc].
  - exists c'. split; [exact Hc'|]. split; [exact HP'|].
    intros now started. split.
    + apply health_check_bounded. eapply map_Forall_impl; [exact HP'|]. intros k row [H _]. exact H.
    + apply health_check_counted. eapply map_Forall_impl; [exact HP'|]. intros k row [_ H]. exact H.
Qed.

Lemma run_leaves_a_healthy_table_witness :
  let env :=
    mkRun true [("ai", [blog_post; record_of "https://example.org/news" "Bar"], jan_10 + 1)]
      (Some true) jan_10 (jan_10 + 2) (jan_10 + 3) in
  let c := store_with crowded [] in
  exists c',
    (main accept_bracketed Datetime.fromisoformat_basic utc_zone env (Some c)).1 = Some c'
    /\ map_Forall (fun _ row => bounded row /\ counted row) (deals c')
    /\ forall now started,
        evidence_over_20 (health_check_deals now (Some c') started).2 = 0
        /\ seen_count_null (health_check_deals now (Some c') started).2 = 0.
Proof.
  intros env c.
  apply (run_leaves_a_healthy_table accept_bracketed Datetime.fromisoformat_basic
           utc_zone env c).
  apply map_Forall_singleton. split.
  - vm_compute. lia.
  - discriminate.
Defined.

(** * Radar items and the weekly report *)

(** ** The week of a report *)

Example week_of_jan_10 :
  weekday (utcnow jan_10) = 4
  /\ Datetime.isoformat (get_week_start jan_10) = "2025-01-06T00:00:00"
  /\ Datetime.isoformat (get_week_start 1736687107250000) = "2025-01-06T00:00:00"
  /\ Datetime.isoformat (report_window 1736687107250000).2 = "2025-01-12T00:00:00"
  /\ Datetime.isoformat (get_week_start (-255600000000)) = "1969-12-29T00:00:00".
Proof. repeat split; vm_compute; reflexivity. Qed.

Lemma get_week_start_wall clock :
  Datetime.wall (get_week_start clock)
  = (clock / Datetime.day_us - (clock / Datetime.day_us + 3) mod 7) * Datetime.day_us.
Proof.
  unfold get_week_start, replace_midnight, minus_timedelta, weekday, utcnow,
    Datetime.timedelta_days. cbn [Datetime.wall Datetime.tzinfo].
  unfold Datetime.day_us, Datetime.second_us.
  Z.div_mod_to_equations. lia.
Qed.

(** X21: [get_week_start] returns a naive [datetime] that is a Monday at 00:00,
    not after the clock reading and less than 7 days before it. *)
Theorem week_start_is_the_monday_before :
  forall clock,
    let week_start := get_week_start clock in
    Datetime.tzinfo week_start = None
    /\ weekday week_start = 0
    /\ Datetime.wall week_start mod Datetime.day_us = 0
    /\ Datetime.wall week_start <= clock < Datetime.wall week_start + Datetime.timedelta_days 7.
Proof.
  intros clock. cbv zeta. split; [reflexivity|].
  unfold weekday. rewrite get_week_start_wall.
  unfold Datetime.timedelta_days, Datetime.day_us, Datetime.second_us.
  Z.div_mod_to_equations. lia.
Qed.

(** The week start in closed form: the Monday's day number, at 00:00. *)
Lemma get_week_start_closed clock :
  get_week_start clock
  = Datetime.mkDatetime
      ((clock / Datetime.day_us - (clock / Datetime.day_us + 3) mod 7) * Datetime.day_us)
      None.
Proof.
  pose proof (get_week_start_wall clock) as Hw.
  destruct (get_week_start clock) as [w tz] eqn:E.
  assert (tz = None) as ->.
  { change tz with (Datetime.tzinfo (Datetime.mkDatetime w tz)). rewrite <- E. reflexivity. }
  cbn [Datetime.wall] in Hw. rewrite Hw. reflexivity.
Qed.

(** The day numbers of one week have the same Monday. *)
Lemma monday_of_the_week (D m d : Z) :
  0 < D -> (m + 3) mod 7 = 0 -> m * D <= d < m * D + 7 * D ->
  d / D - (d / D + 3) mod 7 = m.
Proof.
  intros HD Hm Hd.
  assert (m <= d / D < m + 7) as Hq.
  { split.
    - apply Z.div_le_lower_bound; lia.
    - apply Z.div_lt_upper_bound; lia. }
  Z.div_mod_to_equations. lia.
Qed.

(** X22: [get_week_start] returns the same value at every instant of the week
    that starts there, so every run of one week computes the same
    [week_start]. *)
Theorem week_start_is_the_same_all_week :
  forall clock later,
    Datetime.wall (get_week_start clock) <= later
      < Datetime.wall (get_week_start clock) + Datetime.timedelta_days 7 ->
    get_week_start later = get_week_start clock.
Proof.
  intros clock later H.
  rewrite get_week_start_wall in H. unfold Datetime.timedelta_days in H.
  rewrite !get_week_start_closed. do 2 f_equal.
  apply monday_of_the_week.
  - unfold Datetime.day_us, Datetime.second_us. lia.
  - Z.div_mod_to_equations. lia.
  - exact H.
Qed.

Lemma week_start_is_the_same_all_week_witness :
  get_week_start 1736687107250000 = get_week_start jan_10.
Proof.
  apply (week_start_is_the_same_all_week jan_10 1736687107250000).
  vm_compute. split; [discriminate | reflexivity].
Defined.

(** X23: the window [generate_weekly_report] asks for ends 6 days after the week
    start, on Sunday at 00:00: the clock reading the window is computed
    from lies within it exactly when the day is not a Sunday, or is a
    Sunday at 00:00:00 sharp. *)
Theorem report_window_closes_as_sunday_begins :
  forall clock,
    let '(week_start, week_end) := report_window clock in
    Datetime.wall week_end = Datetime.wall week_start + Datetime.timedelta_days 6
    /\ weekday week_end = 6
    /\ Datetime.wall week_end mod Datetime.day_us = 0
    /\ (clock <= Datetime.wall week_end
        <-> weekday (utcnow clock) < 6
            \/ (weekday (utcnow clock) = 6 /\ clock mod Datetime.day_us = 0)).
Proof.
  intros clock. unfold report_window, plus_timedelta. cbv zeta.
  cbn [Datetime.wall Datetime.tzinfo].
  split; [reflexivity|].
  unfold weekday, utcnow. cbn [Datetime.wall]. rewrite get_week_start_wall.
  unfold Datetime.timedelta_days, Datetime.day_us, Datetime.second_us.
  Z.div_mod_to_equations. lia.
Qed.

(** ** Radar items *)

Lemma source_or_serper_truthy source : truthy (source_or_serper source) = true.
Proof.
  destruct source as [s|]; [|reflexivity]. unfold source_or_serper, or_else.
  destruct (truthy s) eqn:E; [exact E|reflexivity].
Qed.

Lemma source_or_serper_blank source :
  blank (source_or_serper source)
  <-> exists s, source = Some s /\ s <> "" /\ blank s.
Proof.
  destruct source as [s|]; cbn [source_or_serper].
  - unfold or_else. destruct s as [|c r]; cbn [truthy].
    + split; [discriminate|]. intros (s & [= <-] & Hs & _). congruence.
    + split; [intros Hb; exists (String c r); repeat split; [discriminate|exact Hb]|].
      intros (s & [= <-] & _ & Hb). exact Hb.
  - split; [discriminate|]. intros (s & Hs & _). discriminate.
Qed.

Lemma blank_sourced_dec h : {blank_sourced h} + {~ blank_sourced h}.
Proof.
  unfold blank_sourced.
  destruct (decide (i_link (h_item h) = "")) as [Hl|Hl]; [right; tauto|].
  destruct (decide (blank (source_or_serper (h_source h)))) as [Hb|Hb].
  - left. split; [exact Hl|]. apply source_or_serper_blank, Hb.
  - right. intros [_ H]. apply Hb, source_or_serper_blank, H.
Qed.

Lemma radar_upsert_inv c data c' r :
  radar_upsert c data = (c', r) ->
  radar_items c' = radar_items c
  \/ radar_items c' = <[r_url_hash data := data]> (radar_items c).
Proof.
  unfold radar_upsert, radar_call.
  destruct (radar_faults c) as [|[|] fs]; intros [= <- <-]; cbn; auto.
Qed.

(** What a turn of the loop does, by the kind of result. *)
Lemma upsert_radar_item_cases bok md5 topic_name c n h :
  let url := i_link (h_item h) in
  (url = "" /\ upsert_radar_item bok md5 topic_name (c, n) h = (c, n, None))
  \/ (blank_sourced h
      /\ upsert_radar_item bok md5 topic_name (c, n) h = (c, n, Some AssertionError))
  \/ (url <> "" /\ ~ blank_sourced h
      /\ exists c',
          upsert_radar_item bok md5 topic_name (c, n) h = (c', n + 1, None)
          /\ (radar_items c' = radar_items c
              \/ exists row,
                  radar_items c' = <[md5 url := row]> (radar_items c)
                  /\ r_url row = url
                  /\ r_topic row = topic_name
                  /\ r_fetched_at row = h_clock h
                  /\ r_source row = source_or_serper (h_source h)
                  /\ ~ blank (r_source row))).
Proof.
  cbv zeta. unfold upsert_radar_item.
  destruct (i_link (h_item h)) as [|ch r] eqn:El; cbn [truthy negb]; [left; auto|].
  right. rewrite (source_or_serper_truthy (h_source h)). cbn [andb].
  destruct (blank_sourced_dec h) as [Hb|Hb].
  - left. split; [exact Hb|].
    destruct Hb as [_ Hb]. apply source_or_serper_blank in Hb. unfold blank in Hb.
    rewrite Hb. reflexivity.
  - right. split; [discriminate|]. split; [exact Hb|].
    assert (~ blank (source_or_serper (h_source h))) as Hs.
    { intros H. apply Hb. split; [rewrite El; discriminate|].
      apply source_or_serper_blank, H. }
    assert (String.eqb (strip (source_or_serper (h_source h))) "" = false) as ->
      by (apply String.eqb_neq, Hs).
    cbn [negb].
    match goal with |- context [radar_upsert c ?d] =>
      destruct (radar_upsert c d) as [c1 r1] eqn:Hup end.
    exists c1. split; [reflexivity|].
    apply radar_upsert_inv in Hup as [Hup|Hup]; [left; exact Hup|].
    right. eexists. split; [exact Hup|]. cbn. repeat split; auto.
Qed.

(** X24: [upsert_radar_items] either raises, and then it raises [AssertionError]
    and some result with a link has a source that is white space only; or
    it ends normally, no result is of that kind, and the count it reports
    as processed is the number of results with a link, whatever the
    store's failures. *)
Theorem radar_batch_outcome :
  forall bok md5 topic_name items c,
    exists c',
      match upsert_radar_items bok md5 (Some c) items topic_name with
      | (cl', Raise e) =>
          cl' = Some c' /\ e = AssertionError /\ Exists blank_sourced items
      | (cl', Ok processed_count) =>
          cl' = Some c'
          /\ Forall (fun h => ~ blank_sourced h) items
          /\ processed_count = Some (Z.of_nat (length (linked items)))
      end.
Proof.
  intros bok md5 topic_name items c. unfold upsert_radar_items.
  assert (forall n,
            match upsert_radar_loop bok md5 topic_name (c, n) items with
            | (_, Raise e) => e = AssertionError /\ Exists blank_sourced items
            | (_, Ok k) =>
                Forall (fun h => ~ blank_sourced h) items
                /\ k = n + Z.of_nat (length (linked items))
            end) as Hloop.
  { revert c. induction items as [|h rest IH]; intros c n; cbn [upsert_radar_loop].
    - split; [constructor|]. cbn. lia.
    - destruct (upsert_radar_item_cases bok md5 topic_name c n h)
        as [[Hl ->] | [[Hb ->] | (Hl & Hb & c1 & -> & _)]].
      + specialize (IH c n).
        destruct (upsert_radar_loop bok md5 topic_name (c, n) rest) as [c2 [k|e]].
        * destruct IH as [IH ->]. split.
          -- constructor; [|exact IH]. intros [H _]. contradiction.
          -- unfold linked. cbn [map]. rewrite filter_cons_False by (intros H; contradiction).
             reflexivity.
        * destruct IH as [-> IH]. split; [reflexivity|]. apply Exists_cons_tl, IH.
      + split; [reflexivity|]. apply Exists_cons_hd, Hb.
      + specialize (IH c1 (n + 1)).
        destruct (upsert_radar_loop bok md5 topic_name (c1, n + 1) rest) as [c2 [k|e]].
        * destruct IH as [IH ->]. split; [constructor; assumption|].
          unfold linked. cbn [map]. rewrite filter_cons_True by exact Hl.
          cbn [length]. lia.
        * destruct IH as [-> IH]. split; [reflexivity|]. apply Exists_cons_tl, IH. }
  specialize (Hloop 0).
  destruct (upsert_radar_loop bok md5 topic_name (c, 0) items) as [c2 [k|e]];
    exists c2; (split; [reflexivity|]).
  - destruct Hloop as [H ->]. split; [exact H|]. reflexivity.
  - exact Hloop.
Qed.




Lemma upsert_radar_loop_answers bok md5 topic_name items : forall c n,
  radar_faults c = [] ->
  Forall (fun h => ~ blank_sourced h) items ->
  exists c',
    upsert_radar_loop bok md5 topic_name (c, n) items
    = (c', Ok (n + Z.of_nat (length (linked items))))
    /\ radar_faults c' = []
    /\ dom (radar_items c') = dom (radar_items c) ∪ list_to_set (md5 <$> linked items).
Proof.
  induction items as [|h rest IH]; intros c n Hf Hok; cbn [upsert_radar_loop].
  - exists c. split; [cbn; f_equal; f_equal; lia|]. split; [exact Hf|].
    cbn. rewrite union_empty_r_L. reflexivity.
  - apply Forall_cons in Hok as [Hh Hok].
    unfold upsert_radar_item.
    destruct (i_link (h_item h)) as [|ch r] eqn:El; cbn [truthy negb].
    + destruct (IH c n Hf Hok) as (c' & -> & Hf' & Hdom).
      assert (linked (h :: rest) = linked rest) as ->.
      { unfold linked. cbn [map]. rewrite El. apply filter_cons_False. congruence. }
      exists c'. auto.
    + rewrite (source_or_serper_truthy (h_source h)). cbn [andb].
      assert (~ blank (source_or_serper (h_source h))) as Hs.
      { intros H. apply Hh. split; [rewrite El; discriminate|].
        apply source_or_serper_blank, H. }
      assert (String.eqb (strip (source_or_serper (h_source h))) "" = false) as ->
        by (apply String.eqb_neq, Hs).
      cbn [negb]. unfold radar_upsert, radar_call. rewrite Hf.
      cbn [r_url_hash radar_items radar_faults]. rewrite Hf.
      match goal with |- context [upsert_radar_loop _ _ _ (?c1, _) rest] =>
        destruct (IH c1 (n + 1) eq_refl Hok) as (c' & -> & Hf' & Hdom) end.
      assert (linked (h :: rest) = String ch r :: linked rest) as ->.
      { unfold linked. cbn [map]. rewrite El. apply filter_cons_True. discriminate. }
      exists c'. split; [cbn [length]; f_equal; f_equal; lia|]. split; [exact Hf'|].
      cbn [radar_items] in Hdom.
      rewrite Hdom, dom_insert_L. cbn [fmap list_fmap list_to_set]. unfold get_url_hash.
      rewrite (union_comm_L {[md5 (String ch r)]} (dom (radar_items c))).
      rewrite <- union_assoc_L. reflexivity.
Qed.

(** X26: with a store that answers and no result whose source is white space
    only, [upsert_radar_items] ends normally and the keys of the table
    become the old keys together with the hashes of the links of the
    results that have one. *)
Theorem clean_radar_batch_stores_every_link :
  forall bok md5 topic_name items c,
    radar_faults c = [] ->
    Forall (fun h => ~ blank_sourced h) items ->
    exists c',
      upsert_radar_items bok md5 (Some c) items topic_name
      = (Some c', Ok (Some (Z.of_nat (length (linked items)))))
      /\ dom (radar_items c') = dom (radar_items c) ∪ list_to_set (md5 <$> linked items).
Proof.
  intros bok md5 topic_name items c Hf Hok. unfold upsert_radar_items.
  destruct (upsert_radar_loop_answers bok md5 topic_name items c 0 Hf Hok)
    as (c' & -> & _ & Hdom).
  exists c'. split; [reflexivity | exact Hdom].
Qed.

Lemma clean_radar_batch_stores_every_link_witness :
  let items :=
    [ mkHit blog_post None jan_10;
      mkHit (record_of "" "Baz") (Some "  ") jan_10;
      mkHit (record_of "https://example.org/news" "Bar") (Some "Example") (jan_10 + 1) ] in
  let c := mkRadarClient ∅ [] in
  exists c',
    upsert_radar_items accept_bracketed sample_digest (Some c) items "ai"
    = (Some c', Ok (Some (Z.of_nat (length (linked items)))))
    /\ dom (radar_items c')
       = dom (radar_items c) ∪ list_to_set (sample_digest <$> linked items).
Proof.
  intros items c.
  apply (clean_radar_batch_stores_every_link accept_bracketed sample_digest "ai" items c).
  - reflexivity.
  - repeat constructor.
    + intros [_ (s & [=] & _)].
    + intros [Hl _]. apply Hl. reflexivity.
    + intros [_ (s & [= <-] & _ & Hb)]. vm_compute in Hb. discriminate.
Defined.

(** X27: every result [search_serper] returns has a source that is not empty,
    which the default of [upsert_radar_items] leaves as it is; without an
    API key or when the request fails there are no results; otherwise the
    results are the ones received, and one of them trips the assertion of
    [upsert_radar_items] exactly when one of those received does. *)
Theorem search_serper_fills_every_source :
  forall api_key response,
    let results := search_serper api_key response in
    Forall (fun r => exists s, h_source r = Some s /\ s <> ""
                               /\ source_or_serper (h_source r) = s) results
    /\ match response with
       | Ok organic_results =>
           if api_key
           then map h_item results = map h_item organic_results
                /\ (Exists blank_sourced results
                    <-> Exists blank_sourced organic_results)
           else results = []
       | Raise _ => results = []
       end.
Proof.
  intros api_key response. cbv zeta. unfold search_serper.
  destruct api_key; cbn [negb]; [|split; [constructor|destruct response; reflexivity]].
  destruct response as [organic_results|e]; [|split; [constructor|reflexivity]].
  split; [|split].
  - apply Forall_forall. intros r Hr. apply list_elem_of_fmap in Hr as (r0 & -> & _).
    cbn [h_source]. exists (source_or_serper (h_source r0)).
    split; [reflexivity|]. split; [apply truthy_neq, source_or_serper_truthy|].
    cbn [source_or_serper]. unfold or_else.
    rewrite (source_or_serper_truthy (h_source r0)). reflexivity.
  - rewrite map_map. reflexivity.
  - rewrite Exists_fmap. apply Exists_proper; [|reflexivity].
    intros r. unfold blank_sourced. cbn [h_item h_source]. apply and_iff_compat_l.
    rewrite <- (source_or_serper_blank (h_source r)). split.
    + intros (s & [= <-] & _ & Hb). exact Hb.
    + intros Hb. eexists. split; [reflexivity|].
      split; [apply truthy_neq, source_or_serper_truthy | exact Hb].
Qed.

(** ** The weekly report *)

Example report_of_an_empty_week :
  generate_weekly_report true 1736687107250000 1736687108000000 (Raise StoreError)
  = join newline
      [ "# 雷达周报 - 2025-01-06 至 2025-01-12"; "";
        "生成时间: 2025-01-12 13:05:08 UTC"; "";
        "## 总览"; "- 本周捕获项目数: 0"; "- 涉及主题数: 0"; "" ].
Proof. vm_compute. reflexivity. Qed.

Example str_of_int_samples :
  map str_of_int [0; 7; 10; 99; 100; 12345] = ["0"; "7"; "10"; "99"; "100"; "12345"].
Proof. vm_compute. reflexivity. Qed.

Lemma topic_append_keys topic it d :
  (topic_append topic it d).*1
  = if bool_decide (topic ∈ d.*1) then d.*1 else (d.*1 ++ [topic])%list.
Proof.
  induction d as [|[t g] d IH]; [reflexivity|]. cbn [topic_append].
  destruct (String.eqb_spec t topic) as [->|Hne].
  - cbn. rewrite bool_decide_eq_true_2 by (apply elem_of_cons; auto). reflexivity.
  - cbn [fmap list_fmap fst]. rewrite IH.
    destruct (bool_decide (topic ∈ d.*1)) eqn:E.
    + apply bool_decide_eq_true_1 in E.
      rewrite bool_decide_eq_true_2 by (apply elem_of_cons; auto). reflexivity.
    + apply bool_decide_eq_false_1 in E.
      rewrite bool_decide_eq_false_2; [reflexivity|].
      intros [H|H]%elem_of_cons; [congruence|contradiction].
Qed.

Lemma topic_append_NoDup topic it d :
  NoDup (d.*1) -> NoDup ((topic_append topic it d).*1).
Proof.
  intros H. rewrite topic_append_keys. case_bool_decide as Hin; [exact H|].
  apply NoDup_app. split; [exact H|]. split; [|apply NoDup_singleton].
  intros x Hx [= ->]%list_elem_of_singleton. contradiction.
Qed.

Lemma topic_append_entries topic it d : NoDup (d.*1) ->
  forall t g,
    (t, g) ∈ topic_append topic it d
    <-> (t <> topic /\ (t, g) ∈ d)
        \/ (t = topic
            /\ ((exists g0, (topic, g0) ∈ d /\ g = (g0 ++ [it])%list)
                \/ ((topic ∉ d.*1) /\ g = [it]))).
Proof.
  induction d as [|[t0 g0] d IH]; intros Hnd t g.
  - cbn [topic_append]. rewrite list_elem_of_singleton. split.
    + intros [= -> ->]. right. split; [reflexivity|]. right.
      split; [apply not_elem_of_nil|reflexivity].
    + intros [[_ H] | [-> [(g1 & H & _) | [_ ->]]]]; [inversion H | inversion H | reflexivity].
  - cbn [fmap list_fmap fst] in Hnd. apply NoDup_cons in Hnd as [Hfresh Hnd].
    assert (forall g1, (t0, g1) ∈ d -> False) as Hfresh'.
    { intros g1 Hin. apply Hfresh. apply list_elem_of_fmap. exists (t0, g1). auto. }
    cbn [topic_append]. destruct (String.eqb_spec t0 topic) as [Heq|Hne].
    + subst t0. rewrite !elem_of_cons. cbn [fmap list_fmap fst]. split.
      * intros [Heq | Hin].
        -- injection Heq as -> ->. right. split; [reflexivity|]. left.
           exists g0. split; [apply elem_of_cons; auto | reflexivity].
        -- left. split; [intros ->; exact (Hfresh' _ Hin) | auto].
      * intros [[Hne [Heq | Hin]] | [-> [(g1 & Hin & ->) | [Hnot ->]]]].
        -- injection Heq as -> ->. congruence.
        -- auto.
        -- apply elem_of_cons in Hin as [Heq | Hin].
           ++ injection Heq as ->. auto.
           ++ exfalso. exact (Hfresh' _ Hin).
        -- exfalso. apply Hnot, elem_of_cons. auto.
    + rewrite !elem_of_cons, (IH Hnd). cbn [fmap list_fmap fst]. split.
      * intros [Heq | [[Hne' Hin] | [-> [(g1 & Hin & ->) | [Hnot ->]]]]].
        -- injection Heq as -> ->. left. split; [exact Hne | auto].
        -- left. auto.
        -- right. split; [reflexivity|]. left. exists g1.
           split; [apply elem_of_cons; auto | reflexivity].
        -- right. split; [reflexivity|]. right. split; [|reflexivity].
           intros [H|H]%elem_of_cons; [congruence | contradiction].
      * intros [[Hne' [Heq | Hin]] | [-> [(g1 & Hin & ->) | [Hnot ->]]]].
        -- auto.
        -- right. left. auto.
        -- apply elem_of_cons in Hin as [Heq | Hin]; [injection Heq as <- _; congruence|].
           right. right. split; [reflexivity|]. left. eauto.
        -- right. right. split; [reflexivity|]. right. split; [|reflexivity].
           intros H. apply Hnot, elem_of_cons. auto.
Qed.

Lemma group_by_topic_snoc items it :
  group_by_topic (items ++ [it]) = topic_append (r_topic it) it (group_by_topic items).
Proof. unfold group_by_topic. rewrite fold_left_app. reflexivity. Qed.

Lemma group_by_topic_spec items :
  NoDup ((group_by_topic items).*1)
  /\ forall t g,
      (t, g) ∈ group_by_topic items
      <-> g = filter (fun it => r_topic it = t) items /\ g <> [].
Proof.
  induction items as [|it items [IHnd IH]] using rev_ind.
  - split; [constructor|]. intros t g. cbn. split; [intros H; inversion H|].
    intros [-> H]. congruence.
  - rewrite group_by_topic_snoc. split; [apply topic_append_NoDup, IHnd|].
    intros t g. rewrite (topic_append_entries _ _ _ IHnd), filter_app.
    destruct (decide (t = r_topic it)) as [->|Hne].
    + rewrite filter_cons_True by reflexivity. rewrite filter_nil. split.
      * intros [[H _] | [_ [(g0 & Hin & ->) | [Hnot ->]]]]; [congruence| |].
        -- apply IH in Hin as [<- _]. split; [reflexivity|]. destruct g0; discriminate.
        -- split; [|discriminate].
           destruct (filter (fun it0 => r_topic it0 = r_topic it) items) as [|x l] eqn:E;
             [reflexivity|].
           exfalso. apply Hnot. apply list_elem_of_fmap.
           exists (r_topic it, x :: l). split; [reflexivity|].
           apply IH. rewrite E. split; [reflexivity|discriminate].
      * intros [-> _]. right. split; [reflexivity|].
        destruct (filter (fun it0 => r_topic it0 = r_topic it) items) as [|x l] eqn:E.
        -- right. split; [|reflexivity].
           intros Hin. apply list_elem_of_fmap in Hin as ([t0 g0] & Ht & Hin). cbn in Ht. subst t0.
           apply IH in Hin as [Hg Hne]. rewrite E in Hg. congruence.
        -- left. exists (x :: l). split; [|reflexivity]. apply IH. rewrite E.
           split; [reflexivity|discriminate].
    + rewrite filter_cons_False by congruence. rewrite filter_nil, app_nil_r. split.
      * intros [[_ Hin] | [H _]]; [apply IH, Hin | congruence].
      * intros H. left. split; [exact Hne | apply IH, H].
Qed.

Lemma topic_append_concat topic it d :
  concat (topic_append topic it d).*2 ≡ₚ (concat d.*2 ++ [it])%list.
Proof.
  induction d as [|[t g] d IH]; [reflexivity|]. cbn [topic_append].
  destruct (String.eqb t topic); cbn [fmap list_fmap snd concat].
  - rewrite <- !app_assoc. apply Permutation_app_head, Permutation_app_comm.
  - change (list_fmap _ _ snd ?l) with (l.*2). rewrite IH, app_assoc. reflexivity.
Qed.

Lemma group_by_topic_concat items : concat (group_by_topic items).*2 ≡ₚ items.
Proof.
  induction items as [|it items IH] using rev_ind; [reflexivity|].
  rewrite group_by_topic_snoc, topic_append_concat, IH. reflexivity.
Qed.

(** X28: the grouping of [generate_weekly_report] has one entry per topic that
    occurs among the rows: the entry of a topic holds the rows of that
    topic, in their order, and the entries together hold every row exactly
    once. *)
Theorem report_groups_items_by_topic :
  forall items,
    let topics_dict := group_by_topic items in
    NoDup (topics_dict.*1)
    /\ (forall t, t ∈ topics_dict.*1 <-> t ∈ r_topic <$> items)
    /\ (forall t g, (t, g) ∈ topics_dict
                    <-> g = filter (fun it => r_topic it = t) items /\ g <> [])
    /\ concat topics_dict.*2 ≡ₚ items.
Proof.
  intros items. cbv zeta.
  destruct (group_by_topic_spec items) as [Hnd Hspec].
  split; [exact Hnd|]. split; [|split; [exact Hspec | apply group_by_topic_concat]].
  intros t. split.
  - intros Hin. apply list_elem_of_fmap in Hin as ([t0 g] & Ht & Hin). cbn in Ht. subst t0.
    apply Hspec in Hin as [-> Hne].
    destruct (filter (fun it => r_topic it = t) items) as [|x l] eqn:E; [congruence|].
    assert (x ∈ filter (fun it => r_topic it = t) items) as Hx by (rewrite E; left).
    apply list_elem_of_filter in Hx as [Ht Hx].
    apply list_elem_of_fmap. exists x. auto.
  - intros Hin. apply list_elem_of_fmap in Hin as (x & -> & Hx).
    apply list_elem_of_fmap.
    exists (r_topic x, filter (fun it => r_topic it = r_topic x) items).
    split; [reflexivity|]. apply Hspec. split; [reflexivity|].
    intros E.
    assert (x ∈ filter (fun it => r_topic it = r_topic x) items) as Hx'
      by (apply list_elem_of_filter; auto).
    rewrite E in Hx'. inversion Hx'.
Qed.

Lemma weekly_report_truthy clock generated_at response :
  truthy (generate_weekly_report true clock generated_at response) = true.
Proof.
  unfold generate_weekly_report. cbn [negb].
  destruct (report_window clock) as [week_start week_end].
  unfold report_lines. cbv zeta. cbn [app join].
  apply truthy_append_l, truthy_append_l. reflexivity.
Qed.

(** X29: with a client, the report generated is never empty, even when the query
    fails, so the report step always tries to save it: the save either
    writes the row of the week or, when the store raises, leaves the table
    as it was and reports the failure. *)
Theorem weekly_report_is_never_empty :
  forall clock generated_at response save_clock created updated c,
    let report_content := generate_weekly_report true clock generated_at response in
    let week_start := Datetime.isoformat (get_week_start save_clock) in
    report_content <> ""
    /\ exists c' report_saved,
        weekly_report_step clock generated_at response save_clock created updated c
        = (Some c', Some report_saved)
        /\ if report_saved
           then weekly_reports c'
                = <[week_start :=
                      mkWeeklyReport week_start report_content report_content created updated]>
                    (weekly_reports c)
           else weekly_reports c' = weekly_reports c
                /\ exists fs, report_faults c = true :: fs.
Proof.
  intros clock generated_at response save_clock created updated c. cbv zeta.
  pose proof (weekly_report_truthy clock generated_at response) as Ht.
  split; [apply truthy_neq, Ht|].
  unfold weekly_report_step. rewrite Ht. unfold upsert_weekly_report, or_else. rewrite Ht.
  cbn [w_week_start].
  destruct (report_faults c) as [|[|] fs]; eexists _, _; (split; [reflexivity|]); cbn; eauto.
Qed.

(** X30: with a store that answers, two saves within one week write the same
    row: after the second, the row of the week holds the second report,
    and its [created_at] is the instant of the second save. *)
Theorem reports_of_one_week_share_a_row :
  forall clock created updated later created' updated' c content content',
    report_faults c = [] ->
    Datetime.wall (get_week_start clock) <= later
      < Datetime.wall (get_week_start clock) + Datetime.timedelta_days 7 ->
    let week_start := Datetime.isoformat (get_week_start clock) in
    exists c1 c2,
      upsert_weekly_report clock created updated (Some c) content = (Some c1, true)
      /\ upsert_weekly_report later created' updated' (Some c1) content' = (Some c2, true)
      /\ weekly_reports c2
         = <[week_start := mkWeeklyReport week_start content' content' created' updated']>
             (weekly_reports c).
Proof.
  intros clock created updated later created' updated' c content content' Hf Hweek.
  cbv zeta. unfold upsert_weekly_report. rewrite Hf. cbn [report_faults w_week_start].
  assert (get_week_start later = get_week_start clock) as ->.
  { rewrite get_week_start_wall in Hweek. unfold Datetime.timedelta_days in Hweek.
    rewrite !get_week_start_closed. do 2 f_equal.
    apply monday_of_the_week;
      [unfold Datetime.day_us, Datetime.second_us; lia
      | Z.div_mod_to_equations; lia
      | exact Hweek]. }
  eexists _, _. split; [reflexivity|]. split; [reflexivity|].
  cbn [weekly_reports]. rewrite insert_insert_eq.
  assert (forall x, or_else x "" = x) as Hor by (intros [|? ?]; reflexivity).
  rewrite Hor. reflexivity.
Qed.

Lemma reports_of_one_week_share_a_row_witness :
  let clock := jan_10 in
  let later := 1736687107250000 in
  let c := mkReportClient ∅ [] in
  let week_start := Datetime.isoformat (get_week_start clock) in
  exists c1 c2,
    upsert_weekly_report clock (clock + 1) (clock + 2) (Some c) "first" = (Some c1, true)
    /\ upsert_weekly_report later (later + 1) (later + 2) (Some c1) "second" = (Some c2, true)
    /\ weekly_reports c2
       = <[week_start := mkWeeklyReport week_start "second" "second" (later + 1) (later + 2)]>
           (weekly_reports c).
Proof.
  intros clock later c week_start.
  apply (reports_of_one_week_share_a_row clock (clock + 1) (clock + 2) later (later + 1)
           (later + 2) c "first" "second").
  - reflexivity.
  - vm_compute. split; [discriminate | reflexivity].
Defined.
